(** * School-name reconciliation (ollama_data_merger.py): a shallow embedding

    The development follows the script leaf-first: text helpers of the
    Python runtime, [normalize_school_name], [extract_json_dict],
    [fuzzy_match_schools], [get_name_mapping], [process_dataset] and
    [main]; the geocoding loop of add_adress_to_schools.py comes last.

    Text.  A Python [str] is modelled as a Rocq [string]; each character is
    a code point below 256 (Rocq's [ascii]), classified the way CPython
    classifies the code points U+0000..U+00FF.  Text-processing functions
    work on [list ascii] and are wrapped at [string] level.

    Tables.  A pandas table is the list of its rows.  A cell of a name
    column holds a string, a number or nothing; [None] stands for a missing
    value and for a number, which the script treats alike.  In a table
    read by [pd.read_csv] a number is found only in a column of numbers.
    pandas refuses the [.str] accessor on a column in which it finds no
    string: that error, and the two others that the tables can cause, are
    part of [process_dataset].

    Services.  [json.loads], [difflib.SequenceMatcher] and the Ollama
    endpoint are parameters of the functions that call them; a model of
    the first two is given to run the functions on concrete inputs.
    Printing is left out. *)

From Stdlib Require Import Ascii String QArith Lqa.
From stdpp Require Import gmap strings list sorting.

Open Scope string_scope.
Open Scope list_scope.

(** ** Characters and the Python string methods used by the script *)

Module Text.

Definition code (c : ascii) : N := N_of_ascii c.

(** The double quote character. *)
Definition dquote : ascii := "034"%char.

Definition between (lo hi : N) (c : ascii) : bool :=
  ((lo <=? code c) && (code c <=? hi))%N.

(** [str.isspace] for one character, which is also what [\s] matches in a
    [str] pattern and what [str.strip()] removes. *)
Definition isspace (c : ascii) : bool :=
  between 9 13 c || between 28 32 c || (code c =? 133)%N || (code c =? 160)%N.

(** What [\w] matches in a [str] pattern: alphanumerics and the underscore. *)
Definition isword (c : ascii) : bool :=
  between 48 57 c || between 65 90 c || (code c =? 95)%N || between 97 122 c
  || (code c =? 170)%N || between 178 179 c || (code c =? 181)%N
  || between 185 186 c || between 188 190 c
  || between 192 214 c || between 216 246 c || between 248 255 c.

(** [str.lower] for one character. *)
Definition lower_char (c : ascii) : ascii :=
  if between 65 90 c || between 192 214 c || between 216 222 c
  then ascii_of_N (code c + 32) else c.

Definition lower (s : list ascii) : list ascii := map lower_char s.

Fixpoint lstrip (s : list ascii) : list ascii :=
  match s with
  | c :: s' => if isspace c then lstrip s' else s
  | [] => []
  end.

Definition rstrip (s : list ascii) : list ascii := rev (lstrip (rev s)).

(** [s.strip()] *)
Definition strip (s : list ascii) : list ascii := rstrip (lstrip s).

Fixpoint starts_with (p s : list ascii) : bool :=
  match p, s with
  | [], _ => true
  | a :: p', b :: s' => bool_decide (a = b) && starts_with p' s'
  | _ :: _, [] => false
  end.

(** [old in s]: some suffix of [s] starts with [old]. *)
Fixpoint contains (old s : list ascii) : bool :=
  starts_with old s ||
  match s with
  | [] => false
  | _ :: s' => contains old s'
  end.

(** [s.replace(old, new)] scans left to right and replaces non-overlapping
    occurrences; [skip] counts the characters of a matched occurrence that
    are still to be passed over. *)
Fixpoint replace_from (old new : list ascii) (skip : nat) (s : list ascii)
  : list ascii :=
  match s with
  | [] => []
  | c :: s' =>
      match skip with
      | S k => replace_from old new k s'
      | O =>
          if starts_with old s
          then new ++ replace_from old new (pred (length old)) s'
          else c :: replace_from old new 0 s'
      end
  end.

Definition replace (old new s : list ascii) : list ascii :=
  match old with
  | [] => new ++ flat_map (fun c => c :: new) s
  | _ :: _ => replace_from old new 0 s
  end.

(** [s.find(c)] for a one-character [c]: [None] stands for [-1]. *)
Fixpoint find (c : ascii) (s : list ascii) : option nat :=
  match s with
  | [] => None
  | d :: s' => if bool_decide (d = c) then Some 0%nat else S <$> find c s'
  end.

(** The slice [s[lo:hi]] for [0 <= lo] and [0 <= hi]. *)
Definition slice {A} (lo hi : nat) (s : list A) : list A :=
  take (hi - lo) (drop lo s).

(** [re.sub(r'[^\w\s]', '', s)] *)
Definition remove_punctuation (s : list ascii) : list ascii :=
  filter (fun c => isword c || isspace c) s.

(** [re.sub(r'\s+', ' ', s)]: every maximal run of whitespace becomes one
    space; [in_run] says that the previous character was whitespace. *)
Fixpoint collapse_from (in_run : bool) (s : list ascii) : list ascii :=
  match s with
  | [] => []
  | c :: s' =>
      if isspace c
      then (if in_run then collapse_from true s'
            else " "%char :: collapse_from true s')
      else c :: collapse_from false s'
  end.

Definition collapse_whitespace (s : list ascii) : list ascii :=
  collapse_from false s.

End Text.

Abbreviation chars := list_ascii_of_string.
Abbreviation str := string_of_list_ascii.

(** ** normalize_school_name *)

(** The [replacements] dict, in insertion order (the order of
    [replacements.items()]). *)
Definition replacements : list (string * string) :=
  [ (" elementary school", " es");
    (" middle school", " ms");
    (" high school", " hs");
    (" secondary school", " ss");
    (" elementary", " es");
    (" middle", " ms");
    (" high", " hs");
    (" secondary", " ss");
    (" school", "");
    (" center", " ctr");
    (" centre", " ctr");
    (" academy", " acad");
    (" alternative", " alt");
    (" international", " intl");
    (" magnet", " mag");
    (" charter", " chtr");
    (" campus", "");
    (" facility", "");
    (" program", "") ].

(** The loop [for old, new in replacements.items(): name = name.replace(old, new)]. *)
Definition apply_replacements (reps : list (string * string)) (name : list ascii)
  : list ascii :=
  fold_left (fun acc '(old, new) => Text.replace (chars old) (chars new) acc)
            reps name.

(** The body of [normalize_school_name] below the [pd.isna] test. *)
Definition normalize_chars (name : list ascii) : list ascii :=
  let name := Text.strip (Text.lower name) in
  let name := apply_replacements replacements name in
  let name := Text.remove_punctuation name in
  let name := Text.collapse_whitespace name in
  Text.strip name.

(** [normalize_school_name(name)]; [None] is a missing value ([pd.isna]). *)
Definition normalize_school_name (name : option string) : string :=
  match name with
  | None => ""
  | Some s => str (normalize_chars (chars s))
  end.

(** ** Values, exceptions and the external services *)

(** A value stored in a name mapping, as [json.loads] gives it: [None]
    for a JSON [null], a string, or any other value (a number, a boolean,
    an array, an object), kept as the JSON text that denotes it.  The
    script never looks into a value; only pandas tells the three kinds
    apart.  [NaN], which [json.loads] also accepts and pandas takes for a
    missing value, counts as [PyNone]. *)
Inductive pyval : Type :=
  | PyNone
  | PyStr (s : string)
  | PyOther (text : string).

#[global] Instance pyval_eq_dec : EqDecision pyval.
Proof. solve_decision. Defined.

(** A Python [dict] with string keys. *)
Abbreviation dict := (gmap string pyval).

(** [d.update(other)]: the entries of [other] override those of [d]. *)
Definition dict_update (d other : dict) : dict := other ∪ d.

Inductive exn : Type :=
  | ValueError (msg : string)
  | JSONDecodeError
  | RequestError
  | AttributeError
  | KeyError (key : string)
  | TypeError.

Inductive result (A : Type) : Type :=
  | Ok (a : A)
  | Raise (e : exn).
Arguments Ok {A} a.
Arguments Raise {A} e.

(** ** extract_json_dict *)

(** The three loop variables [brace_count], [in_str], [escape]. *)
Record scan : Type := Scan { brace_count : Z; in_str : bool; escape : bool }.

Definition scan_init : scan := Scan 0 false false.

(** Outcome of one iteration of the [for] loop: either the loop goes on
    with new variables, or the [return] inside [if brace_count == 0] is
    reached. *)
Inductive iteration : Type :=
  | Continue (st : scan)
  | Return.

Definition scan_step (st : scan) (c : ascii) : iteration :=
  if bool_decide (c = Text.dquote) && negb (escape st) then
    Continue (Scan (brace_count st) (negb (in_str st)) false)
  else if bool_decide (c = "\"%char) && negb (escape st) then
    Continue (Scan (brace_count st) (in_str st) true)
  else if negb (in_str st) then
    if bool_decide (c = "{"%char) then
      Continue (Scan (brace_count st + 1) (in_str st) false)
    else if bool_decide (c = "}"%char) then
      if (brace_count st - 1 =? 0)%Z then Return
      else Continue (Scan (brace_count st - 1) (in_str st) false)
    else Continue (Scan (brace_count st) (in_str st) false)
  else Continue (Scan (brace_count st) (in_str st) false).

(** The loop [for i in range(start, len(text))], entered at index [i] with
    [rest = text[i:]]; the answer is the index at which it returns. *)
Fixpoint scan_loop (st : scan) (i : nat) (rest : list ascii) : option nat :=
  match rest with
  | [] => None
  | c :: rest' =>
      match scan_step st c with
      | Return => Some i
      | Continue st' => scan_loop st' (S i) rest'
      end
  end.

Section Extract.

(** [json.loads] on a text that begins with an opening brace, the only
    texts the script hands to it: [None] when it raises, otherwise the
    [dict] it returns. *)
Variable json_loads : string -> option dict.

Definition extract_json_dict (text : string) : result string :=
  let t := chars text in
  match Text.find "{"%char t with
  | None => Raise (ValueError "No opening brace found.")
  | Some start =>
      match scan_loop scan_init start (drop start t) with
      | Some i =>
          let json_str := str (Text.slice start (i + 1) t) in
          match json_loads json_str with
          | Some _ => Ok json_str
          | None => Raise JSONDecodeError
          end
      | None => Raise (ValueError "No valid JSON found.")
      end
  end.

End Extract.

(** ** difflib.SequenceMatcher(None, a, b).ratio()

    The scorer belongs to Python's standard library.  The matcher below is
    parametric in it; [SequenceMatcher] is a model of the library routine
    (no junk predicate, [autojunk] on) used to run the matcher on concrete
    names. *)

Module SequenceMatcher.

(** [__chain_b]: with 200 characters or more in [b], a character occurring
    more than [n // 100 + 1] times is popular and leaves [b2j]. *)
Definition popular (b : list ascii) (c : ascii) : bool :=
  (200 <=? length b)%nat &&
  (length b / 100 + 1 <? length (filter (fun d => bool_decide (d = c)) b))%nat.

(** The best block so far: [(besti, bestj, bestsize)]. *)
Definition block : Type := nat * nat * nat.

(** One pass of the inner loop [for j in b2j.get(a[i], nothing)]: [bs] is
    [b[j:]], [prev] is the previous [j2len] from index [j] on (0 for an
    absent key) and [left] is [j2len.get(j-1, 0)].  Returns [newj2len]
    from [j] on and the updated best block. *)
Fixpoint inner (b : list ascii) (blo bhi i : nat) (ai : ascii)
    (j left : nat) (bs : list ascii) (prev : list nat) (best : block)
    : list nat * block :=
  match bs with
  | [] => ([], best)
  | bj :: bs' =>
      let hit := bool_decide (bj = ai) && negb (popular b ai)
                 && (blo <=? j)%nat && (j <? bhi)%nat in
      let k := if hit then S left else 0%nat in
      let best' := if hit && (snd best <? k)%nat
                   then (i + 1 - k, j + 1 - k, k)%nat else best in
      let '(row, best'') :=
        inner b blo bhi i ai (S j) (hd 0%nat prev) bs' (tl prev) best' in
      (k :: row, best'')
  end.

(** The outer loop [for i in range(alo, ahi)]; [as_] is [a[i:ahi]]. *)
Fixpoint outer (b : list ascii) (blo bhi : nat) (i : nat) (as_ : list ascii)
    (j2len : list nat) (best : block) : block :=
  match as_ with
  | [] => best
  | ai :: as' =>
      let '(row, best') := inner b blo bhi i ai 0 0 b j2len best in
      outer b blo bhi (S i) as' row best'
  end.

(** [while besti > alo and bestj > blo and a[besti-1] == b[bestj-1]] *)
Fixpoint extend_back (a b : list ascii) (alo blo : nat) (fuel : nat) (m : block)
    : block :=
  let '(besti, bestj, bestsize) := m in
  match fuel with
  | O => m
  | S fuel' =>
      if (alo <? besti)%nat && (blo <? bestj)%nat
         && bool_decide (a !! (besti - 1)%nat = b !! (bestj - 1)%nat)
      then extend_back a b alo blo fuel' (besti - 1, bestj - 1, S bestsize)%nat
      else m
  end.

(** [while besti+bestsize < ahi and bestj+bestsize < bhi and
     a[besti+bestsize] == b[bestj+bestsize]] *)
Fixpoint extend_forth (a b : list ascii) (ahi bhi : nat) (fuel : nat) (m : block)
    : block :=
  let '(besti, bestj, bestsize) := m in
  match fuel with
  | O => m
  | S fuel' =>
      if (besti + bestsize <? ahi)%nat && (bestj + bestsize <? bhi)%nat
         && bool_decide (a !! (besti + bestsize)%nat = b !! (bestj + bestsize)%nat)
      then extend_forth a b ahi bhi fuel' (besti, bestj, S bestsize)
      else m
  end.

Definition find_longest_match (a b : list ascii) (alo ahi blo bhi : nat) : block :=
  let best := outer b blo bhi alo (Text.slice alo ahi a)
                    (List.repeat 0%nat (length b)) (alo, blo, 0%nat) in
  let best := extend_back a b alo blo (length a) best in
  extend_forth a b ahi bhi (length a) best.

(** The sum of the sizes of [get_matching_blocks()]: the queue of
    sub-ranges is followed recursively. *)
Fixpoint matches (a b : list ascii) (fuel : nat) (alo ahi blo bhi : nat) : nat :=
  match fuel with
  | O => 0%nat
  | S fuel' =>
      let '(i, j, k) := find_longest_match a b alo ahi blo bhi in
      if (k =? 0)%nat then 0%nat
      else
        (k
         + (if (alo <? i) && (blo <? j) then matches a b fuel' alo i blo j else 0)
         + (if (i + k <? ahi) && (j + k <? bhi)
            then matches a b fuel' (i + k) ahi (j + k) bhi else 0))%nat
  end.

(** [_calculate_ratio(matches, len(a) + len(b))]: the quotient is kept
    exact; the float of CPython is its rounding, and is the same number
    when the quotient is 0 or 1. *)
Definition calculate_ratio (m length : nat) : Q :=
  match length with
  | O => 1%Q
  | S _ => ((2 * Z.of_nat m) # (Pos.of_nat length))%Q
  end.

Definition ratio (a b : string) : Q :=
  let a := chars a in
  let b := chars b in
  calculate_ratio (matches a b (S (length a)) 0 (length a) 0 (length b))
                  (length a + length b).

End SequenceMatcher.

(** ** fuzzy_match_schools *)

Definition Qlt_bool (x y : Q) : bool := negb (Qle_bool y x).

(** Truth value of [best_match] in [if best_match:]: [None] and the empty
    string are false. *)
Definition truthy (v : option string) : bool :=
  match v with
  | Some (String _ _) => true
  | _ => false
  end.

Section Fuzzy.

(** [ratio a b] is the float returned by
    [SequenceMatcher(None, a, b).ratio()], read as the rational number it
    denotes; the comparisons of the script are comparisons of these. *)
Variable ratio : string -> string -> Q.

(** Body of the inner loop over [excel_names], on the pair
    [(best_match, best_score)]. *)
Definition best_step (threshold : Q) (csv_name : string)
    (best : option string * Q) (excel_name : string) : option string * Q :=
  let score := ratio csv_name excel_name in
  if Qlt_bool (snd best) score && Qle_bool threshold score
  then (Some excel_name, score)
  else best.

Definition best_candidate (threshold : Q) (csv_name : string)
    (excel_names : list string) : option string * Q :=
  fold_left (best_step threshold csv_name) excel_names (None, 0%Q).

(** Body of the outer loop over [csv_names], on [matches]. *)
Definition match_step (excel_names : list string) (threshold : Q)
    (matches : gmap string string) (csv_name : string) : gmap string string :=
  let best_match := fst (best_candidate threshold csv_name excel_names) in
  match best_match with
  | Some b => if truthy best_match then <[csv_name := b]> matches else matches
  | None => matches
  end.

Definition fuzzy_match_schools (csv_names excel_names : list string)
    (threshold : Q) : gmap string string :=
  fold_left (match_step excel_names threshold) csv_names ∅.

End Fuzzy.

(** The default [threshold=0.8]. *)
Definition default_threshold : Q := (8 # 10)%Q.

(** ** The resolver: query_ollama and get_name_mapping *)

(** The prompt of one request: the f-string interpolates
    [json.dumps(known_names)] and [json.dumps(chunk)] into a fixed text, so
    a prompt is given by these two lists. *)
Record prompt : Type := Prompt { prompt_known : list string; prompt_chunk : list string }.

(** Computations that send requests and may raise: the state is the log of
    the prompts sent so far. *)
Definition M (A : Type) : Type := list prompt -> result A * list prompt.

#[global] Instance M_ret : MRet M := fun A a log => (Ok a, log).
#[global] Instance M_bind : MBind M := fun A B f m log =>
  match m log with
  | (Ok a, log') => f a log'
  | (Raise e, log') => (Raise e, log')
  end.

Definition raise {A} (e : exn) : M A := fun log => (Raise e, log).

(** [for x in xs: acc = body(acc, x)] *)
Fixpoint for_each {A S} (xs : list A) (body : S -> A -> M S) (acc : S) : M S :=
  match xs with
  | [] => mret acc
  | x :: xs' => acc' ← body acc x; for_each xs' body acc'
  end.

(** [range(0, stop, step)] for a positive [step]: its length is
    [(stop + step - 1) // step]. *)
Definition range_step (stop step : nat) : list nat :=
  (fun k => k * step)%nat <$> seq 0 ((stop + step - 1) / step).

Section Resolver.

Variable json_loads : string -> option dict.

(** The text-generation service: [ollama n p] is the ['response'] field of
    the answer to the request number [n] (from 0) carrying prompt [p];
    [None] when [requests.post] or the decoding of the answer raises. *)
Variable ollama : nat -> prompt -> option string.

Definition query_ollama (p : prompt) : M string := fun log =>
  (match ollama (length log) p with
   | Some response => Ok response
   | None => Raise RequestError
   end, log ++ [p]).

(** The [try]/[except Exception] block of one batch: the mapping after it. *)
Definition absorb_response (mapping : dict) (response : string) : dict :=
  match extract_json_dict json_loads response with
  | Ok dict_str =>
      match json_loads dict_str with
      | Some chunk_mapping => dict_update mapping chunk_mapping
      | None => mapping
      end
  | Raise _ => mapping
  end.

(** Body of the loop [for i in range(0, len(csv_names), batch_size)]. *)
Definition batch (known_names csv_names : list string) (batch_size : nat)
    (mapping : dict) (i : nat) : M dict :=
  let chunk := Text.slice i (i + batch_size) csv_names in
  response ← query_ollama (Prompt known_names chunk);
  mret (absorb_response mapping response).

Definition get_name_mapping (known_names csv_names : list string)
    (batch_size : Z) : M dict :=
  if (batch_size =? 0)%Z then
    raise (ValueError "range() arg 3 must not be zero")
  else if (batch_size <? 0)%Z then mret ∅
  else
    let bs := Z.to_nat batch_size in
    for_each (range_step (length csv_names) bs)
             (batch known_names csv_names bs) ∅.

End Resolver.

(** The default [batch_size=15]. *)
Definition default_batch_size : Z := 15.

(** ** A reference [json.loads]

    [json.loads] is a parameter of the development.  [Json.loads] is the
    instance used to run it on concrete replies: it reads a JSON object
    whose member values are strings, with the two-character string
    escapes, numbers (with [NaN] and the infinities, as Python reads
    them), [true], [false] or [null]; on every other text, and so on an
    object that holds an array, an object or a [\u] escape, it answers
    [None]. *)

Module Json.

Definition is_ws (c : ascii) : bool :=
  bool_decide (c = " "%char) || bool_decide (c = "009"%char)
  || bool_decide (c = "010"%char) || bool_decide (c = "013"%char).

Fixpoint skip_ws (s : list ascii) : list ascii :=
  match s with
  | c :: s' => if is_ws c then skip_ws s' else s
  | [] => []
  end.

(** The character denoted by the escape [\e]. *)
Definition unescape (e : ascii) : option ascii :=
  if bool_decide (e = Text.dquote) then Some Text.dquote
  else if bool_decide (e = "\"%char) then Some "\"%char
  else if bool_decide (e = "/"%char) then Some "/"%char
  else if bool_decide (e = "b"%char) then Some "008"%char
  else if bool_decide (e = "f"%char) then Some "012"%char
  else if bool_decide (e = "n"%char) then Some "010"%char
  else if bool_decide (e = "r"%char) then Some "013"%char
  else if bool_decide (e = "t"%char) then Some "009"%char
  else None.

(** A string literal after its opening quote: the decoded string and the
    text after the closing quote. *)
Fixpoint string_body (s acc : list ascii) : option (list ascii * list ascii) :=
  match s with
  | [] => None
  | c :: s' =>
      if bool_decide (c = Text.dquote) then Some (rev acc, s')
      else if bool_decide (c = "\"%char) then
        match s' with
        | e :: s'' =>
            match unescape e with
            | Some d => string_body s'' (d :: acc)
            | None => None
            end
        | [] => None
        end
      else if (Text.code c <? 32)%N then None
      else string_body s' (c :: acc)
  end.

(** The longest run of digits at the head of a text, and what follows it. *)
Fixpoint digits (s : list ascii) : list ascii * list ascii :=
  match s with
  | c :: s' =>
      if Text.between 48 57 c then let '(ds, rest) := digits s' in (c :: ds, rest)
      else ([], s)
  | [] => ([], [])
  end.

(** A number at the head of a text: an optional minus sign, a zero or
    digits that do not start with a zero, then an optional fraction and an
    optional exponent; the text of the number, and what follows it. *)
Definition number (s : list ascii) : option (list ascii * list ascii) :=
  let '(sign, s) :=
    match s with
    | c :: s' => if bool_decide (c = "-"%char) then ([c], s') else ([], s)
    | [] => ([], s)
    end in
  match digits s with
  | ([], _) => None
  | (d :: ds, rest) =>
      let '(int, rest) :=
        if bool_decide (d = "0"%char) then ([d], ds ++ rest) else (d :: ds, rest) in
      let '(frac, rest) :=
        match rest with
        | c :: r =>
            if bool_decide (c = "."%char) then
              match digits r with
              | ([], _) => ([], rest)
              | (fs, r') => (c :: fs, r')
              end
            else ([], rest)
        | [] => ([], rest)
        end in
      let '(exp, rest) :=
        match rest with
        | c :: r =>
            if bool_decide (c = "e"%char) || bool_decide (c = "E"%char) then
              let '(sg, r1) :=
                match r with
                | g :: r1 =>
                    if bool_decide (g = "+"%char) || bool_decide (g = "-"%char)
                    then ([g], r1) else ([], r)
                | [] => ([], r)
                end in
              match digits r1 with
              | ([], _) => ([], rest)
              | (es, r2) => (c :: sg ++ es, r2)
              end
            else ([], rest)
        | [] => ([], rest)
        end in
      Some (sign ++ int ++ frac ++ exp, rest)
  end.

Definition value (s : list ascii) : option (pyval * list ascii) :=
  match s with
  | c :: s' =>
      if bool_decide (c = Text.dquote) then
        '(v, rest) ← string_body s' []; Some (PyStr (str v), rest)
      else if Text.starts_with (chars "null") s then Some (PyNone, drop 4 s)
      else if Text.starts_with (chars "true") s then Some (PyOther "true", drop 4 s)
      else if Text.starts_with (chars "false") s then Some (PyOther "false", drop 5 s)
      else
        match number s with
        | Some (v, rest) => Some (PyOther (str v), rest)
        | None =>
            if Text.starts_with (chars "NaN") s then Some (PyNone, drop 3 s)
            else if Text.starts_with (chars "Infinity") s then
              Some (PyOther "Infinity", drop 8 s)
            else if Text.starts_with (chars "-Infinity") s then
              Some (PyOther "-Infinity", drop 9 s)
            else None
        end
  | [] => None
  end.

(** The members of an object from the opening quote of a key on; a
    repeated key keeps its last value. *)
Fixpoint members (fuel : nat) (s : list ascii) (acc : dict) : option dict :=
  match fuel, s with
  | S fuel', c :: s' =>
      if bool_decide (c = Text.dquote) then
        '(k, rest) ← string_body s' [];
        match skip_ws rest with
        | colon :: rest =>
            if bool_decide (colon = ":"%char) then
              '(v, rest) ← value (skip_ws rest);
              let acc := <[str k := v]> acc in
              match skip_ws rest with
              | d :: rest =>
                  if bool_decide (d = ","%char) then members fuel' (skip_ws rest) acc
                  else if bool_decide (d = "}"%char) then
                    match skip_ws rest with [] => Some acc | _ :: _ => None end
                  else None
              | [] => None
              end
            else None
        | [] => None
        end
      else None
  | _, _ => None
  end.

Definition loads (text : string) : option dict :=
  match skip_ws (chars text) with
  | c :: s =>
      if bool_decide (c = "{"%char) then
        match skip_ws s with
        | d :: rest =>
            if bool_decide (d = "}"%char) then
              match skip_ws rest with [] => Some ∅ | _ :: _ => None end
            else members (String.length text) (d :: rest) ∅
        | [] => None
        end
      else None
  | [] => None
  end.

End Json.

(** ** process_dataset *)

(** A row of the CSV table: the [School_Name] cell ([None] when it is
    missing, or a number in a column of numbers) and the other columns, by
    name.  The names
    of the other columns are taken to differ from the names of the columns
    that the script and the merge add; "School Name", the name column of
    the roster, may be among them. *)
Record csv_row : Type := CsvRow {
  csv_School_Name : option string;
  csv_columns : list (string * string) }.

(** A row of the Excel roster: the [School Name] cell and the other columns. *)
Record excel_row : Type := ExcelRow {
  excel_School_Name : option string;
  excel_columns : list (string * string) }.

(** The rows with the derived columns [Original_School_Name] and
    [Normalized_School_Name]; a CSV row later receives
    [Mapped_Normalized_Name]. *)
Record csv_rec : Type := CsvRec {
  csv_source : csv_row;
  csv_Original_School_Name : option string;
  csv_Normalized_School_Name : string;
  Mapped_Normalized_Name : pyval }.

Record excel_rec : Type := ExcelRec {
  excel_source : excel_row;
  excel_Original_School_Name : option string;
  excel_Normalized_School_Name : string }.

(** A row of the merged table: the CSV side and, when a roster row was
    joined to it, the Excel side; [None] is a row whose Excel-sourced
    columns are all null. *)
Definition merged_row : Type := csv_rec * option excel_rec.

Definition test_schools : list string :=
  [ "Test Site Elementary School"; "Test Site Elementary";
    "test site elementary school" ].

(** [Series.isin(values)] for one cell; a missing cell is in no list of strings. *)
Definition isin (cell : option string) (values : list string) : bool :=
  match cell with
  | Some v => bool_decide (v ∈ values)
  | None => false
  end.

(** [csv_df[~csv_df['School_Name'].isin(test_schools)]] *)
Definition drop_test_schools (csv_df : list csv_row) : list csv_row :=
  filter (fun r => negb (isin (csv_School_Name r) test_schools)) csv_df.

(** [Series.str]: pandas refuses the accessor, with [AttributeError], on a
    column that has rows and no string among them (a column of missing
    values or of numbers); a column without rows is accepted.  The column
    is the one that was read: the rows that [process_dataset] has dropped
    before it strips the names do not change what pandas takes the column
    for. *)
Definition str_accessor (column : list (option string)) : result unit :=
  match column with
  | [] => Ok tt
  | _ :: _ =>
      if existsb (fun cell => match cell with Some _ => true | None => false end) column
      then Ok tt
      else Raise AttributeError
  end.

(** [Series.str.strip()] for one cell of an accepted column: a cell that
    holds no string becomes a missing value. *)
Definition str_strip (cell : option string) : option string :=
  (fun v => str (Text.strip (chars v))) <$> cell.

(** [sorted(series.unique())] *)
Definition sorted_unique (names : list string) : list string :=
  merge_sort String.le (remove_dups names).

(** [{name: cached_mapping[name] for name in csv_names if name in cached_mapping}] *)
Definition restrict_cache (cached_mapping : dict) (csv_names : list string) : dict :=
  fold_left (fun acc name =>
               match cached_mapping !! name with
               | Some v => <[name := v]> acc
               | None => acc
               end) csv_names ∅.

(** The [if cached_mapping:] statement: [None] and the empty dict are false. *)
Definition cached_matches_of (cached_mapping : option dict) (csv_names : list string)
  : dict :=
  match cached_mapping with
  | Some cm => if bool_decide (cm = ∅) then ∅ else restrict_cache cm csv_names
  | None => ∅
  end.

(** [{**cached_matches, **fuzzy_matches, **ollama_mapping}] *)
Definition combine_mappings (cached_matches : dict) (fuzzy_matches : gmap string string)
    (ollama_mapping : dict) : dict :=
  dict_update (dict_update (dict_update ∅ cached_matches) (PyStr <$> fuzzy_matches))
              ollama_mapping.

(** [Series.map(final_mapping)] for one cell: [None] is the NaN of a name
    that is no key. *)
Definition map_cell (final_mapping : dict) (name : string) : option pyval :=
  final_mapping !! name.

(** [Series.fillna(other)] for one cell: NaN and [None] are missing, every
    other value is kept. *)
Definition fillna (cell : option pyval) (other : string) : pyval :=
  match cell with
  | Some PyNone | None => PyStr other
  | Some v => v
  end.

(** The columns [Original_School_Name] and [Normalized_School_Name] of a row. *)
Definition csv_original (r : csv_row) : option string := str_strip (csv_School_Name r).
Definition csv_normalized (r : csv_row) : string := normalize_school_name (csv_original r).
Definition excel_original (r : excel_row) : option string := str_strip (excel_School_Name r).
Definition excel_normalized (r : excel_row) : string :=
  normalize_school_name (excel_original r).

(** The CSV row once [Mapped_Normalized_Name] is set: [map] then [fillna]. *)
Definition prepare_csv (final_mapping : dict) (r : csv_row) : csv_rec :=
  CsvRec r (csv_original r) (csv_normalized r)
         (fillna (map_cell final_mapping (csv_normalized r)) (csv_normalized r)).

Definition prepare_excel (r : excel_row) : excel_rec :=
  ExcelRec r (excel_original r) (excel_normalized r).

(** [left.merge(right, how='left', left_on='Mapped_Normalized_Name',
    right_on='Normalized_School_Name')], when pandas carries it out: the
    left rows in their order, each joined to every right row with the same
    key, or kept once with null right columns when there is none.  The
    keys on the right are strings, so that a left key that is no string
    equals none of them. *)
Definition hits (right : list excel_rec) (l : csv_rec) : list excel_rec :=
  filter (fun r => bool_decide
            (Mapped_Normalized_Name l = PyStr (excel_Normalized_School_Name r))) right.

Definition join_row (right : list excel_rec) (l : csv_rec) : list merged_row :=
  match hits right l with
  | [] => [(l, None)]
  | (_ :: _) as found => (fun r => (l, Some r)) <$> found
  end.

Definition merge_left (left : list csv_rec) (right : list excel_rec) : list merged_row :=
  flat_map (join_row right) left.

(** A value is a string. *)
Definition is_str (v : pyval) : bool :=
  match v with
  | PyStr _ => true
  | _ => false
  end.

(** The join key that a normalized name gets: [map] then [fillna]. *)
Definition mapped_name (final_mapping : dict) (name : string) : pyval :=
  fillna (map_cell final_mapping name) name.

(** Both tables have rows, and the join keys on the left are all strings:
    the merge of two columns of strings, which pandas always carries out. *)
Definition plain_keys (final_mapping : dict) (csv_names excel_names : list string) : bool :=
  forallb (fun name => is_str (mapped_name final_mapping name)) csv_names
  && negb (bool_decide (csv_names = [])) && negb (bool_decide (excel_names = [])).

(** The table has a column of the given name among its other columns. *)
Definition has_column (name : string) (csv_df : list csv_row) : bool :=
  existsb (fun r => bool_decide (name ∈ (csv_columns r).*1)) csv_df.

(** The statements after [merged.to_csv(output_path)]: the merged table has
    no column "School Name" when the CSV table has one of its own, for the
    merge then renames both, and [merged['School Name']] raises. *)
Definition report (csv_df : list csv_row) : result unit :=
  if has_column "School Name" csv_df then Raise (KeyError "School Name") else Ok tt.

(** A result or an exception, without a request. *)
Definition lift {A} (r : result A) : M A := fun log => (r, log).

Section Pipeline.

Variable ratio : string -> string -> Q.
Variable json_loads : string -> option dict.
Variable ollama : nat -> prompt -> option string.

(** When a join key on the left is no string (the resolver is free to
    answer with a number or a list), or one of the tables is without rows,
    whether pandas carries the merge out or raises depends on the dtypes
    it has inferred for the key columns and on the values being hashable:
    [merge_refuses final_mapping csv_names excel_names] is the exception it
    raises then, if any.  It is a parameter, and is consulted in these
    cases only.  When the merge is carried out, its result is the left
    join in every case. *)
Variable merge_refuses : dict -> list string -> list string -> option exn.

Definition merge_check (final_mapping : dict) (csv_names excel_names : list string)
  : result unit :=
  if plain_keys final_mapping csv_names excel_names then Ok tt
  else match merge_refuses final_mapping csv_names excel_names with
       | Some e => Raise e
       | None => Ok tt
       end.

(** [sorted(df['Normalized_School_Name'].unique())] on either side. *)
Definition csv_names_of (csv_df : list csv_row) : list string :=
  sorted_unique (csv_normalized <$> csv_df).

Definition excel_names_of (excel_df : list excel_row) : list string :=
  sorted_unique (excel_normalized <$> excel_df).

(** The three tiers, up to [final_mapping]. *)
Definition resolve_names (csv_names excel_names : list string)
    (cached_mapping : option dict) : M dict :=
  let cached_matches := cached_matches_of cached_mapping csv_names in
  let unmatched_names :=
    filter (fun name => bool_decide (cached_matches !! name = None)) csv_names in
  let fuzzy_matches :=
    fuzzy_match_schools ratio unmatched_names excel_names default_threshold in
  let still_unmatched :=
    filter (fun name => bool_decide (fuzzy_matches !! name = None)) unmatched_names in
  ollama_mapping ←
    match still_unmatched with
    | [] => mret ∅
    | _ :: _ =>
        get_name_mapping json_loads ollama excel_names still_unmatched
                         default_batch_size
    end;
  mret (combine_mappings cached_matches fuzzy_matches ollama_mapping).

(** [process_dataset] up to and including [merged.to_csv(output_path)]:
    the tables are the ones read from [csv_path] and [excel_path]; the
    result is [(merged, final_mapping)], and [merged] is the table saved.
    Writing the file is taken to succeed. *)
Definition merge_dataset (csv_df : list csv_row) (excel_df : list excel_row)
    (cached_mapping : option dict) : M (list merged_row * dict) :=
  let retained := drop_test_schools csv_df in
  _ ← lift (str_accessor (csv_School_Name <$> csv_df));
  _ ← lift (str_accessor (excel_School_Name <$> excel_df));
  let excel_recs := prepare_excel <$> excel_df in
  let csv_names := csv_names_of retained in
  let excel_names := excel_names_of excel_df in
  final_mapping ← resolve_names csv_names excel_names cached_mapping;
  _ ← lift (merge_check final_mapping csv_names excel_names);
  let csv_recs := prepare_csv final_mapping <$> retained in
  mret (merge_left csv_recs excel_recs, final_mapping).

(** [process_dataset]: the merge, then the report. *)
Definition process_dataset (csv_df : list csv_row) (excel_df : list excel_row)
    (cached_mapping : option dict) : M (list merged_row * dict) :=
  out ← merge_dataset csv_df excel_df cached_mapping;
  _ ← lift (report csv_df);
  mret out.

End Pipeline.

(** ** main

    [main] runs [process_dataset] on the two data sets in turn.  The files
    it reads are parameters; writing a file is taken to succeed, so that a
    merged file is saved exactly when [process_dataset] gets as far as its
    [to_csv], whether or not the report that follows raises. *)

(** One entry of [datasets]. *)
Record dataset : Type := Dataset { csv_path : string; output_path : string }.

Definition breakfast : dataset :=
  Dataset "../../preprocess/html-processing/preprocessed-data/Breakfast production/breakfast_combined.csv"
          "../../preprocess/html-processing/preprocessed-data/Breakfast production/Breakfast_cost.csv".

Definition lunch : dataset :=
  Dataset "../../preprocess/html-processing/preprocessed-data/Lunch production/lunch_combined.csv"
          "../../preprocess/html-processing/preprocessed-data/Lunch production/Lunch_cost.csv".

(** [datasets.items()], in the order of the dict literal. *)
Definition datasets : list (string * dataset) :=
  [ ("breakfast", breakfast); ("lunch", lunch) ].

Definition excel_path : string := "../../Data/FairfaxCounty/FCPS Schools list.xlsx".

(** The variables of the loop of [main]: [all_mappings], [cached_mapping]
    (here [cache]), and the merged tables that [process_dataset] has saved,
    each with its [output_path]. *)
Record driver : Type := Driver {
  all_mappings : gmap string dict;
  cache : option dict;
  saved : list (string * list merged_row) }.

(** What [main] leaves behind: the dict it returns, the merged files, and
    the content of [combined_name_mapping.json] when it is written. *)
Record outcome : Type := Outcome {
  returned : gmap string dict;
  merged_files : list (string * list merged_row);
  combined_mapping : option (gmap string dict) }.

Section Driver.

Variable ratio : string -> string -> Q.
Variable json_loads : string -> option dict.
Variable ollama : nat -> prompt -> option string.
Variable merge_refuses : dict -> list string -> list string -> option exn.

(** The tables on disk: [read_csv path] is [None] when the file does not
    exist or [pd.read_csv] raises on it, [read_excel path] is [None] when
    [pd.read_excel] raises. *)
Variable read_csv : string -> option (list csv_row).
Variable read_excel : string -> option (list excel_row).

(** The file that a call of [process_dataset] leaves at [output_path]: the
    merged table, when the call gets as far as [to_csv]. *)
Definition written (path : string)
    (run : result (list merged_row * dict) * list prompt)
  : list (string * list merged_row) :=
  match fst run with
  | Ok (merged, _) => [(path, merged)]
  | Raise _ => []
  end.

(** Body of the loop over [datasets.items()]: a missing file is skipped by
    [continue], and whatever [process_dataset] raises is caught by
    [except Exception], which leaves [all_mappings] and [cached_mapping]
    as they are; a file that [process_dataset] has saved before it raises
    stays. *)
Definition dataset_step (st : driver) (entry : string * dataset) (log : list prompt)
  : driver * list prompt :=
  let dataset_name := fst entry in
  let config := snd entry in
  match read_csv (csv_path config) with
  | None => (st, log)
  | Some csv_df =>
      match read_excel excel_path with
      | None => (st, log)
      | Some excel_df =>
          let files :=
            saved st ++ written (output_path config)
                          (merge_dataset ratio json_loads ollama merge_refuses
                                         csv_df excel_df (cache st) log) in
          match process_dataset ratio json_loads ollama merge_refuses
                                csv_df excel_df (cache st) log with
          | (Ok (merged_df, mapping), log') =>
              (Driver (<[dataset_name := mapping]> (all_mappings st)) (Some mapping) files,
               log')
          | (Raise _, log') => (Driver (all_mappings st) (cache st) files, log')
          end
      end
  end.

Fixpoint run_datasets (entries : list (string * dataset)) (st : driver)
    (log : list prompt) : driver * list prompt :=
  match entries with
  | [] => (st, log)
  | entry :: entries' =>
      let (st', log') := dataset_step st entry log in
      run_datasets entries' st' log'
  end.

Definition main (log : list prompt) : outcome * list prompt :=
  let (st, log') := run_datasets datasets (Driver ∅ None []) log in
  (Outcome (all_mappings st) (saved st)
           (if bool_decide (all_mappings st = ∅) then None else Some (all_mappings st)),
   log').

End Driver.

(** ** add_adress_to_schools.py

    The script loads a dict of schools, each with a record that holds an
    ["address"], asks the geocoding service for every address in turn,
    updates the record with what [enrich_address] returns, and saves the
    dict once the loop is over.  The pause between two requests is left
    out. *)

Module Geocoder.

(** What stops the script: a missing key of a school's record, or a request
    whose sending or reading raises. *)
Inductive failure : Type :=
  | KeyError (key : string)
  | RequestFailure.

Section Service.

(** The JSON values of the address file, with the string values among them. *)
Variable value : Type.
Variable JStr : string -> value.

(** One entry of [data["results"]], as far as [enrich_address] reads it:
    [components.get("postcode")], [geometry["lat"]] and [geometry["lng"]]. *)
Record place : Type := Place {
  postcode : option value;
  lat : value;
  lng : value }.

(** The geocoding service: [opencage n q] is [data["results"]] of the answer
    to the request number [n] (from 0) for the query [q]; [None] when
    [requests.get], [response.json()] or one of the subscripts raises. *)
Variable opencage : nat -> value -> option (list place).

(** Computations that send requests and may raise: the state is the log of
    the queries sent so far. *)
Definition G (A : Type) : Type := list value -> (failure + A) * list value.

Definition enrich_address (address : value) : G (gmap string value) := fun log =>
  (match opencage (length log) address with
   | Some (result :: _) =>
       inr ({[ "zipcode" := default (JStr "") (postcode result);
               "latitude" := lat result;
               "longitude" := lng result ]} : gmap string value)
   | Some [] =>
       inr ({[ "zipcode" := JStr ""; "latitude" := JStr "";
               "longitude" := JStr "" ]} : gmap string value)
   | None => inl RequestFailure
   end, log ++ [address]).

(** [info.update(enriched)] *)
Definition update (d other : gmap string value) : gmap string value := other ∪ d.

(** The loop [for school, info in schools.items()], on the items in the
    order of the file; the result is the dict that is saved, and nothing is
    saved when the loop raises. *)
Fixpoint enrich_schools (schools : list (string * gmap string value))
  : G (list (string * gmap string value)) :=
  fun log =>
  match schools with
  | [] => (inr [], log)
  | (school, info) :: schools' =>
      match info !! "address" with
      | None => (inl (KeyError "address"), log)
      | Some address =>
          match enrich_address address log with
          | (inr enriched, log') =>
              match enrich_schools schools' log' with
              | (inr rest, log'') => (inr ((school, update info enriched) :: rest), log'')
              | (inl e, log'') => (inl e, log'')
              end
          | (inl e, log') => (inl e, log')
          end
      end
  end.

End Service.
End Geocoder.

(** * Notions used to state the properties *)

(** A key is free of patterns when none of the replacement patterns occurs in it. *)
Definition pattern_free (key : string) : bool :=
  forallb (fun '(old, _) => negb (Text.contains (chars old) (chars key))) replacements.

(** Whitespace is collapsed in [s]: every whitespace character is a space
    and no two of them are adjacent ([in_run]: one precedes [s]). *)
Fixpoint collapsed_from (in_run : bool) (s : list ascii) : bool :=
  match s with
  | [] => true
  | c :: s' =>
      if Text.isspace c
      then bool_decide (c = " "%char) && negb in_run && collapsed_from true s'
      else collapsed_from false s'
  end.

(** The scanner of [extract_json_dict] read as a machine that never stops:
    the loop variables after one more character.  A quote that is not
    escaped toggles the string state, a backslash that is not escaped
    arms the escape, and a brace moves the depth only outside a string. *)
Definition advance (st : scan) (c : ascii) : scan :=
  let quote := bool_decide (c = Text.dquote) && negb (escape st) in
  let backslash := bool_decide (c = "\"%char) && negb (escape st) in
  let counted := negb quote && negb backslash && negb (in_str st) in
  Scan (if counted && bool_decide (c = "{"%char) then brace_count st + 1
        else if counted && bool_decide (c = "}"%char) then brace_count st - 1
        else brace_count st)
       (if quote then negb (in_str st) else in_str st)
       backslash.

Definition scan_from (st : scan) (s : list ascii) : scan := fold_left advance s st.

(** The brace depth after reading [s] from the initial state. *)
Definition depth_after (s : list ascii) : Z := brace_count (scan_from scan_init s).

(** [obj] ends where the depth first returns to zero: the depth is zero
    after [obj] and after none of its shorter non-empty prefixes. *)
Definition first_balanced (obj : list ascii) : Prop :=
  obj <> [] /\ depth_after obj = 0%Z
  /\ forall n, (0 < n < length obj)%nat -> depth_after (take n obj) <> 0%Z.

(** The length of the longest common run of characters of [b2j] that ends
    a reversed prefix [x] of [a] and a reversed prefix [y] of [b]. *)
Fixpoint common_run (b x y : list ascii) : nat :=
  match x, y with
  | c :: x', d :: y' =>
      if bool_decide (d = c) && negb (SequenceMatcher.popular b c)
      then S (common_run b x' y')
      else 0%nat
  | _, _ => 0%nat
  end.

(** The row [newj2len] over the columns [bs], where [y] is the reversed
    part of [b] before them. *)
Fixpoint run_row (b x y bs : list ascii) : list nat :=
  match bs with
  | [] => []
  | d :: bs' => common_run b x (d :: y) :: run_row b x (d :: y) bs'
  end.

(** The best block after the columns of one row, from column [j] on. *)
Fixpoint scan_best (i j : nat) (row : list nat) (best : SequenceMatcher.block)
  : SequenceMatcher.block :=
  match row with
  | [] => best
  | k :: row' =>
      scan_best i (S j) row'
        (if (snd best <? k)%nat then (i + 1 - k, j + 1 - k, k)%nat else best)
  end.

(** The best block after the rows [as_], where [x] is the reversed part of
    [a] before them. *)
Fixpoint scan_rows (b : list ascii) (i : nat) (x as_ : list ascii)
    (best : SequenceMatcher.block) : SequenceMatcher.block :=
  match as_ with
  | [] => best
  | ai :: as' =>
      scan_rows b (S i) (ai :: x) as'
        (scan_best i 0 (run_row b (ai :: x) [] b) best)
  end.

(** The longest run of characters of [b2j] that ends at index [t] of [a],
    matched against itself. *)
Definition diag_run (a : list ascii) (t : nat) : nat :=
  common_run a (rev (take (S t) a)) (rev (take (S t) a)).

(** [a] and [b] have no character in common. *)
Definition disjoint (a b : list ascii) : Prop := forall c, c ∈ a -> ~ (c ∈ b).

Definition share_no_char (a b : string) : bool :=
  forallb (fun c => negb (existsb (fun d => bool_decide (d = c)) (chars b))) (chars a).

(** Among [excel_names], [b] is the first name that attains the maximum
    of the ratio against [s]. *)
Definition first_maximum (ratio : string -> string -> Q) (excel_names : list string)
    (s b : string) : Prop :=
  exists i : nat,
    excel_names !! i = Some b
    /\ (forall (j : nat) b', excel_names !! j = Some b' -> (ratio s b' <= ratio s b)%Q)
    /\ (forall (j : nat) b', (j < i)%nat -> excel_names !! j = Some b' ->
          (ratio s b' < ratio s b)%Q).

(** The matching rule in the words of the specification: [s] is a source
    name, [b] the first target name of maximal ratio, and that ratio is
    at least the threshold. *)
Definition specified_match (ratio : string -> string -> Q)
    (csv_names excel_names : list string) (threshold : Q) (s b : string) : Prop :=
  s ∈ csv_names /\ first_maximum ratio excel_names s b
  /\ (threshold <= ratio s b)%Q.

(** The pair [(best_match, best_score)] after the loop over a list of names. *)
Definition loop_invariant (ratio : string -> string -> Q) (threshold : Q)
    (s : string) (names : list string) (best : option string * Q) : Prop :=
  match fst best with
  | Some b =>
      snd best = ratio s b /\ first_maximum ratio names s b
      /\ (threshold <= ratio s b)%Q /\ (0 < ratio s b)%Q
  | None =>
      snd best = 0%Q
      /\ forall b', b' ∈ names -> ~ ((threshold <= ratio s b')%Q /\ (0 < ratio s b')%Q)
  end.

(** The entry that one pass of the outer loop writes for [s], if any. *)
Definition choice (ratio : string -> string -> Q) (threshold : Q)
    (excel_names : list string) (s : string) : option string :=
  match fst (best_candidate ratio threshold s excel_names) with
  | Some b => if truthy (Some b) then Some b else None
  | None => None
  end.

(** A reply read the way one batch reads it: the dict of the extracted
    object, or [None] when the extraction or the parsing fails. *)
Definition parse_response (json_loads : string -> option dict) (response : string)
  : option dict :=
  match extract_json_dict json_loads response with
  | Ok dict_str => json_loads dict_str
  | Raise _ => None
  end.

(** The chunks [csv_names[i:i + batch_size]] for [i] in
    [range(0, len(csv_names), batch_size)]. *)
Definition chunks_of {A} (batch_size : nat) (names : list A) : list (list A) :=
  (fun i => Text.slice i (i + batch_size) names) <$> range_step (length names) batch_size.

(** A JSON string literal without escapes: [s] between double quotes. *)
Definition quoted (s : string) : string :=
  String Text.dquote (s +:+ String Text.dquote "").

(** An object whose only value holds a closing brace, and a reply that
    embeds it in prose. *)
Definition brace_object : string := "{" +:+ quoted "a" +:+ ": " +:+ quoted "}" +:+ "}".

Definition brace_reply : string :=
  "Sure! Here is the mapping: " +:+ brace_object +:+ " I hope this } helps".

(** A resolver for the examples: the first request is answered with an
    object that also names a key of a later chunk, every later one with
    prose. *)
Definition talkative_ollama (n : nat) (p : prompt) : option string :=
  match n with
  | O => Some ("Here you go: {" +:+ quoted "a" +:+ ": " +:+ quoted "x" +:+ ", "
               +:+ quoted "b" +:+ ": " +:+ quoted "y" +:+ "}")
  | S _ => Some "I could not match these names."
  end.

(** A resolver that answers every request with a [null] for the name "zzz". *)
Definition null_ollama (n : nat) (p : prompt) : option string :=
  Some ("{" +:+ quoted "zzz" +:+ ": null}").

(** Tables for the examples: the end-to-end scenario of the
    specification, and a roster in which two rows share a normalized name. *)
Definition scenario_csv : list csv_row :=
  [ CsvRow (Some "Test Site Elementary School") [("Meals", "0")];
    CsvRow (Some "Aldrin Elementary School") [("Meals", "120")] ].

Definition scenario_excel : list excel_row :=
  [ ExcelRow (Some "Aldrin ES") [("Region", "1")] ].


Definition unknown_csv : list csv_row := [ CsvRow (Some "zzz") [] ].

(** An ASCII letter. *)
Definition is_letter (c : ascii) : bool := Text.between 65 90 c || Text.between 97 122 c.

(** What [normalize_school_name] does to the text that follows a first word. *)
Definition normalize_tail (tail : list ascii) : list ascii :=
  Text.rstrip (Text.collapse_whitespace (Text.remove_punctuation
    (apply_replacements replacements (Text.rstrip (Text.lower tail))))).

(** The position, among the requests that would carry [prompts] from request
    number [n] on, of the first one that the service fails to answer. *)
Fixpoint first_failure (ollama : nat -> prompt -> option string) (n : nat)
    (prompts : list prompt) : option nat :=
  match prompts with
  | [] => None
  | p :: prompts' =>
      match ollama n p with
      | None => Some 0%nat
      | Some _ => S <$> first_failure ollama (S n) prompts'
      end
  end.

(** The names [still_unmatched] that [process_dataset] hands to the resolver. *)
Definition still_unmatched_of (ratio : string -> string -> Q)
    (csv_names excel_names : list string) (cached_mapping : option dict) : list string :=
  let cached_matches := cached_matches_of cached_mapping csv_names in
  let unmatched_names :=
    filter (fun name => bool_decide (cached_matches !! name = None)) csv_names in
  let fuzzy_matches :=
    fuzzy_match_schools ratio unmatched_names excel_names default_threshold in
  filter (fun name => bool_decide (fuzzy_matches !! name = None)) unmatched_names.

(** A disk for the examples: the source table of the scenario under the
    breakfast path, a table of one unknown name under the lunch path, and
    the roster of the scenario. *)
Definition example_read_csv (path : string) : option (list csv_row) :=
  if bool_decide (path = csv_path breakfast) then Some scenario_csv
  else if bool_decide (path = csv_path lunch) then Some unknown_csv
  else None.

Definition example_read_excel (path : string) : option (list excel_row) :=
  if bool_decide (path = excel_path) then Some scenario_excel else None.

(** The same disk with the two source tables swapped. *)
Definition swapped_read_csv (path : string) : option (list csv_row) :=
  if bool_decide (path = csv_path breakfast) then Some unknown_csv
  else if bool_decide (path = csv_path lunch) then Some scenario_csv
  else None.

(** A service that is down for the first request only. *)
Definition waking_ollama (n : nat) (p : prompt) : option string :=
  match n with
  | O => None
  | S _ => null_ollama n p
  end.

(** The three fields that the geocoder sets. *)
Definition geocoded_fields : list string := ["zipcode"; "latitude"; "longitude"].

(** Address records for the examples, over string values, and a geocoding
    service that finds no place. *)
Definition example_schools : list (string * gmap string string) :=
  [ ("Aldrin ES", {[ "address" := "1 Main Street"; "zipcode" := "00000" ]});
    ("Oakton HS", {[ "address" := "2 Main Street" ]}) ].

Definition silent_opencage (n : nat) (q : string)
  : option (list (Geocoder.place string)) := Some [].

Definition example_enriched : list (string * gmap string string) :=
  match fst (Geocoder.enrich_schools string id silent_opencage example_schools []) with
  | inr out => out
  | inl _ => []
  end.

(** A name column in which pandas finds a string. *)
Definition has_text (column : list (option string)) : Prop :=
  exists s, Some s ∈ column.

(** A mapping whose values are strings or null. *)
Definition is_text (v : pyval) : bool :=
  match v with
  | PyOther _ => false
  | _ => true
  end.

Definition textual (d : dict) : Prop :=
  forall k v, d !! k = Some v -> is_text v = true.

(** Inputs on which [process_dataset] runs to its end: a row that is
    retained and a row of the roster hold a name, the CSV table has no
    column "School Name", the values of the cached mapping are strings or
    null, and the service answers every request with a text whose object,
    if there is one, has values that are strings or null. *)
Record regular_inputs (json_loads : string -> option dict)
    (ollama : nat -> prompt -> option string)
    (csv_df : list csv_row) (excel_df : list excel_row)
    (cached_mapping : option dict) : Prop := RegularInputs {
  source_names_are_text : has_text (csv_School_Name <$> drop_test_schools csv_df);
  roster_names_are_text : has_text (excel_School_Name <$> excel_df);
  no_roster_column : has_column "School Name" csv_df = false;
  cache_is_textual : forall cm, cached_mapping = Some cm -> textual cm;
  service_answers : forall n p, is_Some (ollama n p);
  replies_are_textual :
    forall n p r d,
      ollama n p = Some r -> parse_response json_loads r = Some d -> textual d }.

(** A resolver that answers every request with the number 5 for the name
    "zzz", a source table whose names are all missing, and one that has a
    column "School Name" of its own. *)
Definition number_ollama (n : nat) (p : prompt) : option string :=
  Some ("{" +:+ quoted "zzz" +:+ ": 5}").

Definition nameless_csv : list csv_row :=
  [ CsvRow None [("Meals", "3")]; CsvRow None [("Meals", "4")] ].

Definition labelled_csv : list csv_row :=
  [ CsvRow (Some "Aldrin Elementary School") [("School Name", "Aldrin")] ].

(** The accessor [.str] is granted on the column. *)
Definition accepted (column : list (option string)) : bool :=
  match str_accessor column with
  | Ok _ => true
  | Raise _ => false
  end.

(** Two behaviours of pandas for the examples: a merge that is always
    carried out, and one that is refused whenever pandas has a say. *)
Definition never_refuses (final_mapping : dict) (csv_names excel_names : list string)
  : option exn := None.

Definition always_refuses (final_mapping : dict) (csv_names excel_names : list string)
  : option exn :=
  Some (ValueError "You are trying to merge on int64 and object columns").

(** * Properties *)

(** ** The normalizer *)

(** C7. [normalize_school_name] answers the empty string on a missing
    value, and the three ordering vectors of the specification hold:
    "Washington Elementary School" gives "washington es", "Lincoln Middle
    School" gives "lincoln ms", "Central High School" gives "central hs". *)
Theorem normalize_missing_and_ordering_vectors :
  normalize_school_name None = ""
  /\ normalize_school_name (Some "Washington Elementary School") = "washington es"
  /\ normalize_school_name (Some "Lincoln Middle School") = "lincoln ms"
  /\ normalize_school_name (Some "Central High School") = "central hs".
Proof. repeat split; vm_compute; reflexivity. Qed.

Example normalize_aldrin :
  normalize_school_name (Some "Aldrin Elementary School") = "aldrin es".
Proof. vm_compute. reflexivity. Qed.

Example normalize_punctuation :
  normalize_school_name (Some "  St. John's   High School ") = "st johns hs".
Proof. vm_compute. reflexivity. Qed.

Module TextFacts.
Import Text.

Lemma lower_char_fixed c : lower_char (lower_char c) = lower_char c.
Proof.
  destruct c as [[] [] [] [] [] [] [] []]; vm_compute; reflexivity.
Qed.

(** *** Stripping *)

Lemma lstrip_suffix s : exists ws, s = ws ++ lstrip s /\ Forall (fun c => isspace c = true) ws.
Proof.
  induction s as [|c s IH]; simpl.
  - exists []. split; [reflexivity | constructor].
  - destruct (isspace c) eqn:Hc.
    + destruct IH as (ws & Hs & Hws). exists (c :: ws). split.
      * simpl. congruence.
      * constructor; assumption.
    + exists []. split; [reflexivity | constructor].
Qed.

Lemma lstrip_head s : lstrip s = s <-> (forall c, head s = Some c -> isspace c = false).
Proof.
  destruct s as [|c s]; simpl.
  - split; [intros _ c; discriminate | reflexivity].
  - destruct (isspace c) eqn:Hc.
    + split.
      * intros Heq. exfalso.
        destruct (lstrip_suffix s) as (ws & Hs & _).
        assert (Hlen : length (lstrip s) = S (length s)) by (rewrite Heq; reflexivity).
        apply (f_equal length) in Hs. rewrite length_app in Hs. lia.
      * intros H. specialize (H c eq_refl). congruence.
    + split; [intros _ d [= <-]; assumption | reflexivity].
Qed.

Lemma lstrip_idem s : lstrip (lstrip s) = lstrip s.
Proof.
  induction s as [|c s IH]; simpl; [reflexivity|].
  destruct (isspace c) eqn:Hc; [assumption|]. simpl. rewrite Hc. reflexivity.
Qed.

Lemma rstrip_prefix s : exists ws, s = rstrip s ++ ws /\ Forall (fun c => isspace c = true) ws.
Proof.
  unfold rstrip. destruct (lstrip_suffix (rev s)) as (ws & Hs & Hws).
  exists (rev ws). split.
  - rewrite <- rev_app_distr, <- Hs, rev_involutive. reflexivity.
  - apply Forall_rev. assumption.
Qed.

Lemma rstrip_idem s : rstrip (rstrip s) = rstrip s.
Proof. unfold rstrip. rewrite rev_involutive, lstrip_idem. reflexivity. Qed.

Lemma rstrip_nil_or_head s :
  rstrip s = [] \/ head (rstrip s) = head s.
Proof.
  destruct (rstrip_prefix s) as (ws & Hs & _).
  destruct (rstrip s) as [|c r] eqn:Hr; [left; reflexivity|right].
  rewrite Hs. reflexivity.
Qed.

Lemma strip_idem s : strip (strip s) = strip s.
Proof.
  unfold strip.
  assert (Hl : lstrip (rstrip (lstrip s)) = rstrip (lstrip s)).
  { apply lstrip_head. intros c Hc.
    destruct (rstrip_nil_or_head (lstrip s)) as [Hnil | Hhd].
    - rewrite Hnil in Hc. discriminate.
    - rewrite Hhd in Hc. revert c Hc. apply lstrip_head, lstrip_idem. }
  rewrite Hl. apply rstrip_idem.
Qed.

Lemma strip_Forall (P : ascii -> Prop) s : Forall P s -> Forall P (strip s).
Proof.
  intros H. unfold strip.
  destruct (lstrip_suffix s) as (ws & Hs & _).
  destruct (rstrip_prefix (lstrip s)) as (ws' & Hs' & _).
  rewrite Hs, Hs' in H.
  apply Forall_app in H as [_ H]. apply Forall_app in H as [H _]. exact H.
Qed.

End TextFacts.

Module NormalizeFacts.
Import Text TextFacts.

(** *** Replacement *)

Lemma replace_from_absent old new s :
  contains old s = false -> replace_from old new 0 s = s.
Proof.
  induction s as [|c s IH]; intros H; [reflexivity|].
  cbn [contains] in H. apply orb_false_iff in H as [Hp Hs].
  cbn [replace_from]. rewrite Hp, IH by assumption. reflexivity.
Qed.

Lemma replace_absent old new s : contains old s = false -> replace old new s = s.
Proof.
  destruct old as [|a old]; intros H.
  - destruct s; discriminate H.
  - apply replace_from_absent. assumption.
Qed.

Lemma replace_from_Forall (P : ascii -> Prop) old new skip s :
  Forall P new -> Forall P s -> Forall P (replace_from old new skip s).
Proof.
  intros Hnew Hs. revert skip.
  induction Hs as [|c s Hc Hs IH]; intros skip; cbn [replace_from]; [constructor|].
  destruct skip; [|apply IH].
  destruct (starts_with old (c :: s)).
  - apply Forall_app. split; [assumption | apply IH].
  - constructor; [assumption | apply IH].
Qed.

Lemma replace_Forall (P : ascii -> Prop) old new s :
  Forall P new -> Forall P s -> Forall P (replace old new s).
Proof.
  intros Hnew Hs. destruct old; [|apply replace_from_Forall; assumption].
  cbn [replace]. apply Forall_app. split; [assumption|].
  induction Hs; simpl; [constructor|].
  constructor; [assumption|]. apply Forall_app. split; assumption.
Qed.

Lemma apply_replacements_Forall (P : ascii -> Prop) reps s :
  Forall (fun r => Forall P (chars (snd r))) reps ->
  Forall P s -> Forall P (apply_replacements reps s).
Proof.
  unfold apply_replacements. intros Hreps. revert s.
  induction Hreps as [|[old new] reps Hr Hreps IH]; intros s Hs; simpl; [assumption|].
  apply IH, replace_Forall; assumption.
Qed.

Lemma apply_replacements_absent reps s :
  forallb (fun '(old, _) => negb (contains (chars old) s)) reps = true ->
  apply_replacements reps s = s.
Proof.
  unfold apply_replacements.
  induction reps as [|[old new] reps IH]; simpl; intros H; [reflexivity|].
  apply andb_true_iff in H as [Hold Hreps]. apply negb_true_iff in Hold.
  rewrite replace_absent by assumption. apply IH, Hreps.
Qed.

(** *** Punctuation *)

Lemma remove_punctuation_Forall (P : ascii -> Prop) s :
  Forall P s -> Forall P (remove_punctuation s).
Proof.
  unfold remove_punctuation. rewrite !list.Forall_forall. intros H c Hc.
  apply list_elem_of_filter in Hc as [_ Hc]. apply H, Hc.
Qed.

Lemma remove_punctuation_kept s :
  Forall (fun c => isword c || isspace c = true) (remove_punctuation s).
Proof.
  unfold remove_punctuation. apply list.Forall_forall. intros c Hc.
  apply list_elem_of_filter in Hc as [Hc _]. apply Is_true_true. exact Hc.
Qed.

Lemma remove_punctuation_id s :
  Forall (fun c => isword c || isspace c = true) s -> remove_punctuation s = s.
Proof.
  unfold remove_punctuation. induction 1 as [|c s Hc Hs IH]; [reflexivity|].
  rewrite filter_cons_True by (apply Is_true_true; exact Hc). rewrite IH. reflexivity.
Qed.

(** *** Whitespace *)

Lemma collapse_from_Forall (P : ascii -> Prop) r s :
  P " "%char -> Forall P s -> Forall P (collapse_from r s).
Proof.
  intros Hsp Hs. revert r.
  induction Hs as [|c s Hc Hs IH]; intros r; cbn [collapse_from]; [constructor|].
  destruct (isspace c); [destruct r|]; try constructor; auto.
Qed.

Lemma collapse_from_collapsed r s : collapsed_from r (collapse_from r s) = true.
Proof.
  revert r. induction s as [|c s IH]; intros r; cbn [collapse_from]; [reflexivity|].
  destruct (isspace c) eqn:Hc.
  - destruct r; [apply IH|]. cbn [collapsed_from].
    change (isspace " "%char) with true. cbn. apply IH.
  - cbn [collapsed_from]. rewrite Hc. apply IH.
Qed.

Lemma collapse_from_id r s : collapsed_from r s = true -> collapse_from r s = s.
Proof.
  revert r. induction s as [|c s IH]; intros r H; [reflexivity|].
  cbn [collapsed_from] in H. cbn [collapse_from].
  destruct (isspace c).
  - apply andb_true_iff in H as [H Hs]. apply andb_true_iff in H as [Hc Hr].
    apply bool_decide_eq_true in Hc. apply negb_true_iff in Hr. subst c r.
    rewrite IH by assumption. reflexivity.
  - rewrite IH by assumption. reflexivity.
Qed.

Lemma collapsed_from_weaken r s : collapsed_from r s = true -> collapsed_from false s = true.
Proof.
  destruct s as [|c s]; [reflexivity|]. cbn [collapsed_from].
  destruct (isspace c); [|tauto].
  intros H. apply andb_true_iff in H as [H Hs]. apply andb_true_iff in H as [Hc Hr].
  rewrite Hc, Hs. reflexivity.
Qed.

Lemma collapsed_from_app_l r s t : collapsed_from r (s ++ t) = true -> collapsed_from r s = true.
Proof.
  revert r. induction s as [|c s IH]; intros r; [reflexivity|].
  cbn [app collapsed_from]. destruct (isspace c); [|apply IH].
  intros H. apply andb_true_iff in H as [H Hs]. rewrite H. apply (IH _ Hs).
Qed.

Lemma collapsed_from_app_r r s t :
  collapsed_from r (s ++ t) = true -> collapsed_from false t = true.
Proof.
  revert r. induction s as [|c s IH]; intros r; [apply collapsed_from_weaken|].
  cbn [app collapsed_from]. destruct (isspace c); [|apply IH].
  intros H. apply andb_true_iff in H as [_ Hs]. apply (IH _ Hs).
Qed.

Lemma strip_collapsed s : collapsed_from false s = true -> collapsed_from false (strip s) = true.
Proof.
  intros H. unfold strip.
  destruct (lstrip_suffix s) as (ws & Hs & _).
  destruct (rstrip_prefix (lstrip s)) as (ws' & Hs' & _).
  rewrite Hs in H. apply collapsed_from_app_r in H.
  rewrite Hs' in H. apply collapsed_from_app_l in H. exact H.
Qed.

(** *** The normal form *)

Lemma lower_fixed_id s : Forall (fun c => lower_char c = c) s -> lower s = s.
Proof. unfold lower. induction 1 as [|c s Hc Hs IH]; simpl; congruence. Qed.

Lemma replacements_lower :
  Forall (fun r : string * string => Forall (fun c => lower_char c = c) (chars (snd r)))
         replacements.
Proof. repeat constructor. Qed.

(** Every result of [normalize_chars] is lower-case, made of word
    characters and single spaces, and stripped. *)
Lemma normalize_chars_shape s :
  let y := normalize_chars s in
  Forall (fun c => lower_char c = c) y
  /\ Forall (fun c => isword c || isspace c = true) y
  /\ collapsed_from false y = true
  /\ strip y = y.
Proof.
  unfold normalize_chars. repeat split.
  - apply strip_Forall, collapse_from_Forall; [reflexivity|].
    apply remove_punctuation_Forall, apply_replacements_Forall; [apply replacements_lower|].
    apply strip_Forall. unfold lower. apply Forall_map, list.Forall_forall.
    intros c _. apply lower_char_fixed.
  - apply strip_Forall, collapse_from_Forall; [reflexivity|].
    apply remove_punctuation_kept.
  - apply strip_collapsed, collapse_from_collapsed.
  - apply strip_idem.
Qed.

(** A string of that shape in which no pattern occurs is left unchanged. *)
Lemma normalize_chars_fixed y :
  Forall (fun c => lower_char c = c) y ->
  Forall (fun c => isword c || isspace c = true) y ->
  collapsed_from false y = true ->
  strip y = y ->
  forallb (fun '(old, _) => negb (contains (chars old) y)) replacements = true ->
  normalize_chars y = y.
Proof.
  intros Hlow Hword Hcol Hstrip Hfree. unfold normalize_chars.
  rewrite (lower_fixed_id _ Hlow), Hstrip.
  rewrite (apply_replacements_absent _ _ Hfree).
  rewrite (remove_punctuation_id _ Hword).
  unfold collapse_whitespace. rewrite (collapse_from_id _ _ Hcol). exact Hstrip.
Qed.

End NormalizeFacts.

(** C1, as the code has it.  Normalizing a key again returns it unchanged
    whenever none of the replacement patterns occurs in the key; the
    function is a pure function of its argument. *)
Theorem normalize_idempotent_on_pattern_free (x : option string) :
  pattern_free (normalize_school_name x) = true ->
  normalize_school_name (Some (normalize_school_name x)) = normalize_school_name x.
Proof.
  destruct x as [s|]; [|reflexivity].
  unfold pattern_free. cbn [normalize_school_name].
  rewrite list_ascii_of_string_of_list_ascii. intros Hfree.
  destruct (NormalizeFacts.normalize_chars_shape (chars s)) as (Hlow & Hword & Hcol & Hstrip).
  rewrite NormalizeFacts.normalize_chars_fixed; auto.
Qed.

Lemma normalize_idempotent_on_pattern_free_witness :
  pattern_free (normalize_school_name (Some "Aldrin Elementary School")) = true
  /\ normalize_school_name (Some (normalize_school_name (Some "Aldrin Elementary School")))
     = normalize_school_name (Some "Aldrin Elementary School").
Proof.
  split; [vm_compute; reflexivity|].
  apply (normalize_idempotent_on_pattern_free (Some "Aldrin Elementary School")).
  vm_compute. reflexivity.
Defined.

(** C1 as stated fails: punctuation is removed after the replacements, so
    a pattern can appear in the key that the first pass did not see. *)
Lemma normalize_not_idempotent :
  ~ (forall x : option string,
       normalize_school_name (Some (normalize_school_name x)) = normalize_school_name x).
Proof.
  intros H. specialize (H (Some "Key Center (School)")).
  vm_compute in H. discriminate H.
Qed.

(** ** The mapping combiner *)

Lemma lookup_dict_update (d other : dict) (k : string) :
  dict_update d other !! k =
  match other !! k with
  | Some v => Some v
  | None => d !! k
  end.
Proof.
  unfold dict_update. rewrite lookup_union.
  destruct (other !! k), (d !! k); reflexivity.
Qed.

(** ** The brace scanner *)

Module ScanFacts.

Lemma find_None c s : Text.find c s = None <-> ~ (c ∈ s).
Proof.
  induction s as [|d s IH]; simpl.
  - split; [intros _; apply not_elem_of_nil | reflexivity].
  - case_bool_decide as Hd.
    + split; [discriminate|]. intros H. exfalso. apply H. subst. apply elem_of_cons. left. reflexivity.
    + rewrite not_elem_of_cons. destruct (Text.find c s); simpl.
      * split; [discriminate|]. intros [_ H]. apply IH in H. discriminate.
      * split; [|reflexivity]. intros _. split; [congruence | apply IH; reflexivity].
Qed.

Lemma find_Some c s n :
  Text.find c s = Some n <->
  exists pre rest, s = pre ++ c :: rest /\ ~ (c ∈ pre) /\ length pre = n.
Proof.
  revert n. induction s as [|d s IH]; intros n; simpl.
  - split; [discriminate|]. intros (pre & rest & H & _). destruct pre; discriminate.
  - case_bool_decide as Hd.
    + subst d. split.
      * intros [= <-]. exists [], s. repeat split. apply not_elem_of_nil.
      * intros (pre & rest & H & Hpre & Hlen). destruct pre as [|p pre].
        -- simpl in Hlen. congruence.
        -- exfalso. injection H as -> _. apply Hpre. apply elem_of_cons. left. reflexivity.
    + split.
      * destruct (Text.find c s) as [m|] eqn:Hf; simpl; [|discriminate].
        intros [= <-]. destruct (proj1 (IH m) eq_refl) as (pre & rest & -> & Hpre & Hlen).
        exists (d :: pre), rest. repeat split; [|simpl; congruence].
        rewrite not_elem_of_cons. split; [congruence | assumption].
      * intros (pre & rest & H & Hpre & Hlen). destruct pre as [|p pre].
        -- injection H as -> _. congruence.
        -- injection H as -> ->. rewrite not_elem_of_cons in Hpre.
           destruct Hpre as [_ Hpre]. simpl in Hlen. subst n.
           rewrite (proj2 (IH (length pre))); [reflexivity|].
           exists pre, rest. repeat split. assumption.
Qed.

(** One iteration against one move of the machine, while the depth is positive. *)
Lemma scan_step_advance st c :
  (0 < brace_count st)%Z ->
  match scan_step st c with
  | Return => brace_count (advance st c) = 0%Z
  | Continue st' => st' = advance st c /\ (0 < brace_count st')%Z
  end.
Proof.
  destruct st as [bc ins esc]. unfold scan_step, advance. cbn [brace_count in_str escape].
  intros Hpos.
  destruct (bool_decide (c = Text.dquote)) eqn:Hq; cbn [andb negb].
  - apply bool_decide_eq_true in Hq. subst c.
    destruct esc; destruct ins; cbn; split; (reflexivity || assumption).
  - destruct (bool_decide (c = "\"%char)) eqn:Hb; cbn [andb negb].
    + apply bool_decide_eq_true in Hb. subst c.
      destruct esc; destruct ins; cbn; split; (reflexivity || assumption).
    + destruct ins; cbn [negb andb].
      * destruct esc; cbn; split; (reflexivity || assumption).
      * destruct (bool_decide (c = "{"%char)) eqn:Ho.
        { destruct esc; cbn; split; (reflexivity || lia). }
        destruct (bool_decide (c = "}"%char)) eqn:Hc.
        { destruct (Z.eqb_spec (bc - 1) 0) as [Hz|Hz].
          - destruct esc; cbn; exact Hz.
          - destruct esc; cbn; split; (reflexivity || lia). }
        destruct esc; cbn; split; (reflexivity || assumption).
Qed.

(** A brace read inside a string literal leaves the depth as it is. *)
Lemma advance_in_string st c :
  in_str st = true -> (c = "{"%char \/ c = "}"%char) ->
  brace_count (advance st c) = brace_count st.
Proof.
  intros Hin Hc. unfold advance. rewrite Hin. cbn [negb].
  rewrite !andb_false_r. reflexivity.
Qed.

Lemma scan_loop_spec rest : forall st i,
  (0 < brace_count st)%Z ->
  match scan_loop st i rest with
  | Some j =>
      exists k, j = (i + k)%nat /\ (k < length rest)%nat
        /\ brace_count (scan_from st (take (S k) rest)) = 0%Z
        /\ forall n, (n <= k)%nat -> (0 < brace_count (scan_from st (take n rest)))%Z
  | None => forall n, (0 < brace_count (scan_from st (take n rest)))%Z
  end.
Proof.
  induction rest as [|c rest IH]; intros st i Hpos; cbn [scan_loop].
  - intros n. rewrite take_nil. exact Hpos.
  - pose proof (scan_step_advance st c Hpos) as Hstep.
    destruct (scan_step st c) as [st'|].
    + destruct Hstep as [-> Hpos'].
      specialize (IH (advance st c) (S i) Hpos').
      destruct (scan_loop (advance st c) (S i) rest) as [j|].
      * destruct IH as (k & -> & Hk & Hzero & Hbefore).
        exists (S k). repeat split; [lia | simpl; lia | exact Hzero |].
        intros [|n] Hn; [exact Hpos|]. apply Hbefore. lia.
      * intros [|n]; [exact Hpos | apply IH].
    + exists 0%nat. repeat split; [lia | simpl; lia | exact Hstep |].
      intros n Hn. replace n with 0%nat by lia. exact Hpos.
Qed.

Lemma first_balanced_unique obj1 post1 obj2 post2 :
  first_balanced obj1 -> first_balanced obj2 ->
  obj1 ++ post1 = obj2 ++ post2 -> obj1 = obj2.
Proof.
  intros (Hne1 & Hz1 & Hb1) (Hne2 & Hz2 & Hb2) Heq.
  assert (Hlen : forall o1 p1 o2 p2 : list ascii, o1 <> [] -> o1 ++ p1 = o2 ++ p2 ->
            (length o1 < length o2)%nat -> take (length o1) o2 = o1 /\
            (0 < length o1 < length o2)%nat).
  { intros o1 p1 o2 p2 Hne H Hlt. split.
    - apply (f_equal (take (length o1))) in H.
      rewrite take_app_length in H. rewrite take_app_le in H; [congruence | lia].
    - destruct o1; [congruence | simpl in *; lia]. }
  destruct (lt_eq_lt_dec (length obj1) (length obj2)) as [[Hlt|Heql]|Hgt].
  - destruct (Hlen _ _ _ _ Hne1 Heq Hlt) as [Ht Hr].
    exfalso. apply (Hb2 _ Hr). rewrite Ht. exact Hz1.
  - apply (f_equal (take (length obj1))) in Heq.
    rewrite take_app_length in Heq. rewrite Heql, take_app_length in Heq. exact Heq.
  - destruct (Hlen _ _ _ _ Hne2 (eq_sym Heq) Hgt) as [Ht Hr].
    exfalso. apply (Hb1 _ Hr). rewrite Ht. exact Hz2.
Qed.

Section WithLoads.

Variable json_loads : string -> option dict.

(** What [extract_json_dict] does on a text whose first opening brace
    follows [pre]. *)
Lemma extract_from_first_brace text pre rest :
  chars text = pre ++ "{"%char :: rest -> "{"%char ∉ pre ->
  ((forall n, (0 < n)%nat -> depth_after (take n ("{"%char :: rest)) <> 0%Z)
   /\ extract_json_dict json_loads text = Raise (ValueError "No valid JSON found."))
  \/ (exists obj post, "{"%char :: rest = obj ++ post /\ first_balanced obj
      /\ extract_json_dict json_loads text =
         match json_loads (str obj) with
         | Some _ => Ok (str obj)
         | None => Raise JSONDecodeError
         end).
Proof.
  intros Htext Hpre. unfold extract_json_dict.
  assert (Hfind : Text.find "{"%char (chars text) = Some (length pre)).
  { apply find_Some. exists pre, rest. auto. }
  rewrite Hfind, Htext, drop_app_length. cbn [scan_loop].
  change (scan_step scan_init "{"%char) with (Continue (Scan 1 false false)). cbn iota.
  assert (Hdepth : forall n, depth_after (take (S n) ("{"%char :: rest))
                    = brace_count (scan_from (Scan 1 false false) (take n rest))).
  { intros n. reflexivity. }
  pose proof (scan_loop_spec rest (Scan 1 false false) (S (length pre)) eq_refl) as Hloop.
  destruct (scan_loop (Scan 1 false false) (S (length pre)) rest) as [j|].
  - right. destruct Hloop as (k & -> & Hk & Hzero & Hbefore).
    assert (Hslice : Text.slice (length pre) (S (length pre) + k + 1)
                       (pre ++ "{"%char :: rest) = "{"%char :: take (S k) rest).
    { unfold Text.slice. rewrite drop_app_length.
      replace (S (length pre) + k + 1 - length pre)%nat with (S (S k)) by lia.
      reflexivity. }
    rewrite Hslice.
    exists ("{"%char :: take (S k) rest), (drop (S k) rest). repeat split.
    + rewrite <- (take_drop (S k) rest) at 1. reflexivity.
    + discriminate.
    + exact Hzero.
    + intros n Hn. rewrite length_cons, length_take in Hn.
      destruct n as [|n]; [lia|].
      replace (take (S n) ("{"%char :: take (S k) rest))
        with (take (S n) ("{"%char :: rest)).
      * rewrite Hdepth. specialize (Hbefore n). lia.
      * cbn [take]. f_equal. rewrite take_take. f_equal. lia.
  - left. split; [|reflexivity].
    intros [|n] Hn; [lia|]. rewrite Hdepth. specialize (Hloop n). lia.
Qed.

Lemma first_balanced_prefix_depth obj post :
  first_balanced obj ->
  exists n, (0 < n)%nat /\ depth_after (take n (obj ++ post)) = 0%Z.
Proof.
  intros (Hne & Hz & _). exists (length obj). split.
  - destruct obj; [congruence | simpl; lia].
  - rewrite take_app_length. exact Hz.
Qed.

(** The successful runs of [extract_json_dict]. *)
Lemma extract_ok_iff text s :
  extract_json_dict json_loads text = Ok s <->
  exists pre post,
    chars text = pre ++ chars s ++ post /\ ~ ("{"%char ∈ pre)
    /\ head (chars s) = Some "{"%char /\ first_balanced (chars s)
    /\ is_Some (json_loads s).
Proof.
  split.
  - intros Hok.
    destruct (Text.find "{"%char (chars text)) as [start|] eqn:Hfind.
    2:{ unfold extract_json_dict in Hok. rewrite Hfind in Hok. discriminate. }
    apply find_Some in Hfind as (pre & rest & Htext & Hpre & _).
    destruct (extract_from_first_brace text pre rest Htext Hpre)
      as [[_ Hr] | (obj & post & Hsplit & Hbal & Hr)]; [congruence|].
    rewrite Hr in Hok.
    destruct (json_loads (str obj)) as [d|] eqn:Hloads; [|discriminate].
    injection Hok as <-. rewrite list_ascii_of_string_of_list_ascii.
    exists pre, post. repeat split; try (apply Hbal).
    + rewrite Htext, Hsplit. reflexivity.
    + exact Hpre.
    + destruct obj as [|c obj]; [destruct Hbal; congruence|].
      injection Hsplit as <- _. reflexivity.
    + rewrite Hloads. eexists. reflexivity.
  - intros (pre & post & Htext & Hpre & Hhead & Hbal & Hloads).
    destruct (chars s) as [|c body] eqn:Hs; [discriminate|].
    injection Hhead as ->.
    destruct (extract_from_first_brace text pre (body ++ post) Htext Hpre)
      as [[Hnever _] | (obj & post' & Hsplit & Hbal' & Hr)].
    + exfalso. destruct (first_balanced_prefix_depth _ post Hbal) as (n & Hn & Hz).
      apply (Hnever n Hn). exact Hz.
    + assert (Hobj : obj = "{"%char :: body).
      { apply (first_balanced_unique obj post' ("{"%char :: body) post Hbal' Hbal).
        rewrite <- Hsplit. reflexivity. }
      rewrite Hr, Hobj, <- Hs, string_of_list_ascii_of_string.
      destruct Hloads as [d ->]. reflexivity.
Qed.

End WithLoads.

End ScanFacts.

(** C4. [extract_json_dict] returns [s] exactly when [s] is the part of
    the text that starts at its first opening brace and ends at the
    closing brace that first takes the depth back to zero, and [s] is
    valid JSON; a brace read inside a double-quoted string literal (the
    quote state being tracked character by character, with backslash
    escapes) does not move the depth.  So, for an object embedded in prose
    with a closing brace inside a quoted value, the object alone is
    returned. *)
Theorem extract_json_dict_first_balanced_object (json_loads : string -> option dict) :
  (forall text s,
     extract_json_dict json_loads text = Ok s <->
     exists pre post,
       chars text = pre ++ chars s ++ post /\ ~ ("{"%char ∈ pre)
       /\ head (chars s) = Some "{"%char /\ first_balanced (chars s)
       /\ is_Some (json_loads s))
  /\ (forall st c, in_str st = true -> c = "{"%char \/ c = "}"%char ->
        brace_count (advance st c) = brace_count st)
  /\ (is_Some (json_loads brace_object) ->
      extract_json_dict json_loads
        brace_reply
      = Ok brace_object).
Proof.
  split; [|split].
  - apply ScanFacts.extract_ok_iff.
  - apply ScanFacts.advance_in_string.
  - intros [d Hd].
    assert (Hrun : extract_json_dict json_loads
                     brace_reply
                   = match json_loads brace_object with
                     | Some _ => Ok brace_object
                     | None => Raise JSONDecodeError
                     end) by (vm_compute; reflexivity).
    rewrite Hrun, Hd. reflexivity.
Qed.

Lemma extract_json_dict_first_balanced_object_witness :
  extract_json_dict Json.loads
    brace_reply
  = Ok brace_object.
Proof.
  apply (extract_json_dict_first_balanced_object Json.loads).
  vm_compute. eexists. reflexivity.
Defined.

(** C10. [extract_json_dict] raises exactly when the extraction fails:
    [ValueError] when the text has no opening brace; [ValueError] when the
    depth never returns to zero from the first opening brace on; a JSON
    decoding error when the first balanced part is not valid JSON.  When
    it returns, the result starts at the first opening brace of the text:
    an object that starts at a later brace is never looked at. *)
Theorem extract_json_dict_raises (json_loads : string -> option dict) (text : string) :
  (~ ("{"%char ∈ chars text) ->
     extract_json_dict json_loads text = Raise (ValueError "No opening brace found."))
  /\ (forall pre rest,
        chars text = pre ++ "{"%char :: rest -> ~ ("{"%char ∈ pre) ->
        ((forall n, (0 < n)%nat -> depth_after (take n ("{"%char :: rest)) <> 0%Z) ->
           extract_json_dict json_loads text = Raise (ValueError "No valid JSON found."))
        /\ (forall obj post,
              "{"%char :: rest = obj ++ post -> first_balanced obj ->
              json_loads (str obj) = None ->
              extract_json_dict json_loads text = Raise JSONDecodeError))
  /\ (forall s,
        extract_json_dict json_loads text = Ok s ->
        exists pre post,
          chars text = pre ++ chars s ++ post /\ ~ ("{"%char ∈ pre)
          /\ head (chars s) = Some "{"%char)
  /\ ((exists e, extract_json_dict json_loads text = Raise e) <->
      ~ (exists pre obj post,
           chars text = pre ++ obj ++ post /\ ~ ("{"%char ∈ pre)
           /\ head obj = Some "{"%char /\ first_balanced obj
           /\ is_Some (json_loads (str obj)))).
Proof.
  split; [|split; [|split; [|split]]].
  - intros Hno. apply ScanFacts.find_None in Hno.
    unfold extract_json_dict. rewrite Hno. reflexivity.
  - intros pre rest Htext Hpre. split.
    + intros Hnever.
      destruct (ScanFacts.extract_from_first_brace json_loads text pre rest Htext Hpre)
        as [[_ Hr] | (obj & post & Hsplit & Hbal & _)]; [exact Hr|].
      exfalso.
      destruct (ScanFacts.first_balanced_prefix_depth obj post Hbal) as (n & Hn & Hz).
      apply (Hnever n Hn). rewrite Hsplit. exact Hz.
    + intros obj post Hsplit Hbal Hloads.
      destruct (ScanFacts.extract_from_first_brace json_loads text pre rest Htext Hpre)
        as [[Hnever _] | (obj' & post' & Hsplit' & Hbal' & Hr)].
      * exfalso.
        destruct (ScanFacts.first_balanced_prefix_depth obj post Hbal) as (n & Hn & Hz).
        apply (Hnever n Hn). rewrite Hsplit. exact Hz.
      * assert (Hobj : obj' = obj).
        { apply (ScanFacts.first_balanced_unique obj' post' obj post Hbal' Hbal).
          congruence. }
        rewrite Hr, Hobj, Hloads. reflexivity.
  - intros s Hok. apply ScanFacts.extract_ok_iff in Hok
      as (pre & post & Htext & Hpre & Hhead & _). eauto.
  - intros [e He] (pre & obj & post & Htext & Hpre & Hhead & Hbal & Hloads).
    assert (Hok : extract_json_dict json_loads text = Ok (str obj)).
    { apply ScanFacts.extract_ok_iff. exists pre, post.
      rewrite list_ascii_of_string_of_list_ascii. auto. }
    congruence.
  - intros Hnone. destruct (extract_json_dict json_loads text) as [s|e] eqn:Hr; [|eauto].
    exfalso. apply Hnone. apply ScanFacts.extract_ok_iff in Hr
      as (pre & post & Htext & Hpre & Hhead & Hbal & Hloads).
    exists pre, (chars s), post. rewrite string_of_list_ascii_of_string. auto.
Qed.

(** ** The scorer *)

Module SequenceMatcherFacts.
Import SequenceMatcher.

Lemma inner_spec b bhi i ai x bs : forall y left prev best,
  (length y + length bs = bhi)%nat ->
  left = common_run b x y ->
  prev = run_row b x y bs ->
  inner b 0 bhi i ai (length y) left bs prev best
  = (run_row b (ai :: x) y bs, scan_best i (length y) (run_row b (ai :: x) y bs) best).
Proof.
  induction bs as [|d bs IH]; intros y left prev best Hlen -> ->; [reflexivity|].
  cbn [inner run_row scan_best hd tl].
  assert (Hj : (length y <? bhi)%nat = true) by (apply Nat.ltb_lt; simpl in Hlen; lia).
  rewrite Hj, andb_true_r. cbn [Nat.leb]. rewrite andb_true_r.
  assert (Hk : (if bool_decide (d = ai) && negb (popular b ai)
                then S (common_run b x y) else 0%nat) = common_run b (ai :: x) (d :: y))
    by reflexivity.
  rewrite Hk.
  assert (Hbest : (if bool_decide (d = ai) && negb (popular b ai)
                      && (snd best <? common_run b (ai :: x) (d :: y))%nat
                   then (i + 1 - common_run b (ai :: x) (d :: y),
                         length y + 1 - common_run b (ai :: x) (d :: y),
                         common_run b (ai :: x) (d :: y))%nat
                   else best)
                  = (if (snd best <? common_run b (ai :: x) (d :: y))%nat
                     then (i + 1 - common_run b (ai :: x) (d :: y),
                           length y + 1 - common_run b (ai :: x) (d :: y),
                           common_run b (ai :: x) (d :: y))%nat
                     else best)).
  { rewrite <- Hk.
    destruct (bool_decide (d = ai) && negb (popular b ai)); [reflexivity|].
    cbn [andb]. destruct (snd best <? 0)%nat eqn:H0; [|reflexivity].
    apply Nat.ltb_lt in H0. lia. }
  rewrite Hbest.
  rewrite (IH (d :: y) _ _ _); [reflexivity | simpl in *; lia | reflexivity | reflexivity].
Qed.

Lemma run_row_nil b y bs : run_row b [] y bs = List.repeat 0%nat (length bs).
Proof.
  revert y. induction bs as [|d bs IH]; intros y; [reflexivity|].
  cbn [run_row length List.repeat]. rewrite IH. reflexivity.
Qed.

Lemma outer_spec b as_ : forall i x best,
  outer b 0 (length b) i as_ (run_row b x [] b) best = scan_rows b i x as_ best.
Proof.
  induction as_ as [|ai as_ IH]; intros i x best; [reflexivity|].
  cbn [outer scan_rows].
  pose proof (inner_spec b (length b) i ai x b [] 0%nat (run_row b x [] b) best
                eq_refl) as Hrow.
  cbn [length] in Hrow. rewrite Hrow; [apply IH | destruct x; reflexivity | reflexivity].
Qed.

(** The block found before the two extension loops, on the whole of [a]
    and [b]. *)
Lemma find_longest_match_whole a b :
  find_longest_match a b 0 (length a) 0 (length b)
  = extend_forth a b (length a) (length b) (length a)
      (extend_back a b 0 0 (length a) (scan_rows b 0 [] a (0, 0, 0)%nat)).
Proof.
  unfold find_longest_match, Text.slice.
  rewrite Nat.sub_0_r, drop_0, firstn_all, <- (run_row_nil b [] b), outer_spec.
  reflexivity.
Qed.

(** *** Strings without a common character *)

Lemma run_row_zero b x y bs ai :
  ~ (ai ∈ bs) -> run_row b (ai :: x) y bs = List.repeat 0%nat (length bs).
Proof.
  revert y. induction bs as [|d bs IH]; intros y Hnot; [reflexivity|].
  apply not_elem_of_cons in Hnot as [Hd Hnot].
  cbn [run_row common_run length List.repeat].
  rewrite bool_decide_eq_false_2 by congruence. cbn [andb].
  rewrite IH by exact Hnot. reflexivity.
Qed.

Lemma scan_best_zero i n : forall j best,
  scan_best i j (List.repeat 0%nat n) best = best.
Proof.
  induction n as [|n IH]; intros j best; [reflexivity|].
  cbn [List.repeat scan_best].
  destruct (snd best <? 0)%nat eqn:H0; [apply Nat.ltb_lt in H0; lia|]. apply IH.
Qed.

Lemma scan_rows_disjoint b as_ : forall i x best,
  disjoint as_ b -> scan_rows b i x as_ best = best.
Proof.
  induction as_ as [|ai as_ IH]; intros i x best Hdis; [reflexivity|].
  cbn [scan_rows]. rewrite run_row_zero, scan_best_zero.
  - apply IH. intros c Hc. apply Hdis. apply elem_of_cons. right. exact Hc.
  - apply Hdis. apply elem_of_cons. left. reflexivity.
Qed.

Lemma extend_back_origin a b fuel k : extend_back a b 0 0 fuel (0, 0, k)%nat = (0, 0, k)%nat.
Proof. destruct fuel; reflexivity. Qed.

Lemma find_longest_match_disjoint a b :
  disjoint a b -> find_longest_match a b 0 (length a) 0 (length b) = (0, 0, 0)%nat.
Proof.
  intros Hdis. rewrite find_longest_match_whole, scan_rows_disjoint by exact Hdis.
  rewrite extend_back_origin.
  destruct a as [|a0 a]; [reflexivity|]. destruct b as [|b0 b]; [reflexivity|].
  cbn [extend_forth length]. cbn [Nat.add Nat.ltb Nat.leb andb lookup list_lookup].
  rewrite bool_decide_eq_false_2; [reflexivity|].
  intros [= ->]. apply (Hdis b0); apply elem_of_cons; left; reflexivity.
Qed.

Lemma matches_disjoint a b fuel :
  disjoint a b -> matches a b fuel 0 (length a) 0 (length b) = 0%nat.
Proof.
  intros Hdis. destruct fuel; [reflexivity|]. cbn [matches].
  rewrite find_longest_match_disjoint by exact Hdis. reflexivity.
Qed.

(** *** A string against itself *)

Lemma common_run_le_length b x y : (common_run b x y <= length x)%nat.
Proof.
  revert y. induction x as [|c x IH]; intros [|d y]; cbn [common_run length]; try lia.
  destruct (bool_decide (d = c) && negb (popular b c)); [|lia].
  specialize (IH y). lia.
Qed.

Lemma common_run_le_diag_l b x y : (common_run b x y <= common_run b x x)%nat.
Proof.
  revert y. induction x as [|c x IH]; intros [|d y]; cbn [common_run]; try lia.
  destruct (bool_decide (d = c)) eqn:Hd; cbn [andb]; [|lia].
  rewrite bool_decide_eq_true_2 by reflexivity. cbn [andb].
  destruct (negb (popular b c)); [|lia]. specialize (IH y). lia.
Qed.

Lemma common_run_le_diag_r b x y : (common_run b x y <= common_run b y y)%nat.
Proof.
  revert y. induction x as [|c x IH]; intros [|d y]; cbn [common_run]; try lia.
  destruct (bool_decide (d = c)) eqn:Hd; cbn [andb]; [|lia].
  apply bool_decide_eq_true in Hd. subst d.
  rewrite bool_decide_eq_true_2 by reflexivity. cbn [andb].
  destruct (negb (popular b c)); [|lia]. specialize (IH y). lia.
Qed.

Lemma rev_take_S (a y bs : list ascii) d :
  a = rev y ++ d :: bs -> rev (take (S (length y)) a) = d :: y.
Proof.
  intros ->. replace (S (length y)) with (length (rev y ++ [d])).
  - rewrite (app_assoc (rev y) [d] bs : rev y ++ d :: bs = (rev y ++ [d]) ++ bs).
    rewrite take_app_length, rev_app_distr, rev_involutive. reflexivity.
  - rewrite length_app, length_rev. simpl. lia.
Qed.

Lemma scan_best_diag a i x ai as' :
  a = rev x ++ ai :: as' -> length x = i ->
  forall bs y best,
    a = rev y ++ bs ->
    (exists t k, best = (t, t, k) /\ (t + k <= length a)%nat
       /\ (forall t', (t' < i)%nat -> diag_run a t' <= k)%nat
       /\ ((i < length y)%nat -> diag_run a i <= k)%nat) ->
    exists t k,
      scan_best i (length y) (run_row a (ai :: x) y bs) best = (t, t, k)
      /\ (t + k <= length a)%nat
      /\ (forall t', (t' < i)%nat -> diag_run a t' <= k)%nat
      /\ ((i < length y + length bs)%nat -> diag_run a i <= k)%nat.
Proof.
  intros Ha Hi.
  assert (HX : rev (take (S i) a) = ai :: x) by (subst i; apply (rev_take_S a x as' ai Ha)).
  induction bs as [|d bs IH]; intros y best Hy (t & k & -> & Hfit & Hrows & Hrow).
  - exists t, k. cbn [run_row scan_best length]. rewrite Nat.add_0_r. auto.
  - cbn [run_row scan_best snd].
    pose proof (rev_take_S a y bs d Hy) as HY.
    set (k0 := common_run a (ai :: x) (d :: y)).
    assert (Hy' : a = rev (d :: y) ++ bs).
    { rewrite Hy. cbn [rev]. rewrite <- app_assoc. reflexivity. }
    replace (length y + length (d :: bs))%nat with (length (d :: y) + length bs)%nat
      by (simpl; lia).
    destruct (k <? k0)%nat eqn:Hlt.
    + apply Nat.ltb_lt in Hlt.
      assert (Heq : i = length y).
      { destruct (lt_eq_lt_dec i (length y)) as [[Hl|He]|Hg]; [|exact He|].
        - exfalso. specialize (Hrow Hl). unfold diag_run in Hrow. rewrite HX in Hrow.
          pose proof (common_run_le_diag_l a (ai :: x) (d :: y)). fold k0 in H. lia.
        - exfalso. specialize (Hrows (length y) Hg). unfold diag_run in Hrows.
          rewrite HY in Hrows.
          pose proof (common_run_le_diag_r a (ai :: x) (d :: y)). fold k0 in H. lia. }
      assert (Hsame : d :: y = ai :: x) by (rewrite <- HY, <- HX, Heq; reflexivity).
      apply (IH (d :: y) _ Hy').
      exists (i + 1 - k0)%nat, k0. rewrite <- Heq. repeat split.
      * pose proof (common_run_le_length a (ai :: x) (d :: y)) as Hle. fold k0 in Hle.
        cbn [length] in Hle. rewrite Ha, length_app, length_rev. cbn [length]. lia.
      * intros t' Ht'. specialize (Hrows t' Ht'). lia.
      * intros _. unfold diag_run. rewrite HX. subst k0. rewrite Hsame. lia.
    + apply Nat.ltb_ge in Hlt.
      apply (IH (d :: y) _ Hy').
      exists t, k. repeat split; [exact Hfit | exact Hrows |].
      cbn [length]. intros Hlt'.
      destruct (decide (i = length y)) as [Heq|Hne].
      * unfold diag_run. rewrite HX.
        assert (Hsame : d :: y = ai :: x) by (rewrite <- HY, <- HX, Heq; reflexivity).
        subst k0. rewrite Hsame in Hlt. exact Hlt.
      * apply Hrow. lia.
Qed.

Lemma scan_rows_diag a : forall as_ x best,
  a = rev x ++ as_ ->
  (exists t k, best = (t, t, k) /\ (t + k <= length a)%nat
     /\ (forall t', (t' < length x)%nat -> diag_run a t' <= k)%nat) ->
  exists t k, scan_rows a (length x) x as_ best = (t, t, k) /\ (t + k <= length a)%nat.
Proof.
  induction as_ as [|ai as_ IH]; intros x best Ha (t & k & -> & Hfit & Hrows).
  - exists t, k. auto.
  - cbn [scan_rows].
    destruct (scan_best_diag a (length x) x ai as_ Ha eq_refl a [] (t, t, k))
      as (t1 & k1 & Hscan & Hfit1 & Hrows1 & Hrow1).
    + reflexivity.
    + exists t, k. repeat split; [exact Hfit | exact Hrows |]. cbn [length]. lia.
    + cbn [length] in Hscan. rewrite Hscan.
      apply (IH (ai :: x)).
      * rewrite Ha. cbn [rev]. rewrite <- app_assoc. reflexivity.
      * exists t1, k1. repeat split; [exact Hfit1|].
        cbn [length]. intros t' Ht'.
        destruct (decide (t' = length x)) as [->|Hne]; [|apply Hrows1; lia].
        apply Hrow1. rewrite Ha, length_app, length_rev. cbn [length]. lia.
Qed.

Lemma extend_back_diag a : forall fuel t k,
  (t <= fuel)%nat -> extend_back a a 0 0 fuel (t, t, k) = (0, 0, k + t)%nat.
Proof.
  induction fuel as [|fuel IH]; intros t k Ht.
  - replace t with 0%nat by lia. rewrite Nat.add_0_r. reflexivity.
  - destruct t as [|t]; [rewrite Nat.add_0_r; reflexivity|].
    cbn [extend_back]. rewrite bool_decide_eq_true_2 by reflexivity.
    cbn [Nat.ltb Nat.leb andb]. rewrite Nat.sub_1_r. cbn [Nat.pred].
    rewrite IH by lia. f_equal. lia.
Qed.

Lemma extend_forth_full a : forall fuel k,
  (k <= length a)%nat -> (length a - k <= fuel)%nat ->
  extend_forth a a (length a) (length a) fuel (0, 0, k)%nat = (0, 0, length a).
Proof.
  induction fuel as [|fuel IH]; intros k Hk Hfuel.
  - replace k with (length a) by lia. reflexivity.
  - cbn [extend_forth]. rewrite bool_decide_eq_true_2 by reflexivity.
    rewrite andb_true_r, andb_diag. cbn [Nat.add].
    destruct (Nat.ltb_spec k (length a)) as [Hlt|Hge].
    + apply IH; lia.
    + replace k with (length a) by lia. reflexivity.
Qed.

Lemma find_longest_match_same a :
  find_longest_match a a 0 (length a) 0 (length a) = (0, 0, length a)%nat.
Proof.
  rewrite find_longest_match_whole.
  destruct (scan_rows_diag a a [] (0, 0, 0)%nat eq_refl) as (t & k & Hscan & Hfit).
  - exists 0%nat, 0%nat. repeat split; [lia|]. cbn [length]. intros t' Ht'. lia.
  - cbn [length] in Hscan. rewrite Hscan, extend_back_diag by lia.
    apply extend_forth_full; lia.
Qed.

Lemma matches_same a : matches a a (S (length a)) 0 (length a) 0 (length a) = length a.
Proof.
  cbn [matches]. rewrite find_longest_match_same.
  destruct (Nat.eqb_spec (length a) 0) as [H0|Hpos]; [congruence|].
  cbn [Nat.add]. rewrite !Nat.ltb_irrefl. cbn [andb]. lia.
Qed.

(** *** The ratio *)

Lemma calculate_ratio_all m : (calculate_ratio m (m + m) == 1)%Q.
Proof.
  unfold calculate_ratio. destruct (m + m)%nat as [|n] eqn:Hm; [reflexivity|].
  unfold Qeq. cbn [Qnum Qden].
  rewrite <- Pos.of_nat_succ, Zpos_P_of_succ_nat. lia.
Qed.

Lemma calculate_ratio_none n : (0 < n)%nat -> (calculate_ratio 0 n == 0)%Q.
Proof. intros Hn. unfold calculate_ratio. destruct n; [lia | reflexivity]. Qed.

Lemma ratio_same s : (ratio s s == 1)%Q.
Proof. unfold ratio. rewrite matches_same. apply calculate_ratio_all. Qed.

Lemma ratio_disjoint a b :
  disjoint (chars a) (chars b) -> a <> "" \/ b <> "" -> (ratio a b == 0)%Q.
Proof.
  intros Hdis Hne. unfold ratio. rewrite matches_disjoint by exact Hdis.
  apply calculate_ratio_none.
  destruct a as [|c a]; [|simpl; lia]. destruct b as [|c b]; [|simpl; lia].
  destruct Hne; congruence.
Qed.

Lemma share_no_char_disjoint a b :
  share_no_char a b = true -> disjoint (chars a) (chars b).
Proof.
  unfold share_no_char. rewrite forallb_forall. intros H c Hc Hb.
  apply list_elem_of_In in Hc. specialize (H c Hc). apply negb_true_iff in H.
  assert (Hex : existsb (fun d => bool_decide (d = c)) (chars b) = true).
  { apply existsb_exists. exists c. split; [apply list_elem_of_In, Hb|].
    apply bool_decide_eq_true. reflexivity. }
  congruence.
Qed.

End SequenceMatcherFacts.

(** ** The fuzzy matcher *)

Module FuzzyFacts.
Section WithRatio.

Variable ratio : string -> string -> Q.

Lemma Qlt_bool_iff x y : Qlt_bool x y = true <-> (x < y)%Q.
Proof.
  unfold Qlt_bool. rewrite negb_true_iff. split.
  - intros H. apply Qnot_le_lt. intros Hle. apply Qle_bool_iff in Hle. congruence.
  - intros H. destruct (Qle_bool y x) eqn:Hle; [|reflexivity].
    apply Qle_bool_iff in Hle. exfalso. apply (Qlt_not_le _ _ H Hle).
Qed.

Lemma best_step_invariant threshold s names best b :
  loop_invariant ratio threshold s names best ->
  loop_invariant ratio threshold s (names ++ [b]) (best_step ratio threshold s best b).
Proof.
  destruct best as [[b0|] score]; unfold loop_invariant, best_step; cbn [fst snd].
  - intros (-> & (i & Hi & Hmax & Hfirst) & Ht & Hpos).
    destruct (Qlt_bool (ratio s b0) (ratio s b) && Qle_bool threshold (ratio s b)) eqn:Hc;
      cbn [fst snd].
    + apply andb_true_iff in Hc as [Hlt Hle].
      apply Qlt_bool_iff in Hlt. apply Qle_bool_iff in Hle.
      repeat split; [|exact Hle|lra].
      exists (length names). repeat split.
      * rewrite lookup_app_r, Nat.sub_diag by lia. reflexivity.
      * intros j b' Hj. apply lookup_app_Some in Hj as [Hj | [_ Hj]].
        -- specialize (Hmax j b' Hj). lra.
        -- apply list_lookup_singleton_Some in Hj as [_ <-]. lra.
      * intros j b' Hlt' Hj. rewrite lookup_app_l in Hj by exact Hlt'.
        specialize (Hmax j b' Hj). lra.
    + repeat split; [|exact Ht|exact Hpos].
      exists i. repeat split.
      * rewrite lookup_app_l; [exact Hi|]. apply lookup_lt_Some in Hi. exact Hi.
      * intros j b' Hj. apply lookup_app_Some in Hj as [Hj | [_ Hj]];
          [exact (Hmax j b' Hj)|].
        apply list_lookup_singleton_Some in Hj as [_ <-].
        apply andb_false_iff in Hc as [Hc | Hc].
        -- destruct (Qlt_le_dec (ratio s b0) (ratio s b)) as [Hlt|Hle]; [|exact Hle].
           apply Qlt_bool_iff in Hlt. congruence.
        -- destruct (Qlt_le_dec (ratio s b) threshold) as [Hlt|Hle]; [lra|].
           apply Qle_bool_iff in Hle. congruence.
      * intros j b' Hlt Hj. apply (Hfirst j b' Hlt).
        rewrite lookup_app_l in Hj; [exact Hj|].
        apply lookup_lt_Some in Hi. lia.
  - intros (-> & Hnone).
    destruct (Qlt_bool 0 (ratio s b) && Qle_bool threshold (ratio s b)) eqn:Hc;
      cbn [fst snd].
    + apply andb_true_iff in Hc as [Hlt Hle].
      apply Qlt_bool_iff in Hlt. apply Qle_bool_iff in Hle.
      repeat split; [|exact Hle|exact Hlt].
      exists (length names).
      assert (Hbelow : forall (j : nat) b', names !! j = Some b' ->
                (ratio s b' < ratio s b)%Q).
      { intros j b' Hj. apply list_elem_of_lookup_2 in Hj.
        specialize (Hnone b' Hj).
        destruct (Qlt_le_dec (ratio s b') threshold) as [H1|H1]; [lra|].
        destruct (Qlt_le_dec 0 (ratio s b')) as [H2|H2]; [|lra].
        exfalso. apply Hnone. split; assumption. }
      repeat split.
      * rewrite lookup_app_r, Nat.sub_diag by lia. reflexivity.
      * intros j b' Hj. apply lookup_app_Some in Hj as [Hj | [_ Hj]].
        -- specialize (Hbelow j b' Hj). lra.
        -- apply list_lookup_singleton_Some in Hj as [_ <-]. lra.
      * intros j b' Hlt' Hj. rewrite lookup_app_l in Hj by exact Hlt'.
        exact (Hbelow j b' Hj).
    + split; [reflexivity|].
      intros b' Hb' [H1 H2]. apply elem_of_app in Hb' as [Hb' | Hb'].
      * apply (Hnone b' Hb'). split; assumption.
      * apply list_elem_of_singleton in Hb'. subst b'.
        apply Qle_bool_iff in H1. apply Qlt_bool_iff in H2.
        rewrite H1, H2 in Hc. discriminate.
Qed.

Lemma best_candidate_invariant threshold s names :
  loop_invariant ratio threshold s names (best_candidate ratio threshold s names).
Proof.
  unfold best_candidate.
  induction names as [|b names IH] using rev_ind.
  - split; [reflexivity|]. intros b' Hb'. apply not_elem_of_nil in Hb'. contradiction.
  - rewrite fold_left_app. apply best_step_invariant, IH.
Qed.

Lemma first_maximum_unique names s b1 b2 :
  first_maximum ratio names s b1 -> first_maximum ratio names s b2 -> b1 = b2.
Proof.
  intros (i1 & Hi1 & Hmax1 & Hfirst1) (i2 & Hi2 & Hmax2 & Hfirst2).
  destruct (lt_eq_lt_dec i1 i2) as [[Hlt|Heq]|Hgt].
  - specialize (Hfirst2 i1 b1 Hlt Hi1). specialize (Hmax1 i2 b2 Hi2). lra.
  - subst i2. congruence.
  - specialize (Hfirst1 i2 b2 Hgt Hi2). specialize (Hmax2 i1 b1 Hi1). lra.
Qed.

Lemma match_step_lookup excel_names threshold matches c s :
  match_step ratio excel_names threshold matches c !! s =
  if decide (c = s)
  then match choice ratio threshold excel_names s with
       | Some b => Some b
       | None => matches !! s
       end
  else matches !! s.
Proof.
  unfold match_step, choice. destruct (decide (c = s)) as [->|Hne].
  - destruct (fst (best_candidate ratio threshold s excel_names)) as [b|]; [|reflexivity].
    destruct (truthy (Some b)); [apply lookup_insert_eq | reflexivity].
  - destruct (fst (best_candidate ratio threshold c excel_names)) as [b|]; [|reflexivity].
    destruct (truthy (Some b)); [apply lookup_insert_ne; exact Hne | reflexivity].
Qed.

Lemma fold_match_step_lookup excel_names threshold csv_names : forall matches s,
  fold_left (match_step ratio excel_names threshold) csv_names matches !! s =
  if decide (s ∈ csv_names)
  then match choice ratio threshold excel_names s with
       | Some b => Some b
       | None => matches !! s
       end
  else matches !! s.
Proof.
  induction csv_names as [|c csv_names IH]; intros matches s; cbn [fold_left].
  - destruct (decide (s ∈ [])) as [Hin|_]; [|reflexivity].
    apply not_elem_of_nil in Hin. contradiction.
  - rewrite IH, match_step_lookup.
    destruct (decide (s ∈ csv_names)) as [Hin|Hnin].
    + rewrite (decide_True (P := s ∈ c :: csv_names)) by (apply elem_of_cons; right; exact Hin).
      destruct (choice ratio threshold excel_names s); [reflexivity|].
      destruct (decide (c = s)); reflexivity.
    + destruct (decide (c = s)) as [->|Hne].
      * rewrite (decide_True (P := s ∈ s :: csv_names)) by (apply elem_of_cons; left; reflexivity).
        reflexivity.
      * rewrite (decide_False (P := s ∈ c :: csv_names)); [reflexivity|].
        intros Hin. apply elem_of_cons in Hin as [->|Hin]; [congruence | contradiction].
Qed.

Lemma fuzzy_lookup csv_names excel_names threshold s :
  fuzzy_match_schools ratio csv_names excel_names threshold !! s =
  if decide (s ∈ csv_names) then choice ratio threshold excel_names s else None.
Proof.
  unfold fuzzy_match_schools. rewrite fold_match_step_lookup, lookup_empty.
  destruct (decide (s ∈ csv_names)); [|reflexivity].
  destruct (choice ratio threshold excel_names s); reflexivity.
Qed.

Lemma truthy_Some b : truthy (Some b) = true <-> b <> "".
Proof. destruct b; simpl; split; congruence. Qed.

Lemma choice_Some threshold excel_names s b :
  choice ratio threshold excel_names s = Some b <->
  b <> "" /\ first_maximum ratio excel_names s b
  /\ (threshold <= ratio s b)%Q /\ (0 < ratio s b)%Q.
Proof.
  unfold choice.
  pose proof (best_candidate_invariant threshold s excel_names) as Hinv.
  unfold loop_invariant in Hinv.
  destruct (fst (best_candidate ratio threshold s excel_names)) as [b0|].
  - destruct Hinv as (_ & Hmax & Ht & Hpos). split.
    + destruct (truthy (Some b0)) eqn:Htr; [|discriminate].
      intros [= <-]. apply truthy_Some in Htr. auto.
    + intros (Hb & Hmax' & _).
      rewrite (first_maximum_unique _ _ _ _ Hmax Hmax').
      apply truthy_Some in Hb. rewrite Hb. reflexivity.
  - destruct Hinv as [_ Hnone]. split; [discriminate|].
    intros (_ & (i & Hi & _) & Ht & Hpos). exfalso.
    apply (Hnone b); [|split; assumption]. apply list_elem_of_lookup_2 in Hi. exact Hi.
Qed.

(** An acceptable candidate forces an entry, unless the first maximum is
    the empty string. *)
Lemma choice_exists threshold excel_names s b' :
  b' ∈ excel_names -> (threshold <= ratio s b')%Q -> (0 < ratio s b')%Q ->
  (forall b, first_maximum ratio excel_names s b -> b <> "") ->
  exists b, choice ratio threshold excel_names s = Some b /\ (ratio s b' <= ratio s b)%Q.
Proof.
  intros Hin Ht Hpos Hne.
  pose proof (best_candidate_invariant threshold s excel_names) as Hinv.
  unfold loop_invariant in Hinv.
  destruct (fst (best_candidate ratio threshold s excel_names)) as [b0|] eqn:Hbest.
  - destruct Hinv as (_ & Hmax & Ht0 & Hpos0). exists b0. split.
    + apply choice_Some. auto.
    + destruct Hmax as (i & _ & Hmax & _).
      apply list_elem_of_lookup_1 in Hin as [j Hj]. exact (Hmax j b' Hj).
  - destruct Hinv as [_ Hnone]. exfalso. apply (Hnone b' Hin). split; assumption.
Qed.

End WithRatio.
End FuzzyFacts.

(** C3, as the code has it.  [fuzzy_match_schools] maps a source name [s]
    to [b] exactly when [b] is the first target name that attains the
    maximum ratio against [s], that maximum is at least the threshold and
    greater than zero, and [b] is not the empty string; every other source
    name is absent from the result.  In particular, for every scorer, a
    non-empty source name that is also a target name and has ratio 1
    against itself is matched for every threshold up to 1, and a source
    name of ratio 0 against every target name is not matched at threshold
    0.8; with [SequenceMatcher], every non-empty source name that is also
    a target name is matched for every threshold up to 1, and a source
    name that shares no character with any target name is not matched at
    threshold 0.8. *)
Theorem fuzzy_match_schools_first_maximum :
  (forall (ratio : string -> string -> Q) csv_names excel_names threshold s b,
     fuzzy_match_schools ratio csv_names excel_names threshold !! s = Some b <->
     specified_match ratio csv_names excel_names threshold s b
     /\ (0 < ratio s b)%Q /\ b <> "")
  /\ (forall (ratio : string -> string -> Q) csv_names excel_names threshold s,
        s <> "" -> s ∈ csv_names -> s ∈ excel_names ->
        (ratio s s == 1)%Q -> (ratio s "" < 1)%Q -> (threshold <= 1)%Q ->
        exists b, fuzzy_match_schools ratio csv_names excel_names threshold !! s = Some b
                  /\ (1 <= ratio s b)%Q)
  /\ (forall (ratio : string -> string -> Q) csv_names excel_names s,
        (forall b, b ∈ excel_names -> (ratio s b == 0)%Q) ->
        fuzzy_match_schools ratio csv_names excel_names default_threshold !! s = None)
  /\ (forall csv_names excel_names threshold s,
        s <> "" -> s ∈ csv_names -> s ∈ excel_names -> (threshold <= 1)%Q ->
        is_Some (fuzzy_match_schools SequenceMatcher.ratio csv_names excel_names
                   threshold !! s))
  /\ (forall csv_names excel_names s,
        (forall b, b ∈ excel_names -> share_no_char s b = true) ->
        fuzzy_match_schools SequenceMatcher.ratio csv_names excel_names
          default_threshold !! s = None).
Proof.
  assert (Hiff : forall (ratio : string -> string -> Q) csv_names excel_names threshold s b,
     fuzzy_match_schools ratio csv_names excel_names threshold !! s = Some b <->
     specified_match ratio csv_names excel_names threshold s b
     /\ (0 < ratio s b)%Q /\ b <> "").
  { intros ratio csv_names excel_names threshold s b.
    rewrite FuzzyFacts.fuzzy_lookup. unfold specified_match.
    destruct (decide (s ∈ csv_names)) as [Hin|Hnin].
    - rewrite FuzzyFacts.choice_Some. tauto.
    - split; [discriminate | tauto]. }
  assert (Hsame : forall (ratio : string -> string -> Q) csv_names excel_names threshold s,
        s <> "" -> s ∈ csv_names -> s ∈ excel_names ->
        (ratio s s == 1)%Q -> (ratio s "" < 1)%Q -> (threshold <= 1)%Q ->
        exists b, fuzzy_match_schools ratio csv_names excel_names threshold !! s = Some b
                  /\ (1 <= ratio s b)%Q).
  { intros ratio csv_names excel_names threshold s Hne Hcsv Hexcel Hrefl Hempty Ht.
    destruct (FuzzyFacts.choice_exists ratio threshold excel_names s s Hexcel)
      as (b & Hb & Hle).
    - rewrite Hrefl. exact Ht.
    - rewrite Hrefl. reflexivity.
    - intros b (i & _ & Hmax & _) ->.
      apply list_elem_of_lookup_1 in Hexcel as [j Hj].
      specialize (Hmax j s Hj). rewrite Hrefl in Hmax. lra.
    - exists b. split; [|rewrite <- Hrefl; exact Hle].
      rewrite FuzzyFacts.fuzzy_lookup, decide_True by exact Hcsv. exact Hb. }
  assert (Hzero : forall (ratio : string -> string -> Q) csv_names excel_names s,
        (forall b, b ∈ excel_names -> b <> "" -> (ratio s b == 0)%Q) ->
        fuzzy_match_schools ratio csv_names excel_names default_threshold !! s = None).
  { intros ratio csv_names excel_names s Hzero.
    destruct (fuzzy_match_schools ratio csv_names excel_names default_threshold !! s)
      as [b|] eqn:Hb; [|reflexivity].
    exfalso. apply Hiff in Hb as ((_ & (i & Hi & _) & Ht) & _ & Hne).
    apply list_elem_of_lookup_2 in Hi. specialize (Hzero b Hi Hne).
    rewrite Hzero in Ht. unfold default_threshold in Ht. revert Ht. apply Qlt_not_le.
    reflexivity. }
  split; [exact Hiff|]. split; [exact Hsame|]. split; [|split].
  - intros ratio csv_names excel_names s H. apply Hzero. intros b Hb _. apply H, Hb.
  - intros csv_names excel_names threshold s Hne Hcsv Hexcel Ht.
    destruct (Hsame SequenceMatcher.ratio csv_names excel_names threshold s
                Hne Hcsv Hexcel) as (b & Hb & _).
    + apply SequenceMatcherFacts.ratio_same.
    + rewrite SequenceMatcherFacts.ratio_disjoint; [reflexivity | | left; exact Hne].
      intros c _ Hc. apply not_elem_of_nil in Hc. exact Hc.
    + exact Ht.
    + rewrite Hb. eexists. reflexivity.
  - intros csv_names excel_names s Hdis. apply Hzero. intros b Hb Hne.
    apply SequenceMatcherFacts.ratio_disjoint; [|right; exact Hne].
    apply SequenceMatcherFacts.share_no_char_disjoint, Hdis, Hb.
Qed.

Lemma fuzzy_match_schools_first_maximum_witness :
  is_Some (fuzzy_match_schools SequenceMatcher.ratio
             ["aldrin es"; "zzz"] ["aldrin es"; "oakton hs"] default_threshold
           !! "aldrin es")
  /\ fuzzy_match_schools SequenceMatcher.ratio
       ["aldrin es"; "zzz"] ["aldrin es"; "oakton hs"] default_threshold !! "zzz" = None.
Proof.
  destruct fuzzy_match_schools_first_maximum as (_ & _ & _ & Hsame & Hnone).
  split.
  - apply Hsame.
    + discriminate.
    + apply elem_of_cons. left. reflexivity.
    + apply elem_of_cons. left. reflexivity.
    + vm_compute. discriminate.
  - apply Hnone. intros b Hb.
    apply elem_of_cons in Hb as [->|Hb]; [vm_compute; reflexivity|].
    apply list_elem_of_singleton in Hb as ->. vm_compute. reflexivity.
Defined.

(** C3 as stated fails on the empty name: it is its own first maximum, of
    ratio 1.0, and receives no entry because [if best_match:] is false on
    the empty string. *)
Lemma fuzzy_match_schools_not_specified_match :
  ~ (forall (ratio : string -> string -> Q) csv_names excel_names threshold s b,
       fuzzy_match_schools ratio csv_names excel_names threshold !! s = Some b <->
       specified_match ratio csv_names excel_names threshold s b).
Proof.
  intros H.
  specialize (H SequenceMatcher.ratio [""] [""] default_threshold "" "").
  assert (Hspec : specified_match SequenceMatcher.ratio [""] [""] default_threshold "" "").
  { split; [apply elem_of_cons; left; reflexivity|]. split.
    - exists 0%nat. repeat split.
      + intros [|j] b' Hj; [|destruct j; discriminate Hj].
        injection Hj as <-. apply Qle_refl.
      + intros j b' Hj. lia.
    - vm_compute. discriminate. }
  apply H in Hspec. vm_compute in Hspec. discriminate Hspec.
Qed.

(** ** The resolver loop *)

Module ResolverFacts.

(** *** Chunks *)

Lemma range_count_bound n bs :
  (0 < bs)%nat ->
  let q := ((n + bs - 1) / bs)%nat in
  (n <= q * bs)%nat /\ (forall k, (k < q)%nat -> (k * bs < n)%nat).
Proof.
  intros Hbs q. subst q.
  pose proof (Nat.div_mod_eq (n + bs - 1) bs) as Hdm.
  pose proof (Nat.mod_upper_bound (n + bs - 1) bs ltac:(lia)) as Hmod.
  split; [nia|]. intros k Hk. nia.
Qed.

Lemma concat_slices {A} (names : list A) bs q :
  concat ((fun i => Text.slice i (i + bs) names) <$> ((fun k => k * bs)%nat <$> seq 0 q))
  = take (q * bs) names.
Proof.
  induction q as [|q IH]; [reflexivity|].
  rewrite seq_S, !fmap_app, concat_app, IH. cbn [fmap list_fmap concat].
  rewrite app_nil_r. unfold Text.slice.
  replace (0 + q * bs + bs - (0 + q * bs))%nat with bs by lia.
  rewrite take_take_drop. f_equal. lia.
Qed.

Lemma concat_chunks_of {A} (names : list A) bs :
  (0 < bs)%nat -> concat (chunks_of bs names) = names.
Proof.
  intros Hbs. unfold chunks_of, range_step. rewrite concat_slices.
  apply take_ge. apply (range_count_bound (length names) bs Hbs).
Qed.

Lemma chunks_of_lookup {A} (names : list A) bs k c :
  chunks_of bs names !! k = Some c ->
  c = Text.slice (k * bs) (k * bs + bs) names
  /\ (k < (length names + bs - 1) / bs)%nat.
Proof.
  unfold chunks_of, range_step. rewrite !list_lookup_fmap.
  destruct (seq 0 ((length names + bs - 1) / bs) !! k) as [i|] eqn:Hk; [|discriminate].
  apply lookup_seq in Hk as [-> Hk]. cbn. intros [= <-]. split; [reflexivity | exact Hk].
Qed.

Lemma length_chunks_of {A} (names : list A) bs :
  length (chunks_of bs names) = ((length names + bs - 1) / bs)%nat.
Proof. unfold chunks_of, range_step. rewrite !length_fmap. apply length_seq. Qed.

(** Every chunk is non-empty and holds at most [bs] names, exactly [bs]
    when it is not the last one. *)
Lemma chunks_of_sizes {A} (names : list A) bs k c :
  (0 < bs)%nat -> chunks_of bs names !! k = Some c ->
  (0 < length c <= bs)%nat
  /\ (S k < length (chunks_of bs names) -> length c = bs)%nat.
Proof.
  intros Hbs Hk. rewrite length_chunks_of.
  apply chunks_of_lookup in Hk as [-> Hk].
  destruct (range_count_bound (length names) bs Hbs) as [_ Hlt].
  unfold Text.slice. rewrite length_take, length_drop.
  pose proof (Hlt k Hk) as Hk'. split; [lia|].
  intros HS. specialize (Hlt (S k) HS). lia.
Qed.

(** *** Folding the replies *)

Section WithServices.

Variable json_loads : string -> option dict.
Variable ollama : nat -> prompt -> option string.

Lemma absorb_response_parse mapping response :
  absorb_response json_loads mapping response =
  match parse_response json_loads response with
  | Some d => dict_update mapping d
  | None => mapping
  end.
Proof.
  unfold absorb_response, parse_response.
  destruct (extract_json_dict json_loads response); reflexivity.
Qed.

Lemma fold_absorb_response responses : forall mapping,
  fold_left (absorb_response json_loads) responses mapping =
  fold_left dict_update (omap (parse_response json_loads) responses) mapping.
Proof.
  induction responses as [|r responses IH]; intros mapping; [reflexivity|].
  cbn [fold_left omap list_omap]. rewrite IH, absorb_response_parse.
  destruct (parse_response json_loads r); reflexivity.
Qed.

(** The loop over the batch offsets [offsets] when every request is answered. *)
Lemma for_each_batch known_names csv_names bs offsets : forall mapping log,
  (forall n p, is_Some (ollama n p)) ->
  exists responses,
    length responses = length offsets
    /\ (forall (k : nat) i r, offsets !! k = Some i -> responses !! k = Some r ->
          ollama (length log + k)
                 (Prompt known_names (Text.slice i (i + bs) csv_names)) = Some r)
    /\ for_each offsets (batch json_loads ollama known_names csv_names bs) mapping log
       = (Ok (fold_left (absorb_response json_loads) responses mapping),
          log ++ ((fun i => Prompt known_names (Text.slice i (i + bs) csv_names))
                    <$> offsets)).
Proof.
  induction offsets as [|i offsets IH]; intros mapping log Hall.
  - exists []. repeat split.
    + intros k i r Hk. discriminate Hk.
    + cbn. rewrite app_nil_r. reflexivity.
  - destruct (Hall (length log) (Prompt known_names (Text.slice i (i + bs) csv_names)))
      as [r Hr].
    destruct (IH (absorb_response json_loads mapping r)
                 (log ++ [Prompt known_names (Text.slice i (i + bs) csv_names)]) Hall)
      as (responses & Hlen & Hreq & Hrun).
    exists (r :: responses). repeat split.
    + simpl. rewrite Hlen. reflexivity.
    + intros [|k] i' r' Hk Hk'.
      * injection Hk as <-. injection Hk' as <-. rewrite Nat.add_0_r. exact Hr.
      * specialize (Hreq k i' r' Hk Hk'). rewrite length_app in Hreq. cbn in Hreq.
        rewrite <- Hreq. f_equal. lia.
    + cbn [for_each]. unfold mbind, M_bind, batch at 1, query_ollama.
      unfold mbind, M_bind. rewrite Hr. cbn [mret M_ret].
      rewrite Hrun. cbn [fold_left fmap list_fmap]. rewrite <- app_assoc. reflexivity.
Qed.

Lemma get_name_mapping_returns known_names csv_names batch_size log :
  (0 < batch_size)%Z -> (forall n p, is_Some (ollama n p)) ->
  exists mapping log',
    get_name_mapping json_loads ollama known_names csv_names batch_size log
    = (Ok mapping, log').
Proof.
  intros Hbs Hall. unfold get_name_mapping.
  destruct (Z.eqb_spec batch_size 0) as [?|_]; [lia|].
  destruct (Z.ltb_spec batch_size 0) as [?|_]; [lia|].
  destruct (for_each_batch known_names csv_names (Z.to_nat batch_size)
              (range_step (length csv_names) (Z.to_nat batch_size)) ∅ log Hall)
    as (responses & _ & _ & Hrun).
  rewrite Hrun. eauto.
Qed.

End WithServices.

(** *** Entries of a fold of updates *)

Lemma fold_dict_update_lookup (ds : list dict) : forall (acc : dict) key v,
  fold_left dict_update ds acc !! key = Some v <->
  (exists (k : nat) d, ds !! k = Some d /\ d !! key = Some v
     /\ forall (k' : nat) d', (k < k')%nat -> ds !! k' = Some d' -> d' !! key = None)
  \/ (acc !! key = Some v /\ forall d, d ∈ ds -> d !! key = None).
Proof.
  induction ds as [|d0 ds IH]; intros acc key v; cbn [fold_left].
  - split.
    + intros H. right. split; [exact H|]. intros d Hd.
      apply not_elem_of_nil in Hd. contradiction.
    + intros [(k & d & Hk & _) | [H _]]; [discriminate Hk | exact H].
  - rewrite IH. rewrite lookup_dict_update. split.
    + intros [(k & d & Hk & Hv & Hlast) | [Hacc Hnone]].
      * left. exists (S k), d. repeat split; [exact Hk | exact Hv |].
        intros [|k'] d' Hlt Hk'; [lia|]. apply (Hlast k' d'); [lia | exact Hk'].
      * destruct (d0 !! key) as [v0|] eqn:Hd0.
        -- left. exists 0%nat, d0. repeat split; [congruence|].
           intros [|k'] d' Hlt Hk'; [lia|]. apply Hnone.
           apply (list_elem_of_lookup_2 ds k'). exact Hk'.
        -- right. split; [exact Hacc|]. intros d Hd.
           apply elem_of_cons in Hd as [->|Hd]; [exact Hd0 | apply Hnone, Hd].
    + intros [(k & d & Hk & Hv & Hlast) | [Hacc Hnone]].
      * destruct k as [|k].
        -- injection Hk as <-. right. rewrite Hv. split; [reflexivity|].
           intros d Hd. apply list_elem_of_lookup_1 in Hd as [k' Hk'].
           apply (Hlast (S k') d); [lia | exact Hk'].
        -- left. exists k, d. repeat split; [exact Hk | exact Hv |].
           intros k' d' Hlt Hk'. apply (Hlast (S k') d'); [lia | exact Hk'].
      * right. rewrite (Hnone d0) by (apply elem_of_cons; left; reflexivity).
        split; [exact Hacc|]. intros d Hd. apply Hnone. apply elem_of_cons. right. exact Hd.
Qed.

End ResolverFacts.

(** C6, as the code has it.  For a positive batch size and a service that
    answers, [get_name_mapping] cuts the unknown names into consecutive
    chunks of the batch size (the last one possibly shorter), sends exactly
    one request per chunk, each with the full list of known names, and
    returns: a reply from which no object can be extracted and parsed is
    skipped, without a retry and without an error, and contributes no
    entry; the result is the update, in order, of the objects parsed from
    the other replies. *)
Theorem get_name_mapping_batches
    (json_loads : string -> option dict) (ollama : nat -> prompt -> option string)
    (known_names csv_names : list string) (batch_size : Z) (log : list prompt) :
  (0 < batch_size)%Z ->
  (forall n p, is_Some (ollama n p)) ->
  exists (chunks : list (list string)) (responses : list string) (mapping : dict),
    concat chunks = csv_names
    /\ (forall (k : nat) c, chunks !! k = Some c ->
          (0 < length c <= Z.to_nat batch_size)%nat
          /\ (S k < length chunks -> length c = Z.to_nat batch_size)%nat)
    /\ length responses = length chunks
    /\ (forall (k : nat) c r, chunks !! k = Some c -> responses !! k = Some r ->
          ollama (length log + k)%nat (Prompt known_names c) = Some r)
    /\ get_name_mapping json_loads ollama known_names csv_names batch_size log
       = (Ok mapping, log ++ (Prompt known_names <$> chunks))
    /\ mapping = fold_left dict_update (omap (parse_response json_loads) responses) ∅
    /\ (forall key v,
          mapping !! key = Some v <->
          exists (k : nat) d,
            omap (parse_response json_loads) responses !! k = Some d
            /\ d !! key = Some v
            /\ forall (k' : nat) d', (k < k')%nat ->
                 omap (parse_response json_loads) responses !! k' = Some d' ->
                 d' !! key = None).
Proof.
  intros Hbs Hall.
  set (bs := Z.to_nat batch_size).
  assert (Hbs' : (0 < bs)%nat) by (subst bs; lia).
  destruct (ResolverFacts.for_each_batch json_loads ollama known_names csv_names bs
              (range_step (length csv_names) bs) ∅ log Hall)
    as (responses & Hlen & Hreq & Hrun).
  exists (chunks_of bs csv_names), responses,
         (fold_left dict_update (omap (parse_response json_loads) responses) ∅).
  split; [apply ResolverFacts.concat_chunks_of; exact Hbs'|].
  split; [intros k c Hk; apply ResolverFacts.chunks_of_sizes; assumption|].
  split; [rewrite Hlen; unfold chunks_of; rewrite length_fmap; reflexivity|].
  split.
  { intros k c r Hk Hr. unfold chunks_of in Hk. rewrite list_lookup_fmap in Hk.
    destruct (range_step (length csv_names) bs !! k) as [i|] eqn:Hi; [|discriminate].
    injection Hk as <-. exact (Hreq k i r Hi Hr). }
  split.
  { unfold get_name_mapping.
    destruct (Z.eqb_spec batch_size 0) as [?|_]; [lia|].
    destruct (Z.ltb_spec batch_size 0) as [?|_]; [lia|].
    fold bs. rewrite Hrun, ResolverFacts.fold_absorb_response.
    unfold chunks_of. rewrite <- list_fmap_compose. reflexivity. }
  split; [reflexivity|].
  intros key v. rewrite ResolverFacts.fold_dict_update_lookup. split.
  - intros [H | [H _]]; [exact H | rewrite lookup_empty in H; discriminate H].
  - intros H. left. exact H.
Qed.

Lemma get_name_mapping_batches_witness :
  exists (chunks : list (list string)) (responses : list string) (mapping : dict),
    concat chunks = ["a"; "b"]
    /\ (forall (k : nat) c, chunks !! k = Some c ->
          (0 < length c <= Z.to_nat 1)%nat
          /\ (S k < length chunks -> length c = Z.to_nat 1)%nat)
    /\ length responses = length chunks
    /\ (forall (k : nat) c r, chunks !! k = Some c -> responses !! k = Some r ->
          talkative_ollama (length (@nil prompt) + k)%nat (Prompt ["x"; "y"] c) = Some r)
    /\ get_name_mapping Json.loads talkative_ollama ["x"; "y"] ["a"; "b"] 1 []
       = (Ok mapping, [] ++ (Prompt ["x"; "y"] <$> chunks))
    /\ mapping = fold_left dict_update (omap (parse_response Json.loads) responses) ∅
    /\ (forall key v,
          mapping !! key = Some v <->
          exists (k : nat) d,
            omap (parse_response Json.loads) responses !! k = Some d
            /\ d !! key = Some v
            /\ forall (k' : nat) d', (k < k')%nat ->
                 omap (parse_response Json.loads) responses !! k' = Some d' ->
                 d' !! key = None).
Proof.
  apply (get_name_mapping_batches Json.loads talkative_ollama ["x"; "y"] ["a"; "b"] 1 []).
  - lia.
  - intros [|n] p; eexists; reflexivity.
Defined.

(** C6 as stated fails where it says that the names of a skipped chunk
    are absent from the result: the object of another reply may carry
    them as keys. *)
Lemma get_name_mapping_skipped_names_present :
  ~ (forall (json_loads : string -> option dict) (ollama : nat -> prompt -> option string)
            (known_names csv_names : list string) (batch_size : Z)
            (k : nat) (chunk : list string) (response : string) (name : string)
            (mapping : dict) (log : list prompt),
       (0 < batch_size)%Z ->
       get_name_mapping json_loads ollama known_names csv_names batch_size []
         = (Ok mapping, log) ->
       chunks_of (Z.to_nat batch_size) csv_names !! k = Some chunk ->
       ollama k (Prompt known_names chunk) = Some response ->
       parse_response json_loads response = None ->
       name ∈ chunk ->
       mapping !! name = None).
Proof.
  intros H.
  destruct (get_name_mapping Json.loads talkative_ollama ["x"; "y"] ["a"; "b"] 1 [])
    as [[mapping|e] log] eqn:Hrun; [|vm_compute in Hrun; discriminate Hrun].
  specialize (H Json.loads talkative_ollama ["x"; "y"] ["a"; "b"] 1%Z 1%nat ["b"]
                "I could not match these names." "b" mapping log).
  assert (Hb : mapping !! "b" = None).
  { apply H.
    - lia.
    - exact Hrun.
    - reflexivity.
    - reflexivity.
    - vm_compute. reflexivity.
    - apply elem_of_cons. left. reflexivity. }
  vm_compute in Hrun. injection Hrun as <- _. vm_compute in Hb. discriminate Hb.
Qed.

(** ** The merger *)

Module MergeFacts.







Lemma elem_of_merge_left left right m :
  m ∈ merge_left left right <-> exists l, l ∈ left /\ m ∈ join_row right l.
Proof.
  unfold merge_left. rewrite list_elem_of_In, in_flat_map. split.
  - intros (l & Hl & Hm). exists l. rewrite !list_elem_of_In. auto.
  - intros (l & Hl & Hm). exists l. rewrite <- !list_elem_of_In. auto.
Qed.

Lemma elem_of_join_row right l m :
  m ∈ join_row right l <->
  fst m = l /\ match snd m with
               | Some r => r ∈ hits right l
               | None => hits right l = []
               end.
Proof.
  unfold join_row. destruct m as [l' o]. cbn [fst snd].
  destruct (hits right l) as [|r found] eqn:Hhits.
  - rewrite list_elem_of_singleton. split.
    + intros [= -> ->]. auto.
    + intros [-> Ho]. destruct o as [r|]; [|reflexivity].
      apply not_elem_of_nil in Ho. contradiction.
  - rewrite list_elem_of_fmap. split.
    + intros (r' & [= -> ->] & Hr'). auto.
    + intros [-> Ho]. destruct o as [r'|]; [|discriminate]. eauto.
Qed.

(** Every left row is the CSV side of some merged row. *)
Lemma merge_left_keeps left right l :
  l ∈ left -> exists m, m ∈ merge_left left right /\ fst m = l.
Proof.
  intros Hl. destruct (hits right l) as [|r found] eqn:Hhits.
  - exists (l, None). split; [|reflexivity].
    apply elem_of_merge_left. exists l. split; [exact Hl|].
    apply elem_of_join_row. cbn. auto.
  - exists (l, Some r). split; [|reflexivity].
    apply elem_of_merge_left. exists l. split; [exact Hl|].
    apply elem_of_join_row. cbn. rewrite Hhits. split; [reflexivity|].
    apply elem_of_cons. left. reflexivity.
Qed.

Lemma hits_nil right l :
  hits right l = [] <->
  forall r, r ∈ right -> PyStr (excel_Normalized_School_Name r) <> Mapped_Normalized_Name l.
Proof.
  unfold hits. split.
  - intros Hnil r Hr Hkey.
    assert (Hin : r ∈ filter (fun r0 => bool_decide
              (Mapped_Normalized_Name l = PyStr (excel_Normalized_School_Name r0))) right).
    { apply list_elem_of_filter. split; [|exact Hr].
      apply Is_true_true, bool_decide_eq_true. congruence. }
    rewrite Hnil in Hin. apply not_elem_of_nil in Hin. contradiction.
  - intros Hne. destruct (filter _ right) as [|r rest] eqn:Hf; [reflexivity|]. exfalso.
    assert (Hin : r ∈ filter (fun r0 => bool_decide
              (Mapped_Normalized_Name l = PyStr (excel_Normalized_School_Name r0))) right)
      by (rewrite Hf; apply elem_of_cons; left; reflexivity).
    apply list_elem_of_filter in Hin as [Hkey Hin].
    apply Is_true_true, bool_decide_eq_true in Hkey.
    apply (Hne r Hin). congruence.
Qed.

End MergeFacts.

(** ** The pipeline *)

Module PipelineFacts.

Lemma elem_of_drop_test_schools csv_df r :
  r ∈ drop_test_schools csv_df <->
  r ∈ csv_df /\ isin (csv_School_Name r) test_schools = false.
Proof.
  unfold drop_test_schools. rewrite list_elem_of_filter.
  rewrite <- negb_true_iff, Is_true_true. tauto.
Qed.

(** *** The accessor *)

Lemma str_accessor_has_text column :
  has_text column -> str_accessor column = Ok tt.
Proof.
  intros [s Hs]. unfold str_accessor.
  destruct column as [|cell column]; [reflexivity|].
  destruct (existsb _ (cell :: column)) eqn:Hex; [reflexivity|].
  exfalso. apply not_true_iff_false in Hex. apply Hex.
  apply existsb_exists. exists (Some s). split; [|reflexivity].
  apply list_elem_of_In. exact Hs.
Qed.

Lemma str_accessor_cases column :
  (str_accessor column = Ok tt /\ (column = [] \/ has_text column))
  \/ (str_accessor column = Raise AttributeError
      /\ column <> [] /\ forall cell, cell ∈ column -> cell = None).
Proof.
  unfold str_accessor. destruct column as [|cell column]; [left; auto|].
  destruct (existsb _ (cell :: column)) eqn:Hex.
  - left. split; [reflexivity|]. right.
    apply existsb_exists in Hex as ([s|] & Hin & Hs); [|discriminate].
    exists s. apply list_elem_of_In. exact Hin.
  - right. split; [reflexivity|]. split; [discriminate|].
    intros [s|] Hin; [|reflexivity]. exfalso.
    apply not_true_iff_false in Hex. apply Hex.
    apply existsb_exists. exists (Some s). split; [|reflexivity].
    apply list_elem_of_In. exact Hin.
Qed.

Lemma has_text_nonempty {A} (f : A -> option string) (l : list A) :
  has_text (f <$> l) -> l <> [].
Proof. intros [s Hs] ->. apply elem_of_nil in Hs. exact Hs. Qed.

(** *** Mappings of strings and nulls *)

Lemma textual_empty : textual ∅.
Proof. intros k v Hk. rewrite lookup_empty in Hk. discriminate Hk. Qed.

Lemma textual_dict_update d other :
  textual d -> textual other -> textual (dict_update d other).
Proof.
  intros Hd Hother k v. rewrite lookup_dict_update.
  destruct (other !! k) as [w|] eqn:Hk.
  - intros [= <-]. exact (Hother k w Hk).
  - apply Hd.
Qed.

Lemma textual_names (m : gmap string string) : textual (PyStr <$> m).
Proof.
  intros k v. rewrite lookup_fmap. destruct (m !! k); [|discriminate].
  intros [= <-]. reflexivity.
Qed.

Lemma textual_combine cached fuzzy resolver :
  textual cached -> textual resolver -> textual (combine_mappings cached fuzzy resolver).
Proof.
  intros Hc Hr. unfold combine_mappings.
  repeat apply textual_dict_update; auto using textual_empty, textual_names.
Qed.

Lemma is_str_mapped_name final_mapping name :
  textual final_mapping -> is_str (mapped_name final_mapping name) = true.
Proof.
  intros Htext. unfold mapped_name, map_cell, fillna.
  destruct (final_mapping !! name) as [[| |text]|] eqn:Hk; try reflexivity.
  specialize (Htext _ _ Hk). discriminate Htext.
Qed.

Lemma plain_keys_textual final_mapping csv_names excel_names :
  textual final_mapping -> csv_names <> [] -> excel_names <> [] ->
  plain_keys final_mapping csv_names excel_names = true.
Proof.
  intros Htext Hcsv Hexcel. unfold plain_keys.
  rewrite (bool_decide_eq_false_2 (csv_names = [])) by exact Hcsv.
  rewrite (bool_decide_eq_false_2 (excel_names = [])) by exact Hexcel.
  rewrite !andb_true_r.
  apply forallb_forall. intros name _. apply is_str_mapped_name, Htext.
Qed.

Lemma has_text_retained csv_df :
  has_text (csv_School_Name <$> drop_test_schools csv_df) ->
  has_text (csv_School_Name <$> csv_df).
Proof.
  intros [s Hs]. exists s. apply list_elem_of_fmap in Hs as (r & Hr & Hin).
  apply elem_of_drop_test_schools in Hin as [Hin _].
  apply list_elem_of_fmap. eauto.
Qed.


Lemma fold_restrict_lookup (cm : dict) names : forall (acc : dict) k,
  fold_left (fun acc name =>
               match cm !! name with
               | Some v => <[name := v]> acc
               | None => acc
               end) names acc !! k
  = if decide (k ∈ names)
    then match cm !! k with Some v => Some v | None => acc !! k end
    else acc !! k.
Proof.
  induction names as [|name names IH]; intros acc k; cbn [fold_left].
  - rewrite decide_False by apply not_elem_of_nil. reflexivity.
  - rewrite IH. destruct (decide (k ∈ names)) as [Hin|Hin].
    + rewrite decide_True by (apply elem_of_cons; right; exact Hin).
      destruct (cm !! k) as [v|] eqn:Hk; [reflexivity|].
      destruct (cm !! name) as [w|] eqn:Hname; [|reflexivity].
      rewrite lookup_insert_ne by congruence. reflexivity.
    + destruct (decide (k = name)) as [->|Hne].
      * rewrite decide_True by (apply elem_of_cons; left; reflexivity).
        destruct (cm !! name) as [w|]; [|reflexivity].
        apply lookup_insert_eq.
      * rewrite decide_False
          by (intros [?|?]%elem_of_cons; [congruence | contradiction]).
        destruct (cm !! name) as [w|]; [|reflexivity].
        apply lookup_insert_ne. congruence.
Qed.

Lemma restrict_cache_lookup cm names k :
  restrict_cache cm names !! k = if decide (k ∈ names) then cm !! k else None.
Proof.
  unfold restrict_cache. rewrite fold_restrict_lookup, lookup_empty.
  destruct (decide (k ∈ names)); [|reflexivity]. destruct (cm !! k); reflexivity.
Qed.

Lemma cached_matches_lookup cached_mapping names k :
  cached_matches_of cached_mapping names !! k
  = match cached_mapping with
    | Some cm => if decide (k ∈ names) then cm !! k else None
    | None => None
    end.
Proof.
  destruct cached_mapping as [cm|]; cbn [cached_matches_of]; [|apply lookup_empty].
  destruct (bool_decide (cm = ∅)) eqn:Hcm.
  - apply bool_decide_eq_true in Hcm. subst cm. rewrite !lookup_empty.
    destruct (decide (k ∈ names)); reflexivity.
  - apply restrict_cache_lookup.
Qed.

Lemma textual_cached_matches cached_mapping names :
  (forall cm, cached_mapping = Some cm -> textual cm) ->
  textual (cached_matches_of cached_mapping names).
Proof.
  intros Hcache k v. rewrite cached_matches_lookup.
  destruct cached_mapping as [cm|]; [|discriminate].
  destruct (decide (k ∈ names)); [|discriminate]. apply (Hcache cm eq_refl).
Qed.

Lemma sorted_unique_elem names name : name ∈ sorted_unique names <-> name ∈ names.
Proof.
  unfold sorted_unique. rewrite merge_sort_Permutation. apply elem_of_remove_dups.
Qed.

Lemma sorted_unique_nonempty names : names <> [] -> sorted_unique names <> [].
Proof.
  destruct names as [|name names]; [congruence|]. intros _ Hnil.
  assert (Hin : name ∈ sorted_unique (name :: names)).
  { apply sorted_unique_elem, elem_of_cons. left. reflexivity. }
  rewrite Hnil in Hin. apply elem_of_nil in Hin. exact Hin.
Qed.

Lemma names_nonempty {A} (f : A -> option string) (g : A -> string) (l : list A) :
  has_text (f <$> l) -> sorted_unique (g <$> l) <> [].
Proof.
  intros Htext. apply sorted_unique_nonempty. intros Hnil.
  apply fmap_nil_inv in Hnil. exact (has_text_nonempty _ _ Htext Hnil).
Qed.

Section WithServices.

Variable ratio : string -> string -> Q.
Variable json_loads : string -> option dict.
Variable ollama : nat -> prompt -> option string.
Variable merge_refuses : dict -> list string -> list string -> option exn.

Lemma textual_absorb_response mapping response :
  textual mapping ->
  (forall d, parse_response json_loads response = Some d -> textual d) ->
  textual (absorb_response json_loads mapping response).
Proof.
  intros Hmapping Hreply. rewrite ResolverFacts.absorb_response_parse.
  destruct (parse_response json_loads response) as [d|]; [|exact Hmapping].
  apply textual_dict_update; auto.
Qed.

Lemma textual_fold_absorb responses : forall mapping,
  textual mapping ->
  (forall r d, r ∈ responses -> parse_response json_loads r = Some d -> textual d) ->
  textual (fold_left (absorb_response json_loads) responses mapping).
Proof.
  induction responses as [|r responses IH]; intros mapping Hmapping Hreplies;
    cbn [fold_left]; [exact Hmapping|].
  apply IH.
  - apply textual_absorb_response; [exact Hmapping|].
    intros d. apply Hreplies, elem_of_cons. left. reflexivity.
  - intros r' d Hr'. apply Hreplies, elem_of_cons. right. exact Hr'.
Qed.

Lemma get_name_mapping_textual known_names csv_names log :
  (forall n p, is_Some (ollama n p)) ->
  (forall n p r d,
     ollama n p = Some r -> parse_response json_loads r = Some d -> textual d) ->
  exists mapping log',
    get_name_mapping json_loads ollama known_names csv_names default_batch_size log
    = (Ok mapping, log')
    /\ textual mapping.
Proof.
  intros Hall Htext. unfold get_name_mapping.
  change (default_batch_size =? 0)%Z with false.
  change (default_batch_size <? 0)%Z with false. cbn match.
  destruct (ResolverFacts.for_each_batch json_loads ollama known_names csv_names
              (Z.to_nat default_batch_size)
              (range_step (length csv_names) (Z.to_nat default_batch_size)) ∅ log Hall)
    as (responses & Hlen & Hreq & Hrun).
  rewrite Hrun. eexists _, _. split; [reflexivity|].
  apply textual_fold_absorb; [apply textual_empty|].
  intros r d Hr. apply list_elem_of_lookup_1 in Hr as [k Hk].
  destruct (lookup_lt_is_Some_2 (range_step (length csv_names)
                                   (Z.to_nat default_batch_size)) k) as [i Hi].
  { rewrite <- Hlen. eapply lookup_lt_Some, Hk. }
  apply (Htext _ _ _ d (Hreq k i r Hi Hk)).
Qed.

Lemma resolve_names_returns csv_names excel_names cached_mapping log :
  (forall cm, cached_mapping = Some cm -> textual cm) ->
  (forall n p, is_Some (ollama n p)) ->
  (forall n p r d,
     ollama n p = Some r -> parse_response json_loads r = Some d -> textual d) ->
  exists final_mapping log',
    resolve_names ratio json_loads ollama csv_names excel_names cached_mapping log
    = (Ok final_mapping, log')
    /\ textual final_mapping.
Proof.
  intros Hcache Hall Htext. unfold resolve_names.
  set (cached := cached_matches_of cached_mapping csv_names).
  set (unmatched := filter _ csv_names).
  set (fuzzy := fuzzy_match_schools ratio unmatched excel_names default_threshold).
  assert (Hcached : textual cached) by apply textual_cached_matches, Hcache.
  destruct (filter _ unmatched) as [|name still] eqn:Hstill.
  - eexists _, _. split; [reflexivity|].
    apply textual_combine; [exact Hcached | apply textual_empty].
  - destruct (get_name_mapping_textual excel_names (name :: still) log Hall Htext)
      as (m & log' & Hrun & Hm).
    unfold mbind, M_bind. rewrite Hrun. eexists _, _. split; [reflexivity|].
    apply textual_combine; assumption.
Qed.

(** On regular inputs, [process_dataset] returns the left join of the
    retained CSV rows with the roster, and the mapping it applied. *)
Lemma process_dataset_returns csv_df excel_df cached_mapping log :
  regular_inputs json_loads ollama csv_df excel_df cached_mapping ->
  exists final_mapping log',
    process_dataset ratio json_loads ollama merge_refuses csv_df excel_df
                    cached_mapping log
    = (Ok (merge_left (prepare_csv final_mapping <$> drop_test_schools csv_df)
                      (prepare_excel <$> excel_df), final_mapping), log').
Proof.
  intros [Hcsv Hexcel Hcolumn Hcache Hall Htext].
  destruct (resolve_names_returns (csv_names_of (drop_test_schools csv_df))
              (excel_names_of excel_df) cached_mapping log Hcache Hall Htext)
    as (fm & log' & Hrun & Hfm).
  exists fm, log'.
  unfold process_dataset, merge_dataset, report, merge_check, mbind, M_bind, lift.
  rewrite (str_accessor_has_text _ (has_text_retained _ Hcsv)),
    (str_accessor_has_text _ Hexcel), Hrun.
  rewrite plain_keys_textual;
    [rewrite Hcolumn; reflexivity | exact Hfm | |]; eapply names_nonempty; eassumption.
Qed.

(** What a returned result tells: both name columns were accepted, the
    mapping is the one the three tiers resolved, pandas carried the merge
    out, and the CSV table has no column "School Name". *)
Lemma merge_dataset_Ok csv_df excel_df cached_mapping log merged final_mapping log' :
  merge_dataset ratio json_loads ollama merge_refuses csv_df excel_df cached_mapping log
    = (Ok (merged, final_mapping), log') ->
  str_accessor (csv_School_Name <$> csv_df) = Ok tt
  /\ str_accessor (excel_School_Name <$> excel_df) = Ok tt
  /\ resolve_names ratio json_loads ollama (csv_names_of (drop_test_schools csv_df))
                   (excel_names_of excel_df) cached_mapping log
     = (Ok final_mapping, log')
  /\ merged = merge_left (prepare_csv final_mapping <$> drop_test_schools csv_df)
                         (prepare_excel <$> excel_df).
Proof.
  unfold merge_dataset, mbind, M_bind, lift.
  destruct (str_accessor (csv_School_Name <$> csv_df)) as [[]|e]; [|discriminate].
  destruct (str_accessor (excel_School_Name <$> excel_df)) as [[]|e]; [|discriminate].
  destruct (resolve_names ratio json_loads ollama _ _ cached_mapping log)
    as [[fm|e] log1]; [|discriminate].
  destruct (merge_check merge_refuses fm _ _) as [[]|e]; [|discriminate].
  cbn [mret M_ret]. intros [= <- <- <-]. auto.
Qed.

Lemma process_dataset_Ok csv_df excel_df cached_mapping log merged final_mapping log' :
  process_dataset ratio json_loads ollama merge_refuses csv_df excel_df cached_mapping log
    = (Ok (merged, final_mapping), log') ->
  merge_dataset ratio json_loads ollama merge_refuses csv_df excel_df cached_mapping log
    = (Ok (merged, final_mapping), log')
  /\ has_column "School Name" csv_df = false
  /\ resolve_names ratio json_loads ollama (csv_names_of (drop_test_schools csv_df))
                   (excel_names_of excel_df) cached_mapping log
     = (Ok final_mapping, log')
  /\ merged = merge_left (prepare_csv final_mapping <$> drop_test_schools csv_df)
                         (prepare_excel <$> excel_df).
Proof.
  unfold process_dataset, report, mbind, M_bind, lift.
  destruct (merge_dataset ratio json_loads ollama merge_refuses csv_df excel_df
              cached_mapping log) as [[[merged0 fm0]|e] log1] eqn:Hmerge; [|discriminate].
  destruct (has_column "School Name" csv_df); [discriminate|].
  cbn [mret M_ret]. intros [= <- <- <-].
  apply merge_dataset_Ok in Hmerge as (_ & _ & Hresolve & Hmerged). auto.
Qed.

End WithServices.

(** The scenario of the specification is a regular input. *)
Lemma scenario_regular :
  regular_inputs Json.loads null_ollama scenario_csv scenario_excel None.
Proof.
  split.
  - exists "Aldrin Elementary School". apply list_elem_of_fmap.
    exists (CsvRow (Some "Aldrin Elementary School") [("Meals", "120")]).
    split; [reflexivity|]. apply elem_of_drop_test_schools.
    split; [|reflexivity]. apply elem_of_cons. right. apply elem_of_cons. left.
    reflexivity.
  - exists "Aldrin ES". cbn. apply elem_of_cons. left. reflexivity.
  - reflexivity.
  - discriminate.
  - intros n p. eexists. reflexivity.
  - intros n p r d [= <-].
    assert (Hreply : parse_response Json.loads ("{" +:+ quoted "zzz" +:+ ": null}")
                     = Some {[ "zzz" := PyNone ]}) by (vm_compute; reflexivity).
    rewrite Hreply. intros [= <-] k v Hk.
    apply lookup_singleton_Some in Hk as [_ <-]. reflexivity.
Qed.

End PipelineFacts.

(** C5. The mapping that [process_dataset] applies is the union of its
    three tiers taken in the order cached, fuzzy, resolver, a later tier
    winning on a shared key; on the mappings cached = {a: x},
    fuzzy = {a: y, b: y}, resolver = {b: z} the union is exactly
    {a: y, b: z}.  In [process_dataset] the three tiers are the entries of
    the cached mapping for the source names, the fuzzy matches of the
    names not found there, and the mapping that [get_name_mapping] returns
    for the names still unmatched (the empty mapping when there is none):
    the mapping returned is their union, and it is returned on every
    regular input. *)
Theorem combine_mappings_precedence :
  (forall (cached : dict) (fuzzy : gmap string string) (resolver : dict) (k : string),
     combine_mappings cached fuzzy resolver !! k =
     match resolver !! k with
     | Some v => Some v
     | None =>
         match fuzzy !! k with
         | Some b => Some (PyStr b)
         | None => cached !! k
         end
     end)
  /\ combine_mappings {[ "a" := PyStr "x" ]}
                      {[ "a" := "y"; "b" := "y" ]}
                      {[ "b" := PyStr "z" ]}
     = {[ "a" := PyStr "y"; "b" := PyStr "z" ]}
  /\ (forall (ratio : string -> string -> Q) (json_loads : string -> option dict)
             (ollama : nat -> prompt -> option string)
             (merge_refuses : dict -> list string -> list string -> option exn)
             (csv_df : list csv_row) (excel_df : list excel_row)
             (cached_mapping : option dict) (log : list prompt),
        let csv_names := csv_names_of (drop_test_schools csv_df) in
        let excel_names := excel_names_of excel_df in
        let cached_matches := cached_matches_of cached_mapping csv_names in
        let unmatched_names :=
          filter (fun name => bool_decide (cached_matches !! name = None)) csv_names in
        let fuzzy_matches :=
          fuzzy_match_schools ratio unmatched_names excel_names default_threshold in
        let still_unmatched :=
          filter (fun name => bool_decide (fuzzy_matches !! name = None))
                 unmatched_names in
        (regular_inputs json_loads ollama csv_df excel_df cached_mapping ->
         exists merged final_mapping log',
           process_dataset ratio json_loads ollama merge_refuses csv_df excel_df
                           cached_mapping log
           = (Ok (merged, final_mapping), log'))
        /\ forall merged final_mapping log',
             process_dataset ratio json_loads ollama merge_refuses csv_df excel_df
                             cached_mapping log
               = (Ok (merged, final_mapping), log') ->
             exists ollama_mapping,
               match still_unmatched with
               | [] => ollama_mapping = ∅ /\ log' = log
               | _ :: _ =>
                   get_name_mapping json_loads ollama excel_names still_unmatched
                                    default_batch_size log
                   = (Ok ollama_mapping, log')
               end
               /\ final_mapping
                  = combine_mappings cached_matches fuzzy_matches ollama_mapping).
Proof.
  assert (Hlookup : forall cached fuzzy resolver k,
    combine_mappings cached fuzzy resolver !! k =
    match resolver !! k with
    | Some v => Some v
    | None => match fuzzy !! k with Some b => Some (PyStr b) | None => cached !! k end
    end).
  { intros cached fuzzy resolver k. unfold combine_mappings.
    rewrite !lookup_dict_update, lookup_fmap, lookup_empty.
    destruct (resolver !! k); [reflexivity|].
    destruct (fuzzy !! k); cbn; [reflexivity|].
    destruct (cached !! k); reflexivity. }
  split; [exact Hlookup|]. split.
  - apply map_eq. intros k. rewrite Hlookup.
    destruct (decide (k = "b")) as [->|Hb]; [reflexivity|].
    destruct (decide (k = "a")) as [->|Ha]; [reflexivity|].
    repeat first [ rewrite lookup_insert_ne by congruence
                 | rewrite lookup_singleton_ne by congruence ].
    reflexivity.
  - intros ratio json_loads ollama merge_refuses csv_df excel_df cached_mapping log.
    cbn zeta. split.
    + intros Hregular.
      destruct (PipelineFacts.process_dataset_returns ratio json_loads ollama
                  merge_refuses csv_df excel_df cached_mapping log Hregular)
        as (fm & log' & Hrun).
      eauto.
    + intros merged fm log' Hrun.
      apply PipelineFacts.process_dataset_Ok in Hrun as (_ & _ & Hresolve & _).
      revert Hresolve. unfold resolve_names, mbind, M_bind.
      destruct (filter _ (filter _ (csv_names_of (drop_test_schools csv_df))))
        as [|name still].
      * cbn [mret M_ret]. intros [= <- <-]. exists ∅. auto.
      * destruct (get_name_mapping json_loads ollama (excel_names_of excel_df)
                    (name :: still) default_batch_size log) as [[m|e] log1];
          cbn [mret M_ret]; [|discriminate].
        intros [= <- <-]. exists m. auto.
Qed.

Lemma combine_mappings_precedence_witness :
  exists ollama_mapping,
    ({[ "aldrin es" := PyStr "aldrin es" ]} : dict)
    = combine_mappings
        (cached_matches_of None (csv_names_of (drop_test_schools scenario_csv)))
        (fuzzy_match_schools SequenceMatcher.ratio
           (filter (fun name => bool_decide
                      (cached_matches_of None
                         (csv_names_of (drop_test_schools scenario_csv)) !! name = None))
                   (csv_names_of (drop_test_schools scenario_csv)))
           (excel_names_of scenario_excel) default_threshold)
        ollama_mapping.
Proof.
  destruct combine_mappings_precedence as (_ & _ & Hrun).
  destruct (Hrun SequenceMatcher.ratio Json.loads null_ollama never_refuses
              scenario_csv scenario_excel None []) as [_ Hreturned].
  destruct (Hreturned
              [ (CsvRec (CsvRow (Some "Aldrin Elementary School") [("Meals", "120")])
                        (Some "Aldrin Elementary School") "aldrin es"
                        (PyStr "aldrin es"),
                 Some (ExcelRec (ExcelRow (Some "Aldrin ES") [("Region", "1")])
                                (Some "Aldrin ES") "aldrin es")) ]
              {[ "aldrin es" := PyStr "aldrin es" ]} [])
    as (ollama_mapping & _ & Hfinal).
  - vm_compute. reflexivity.
  - exists ollama_mapping. exact Hfinal.
Defined.




(** C8, as the code has it.  Whenever [process_dataset] returns, as it does
    on every regular input, [Mapped_Normalized_Name] of a source row in the
    merged table is the value of the final mapping at the row's normalized
    name when that name is a key whose value is not null, and the
    normalized name itself when it is no key or its value is null.  A
    retained source row whose mapped key is the normalized name of no
    roster row appears in the merged table with null roster columns, and a
    merged row has null roster columns only in that case. *)
Theorem process_dataset_mapped_name
    (ratio : string -> string -> Q) (json_loads : string -> option dict)
    (ollama : nat -> prompt -> option string)
    (merge_refuses : dict -> list string -> list string -> option exn)
    (csv_df : list csv_row) (excel_df : list excel_row)
    (cached_mapping : option dict) (log : list prompt) :
  (regular_inputs json_loads ollama csv_df excel_df cached_mapping ->
   exists merged final_mapping log',
     process_dataset ratio json_loads ollama merge_refuses csv_df excel_df
                     cached_mapping log
     = (Ok (merged, final_mapping), log'))
  /\ forall merged final_mapping log',
       process_dataset ratio json_loads ollama merge_refuses csv_df excel_df
                       cached_mapping log
         = (Ok (merged, final_mapping), log') ->
       (forall m, m ∈ merged ->
          csv_Normalized_School_Name (fst m) = csv_normalized (csv_source (fst m))
          /\ match final_mapping !! csv_Normalized_School_Name (fst m) with
             | Some PyNone | None =>
                 Mapped_Normalized_Name (fst m)
                 = PyStr (csv_Normalized_School_Name (fst m))
             | Some v => Mapped_Normalized_Name (fst m) = v
             end)
       /\ (forall r, r ∈ csv_df -> isin (csv_School_Name r) test_schools = false ->
             (forall x, x ∈ excel_df ->
                PyStr (excel_normalized x)
                <> Mapped_Normalized_Name (prepare_csv final_mapping r)) ->
             (prepare_csv final_mapping r, None) ∈ merged)
       /\ (forall m, m ∈ merged ->
             snd m = None <->
             forall x, x ∈ excel_df ->
               PyStr (excel_normalized x) <> Mapped_Normalized_Name (fst m)).
Proof.
  split.
  - intros Hregular.
    destruct (PipelineFacts.process_dataset_returns ratio json_loads ollama
                merge_refuses csv_df excel_df cached_mapping log Hregular)
      as (fm & log' & Hrun).
    eauto.
  - intros merged fm log' Hrun.
    apply PipelineFacts.process_dataset_Ok in Hrun as (_ & _ & _ & ->).
    assert (Hroster : forall l,
              hits (prepare_excel <$> excel_df) l = [] <->
              forall x, x ∈ excel_df ->
                PyStr (excel_normalized x) <> Mapped_Normalized_Name l).
    { intros l. rewrite MergeFacts.hits_nil. split.
      - intros H x Hx. apply (H (prepare_excel x)). apply list_elem_of_fmap_2. exact Hx.
      - intros H r Hr. apply list_elem_of_fmap in Hr as (x & -> & Hx). exact (H x Hx). }
    split; [|split].
    + intros m Hm. apply MergeFacts.elem_of_merge_left in Hm as (l & Hl & Hm).
      apply MergeFacts.elem_of_join_row in Hm as [-> _].
      apply list_elem_of_fmap in Hl as (r & -> & _).
      split; [reflexivity|]. unfold prepare_csv, map_cell, fillna.
      cbn [csv_Normalized_School_Name Mapped_Normalized_Name].
      destruct (fm !! csv_normalized r) as [[|v|text]|]; reflexivity.
    + intros r Hr Hkeep Hnone.
      apply MergeFacts.elem_of_merge_left. exists (prepare_csv fm r). split.
      * apply list_elem_of_fmap_2. apply PipelineFacts.elem_of_drop_test_schools. auto.
      * apply MergeFacts.elem_of_join_row. cbn [fst snd]. split; [reflexivity|].
        apply Hroster. exact Hnone.
    + intros m Hm. apply MergeFacts.elem_of_merge_left in Hm as (l & _ & Hm).
      apply MergeFacts.elem_of_join_row in Hm as [<- Hm]. rewrite <- Hroster.
      destruct (snd m) as [r|]; [|tauto].
      split; [discriminate|]. intros Hnil. rewrite Hnil in Hm.
      apply not_elem_of_nil in Hm. contradiction.
Qed.

Lemma process_dataset_mapped_name_witness :
  exists merged final_mapping log',
    process_dataset SequenceMatcher.ratio Json.loads null_ollama never_refuses
                    scenario_csv scenario_excel None []
      = (Ok (merged, final_mapping), log')
    /\ forall m, m ∈ merged ->
         match final_mapping !! csv_Normalized_School_Name (fst m) with
         | Some PyNone | None =>
             Mapped_Normalized_Name (fst m) = PyStr (csv_Normalized_School_Name (fst m))
         | Some v => Mapped_Normalized_Name (fst m) = v
         end.
Proof.
  destruct (process_dataset_mapped_name SequenceMatcher.ratio Json.loads null_ollama
              never_refuses scenario_csv scenario_excel None [])
    as [Hreturns Hrows].
  destruct (Hreturns PipelineFacts.scenario_regular) as (merged & fm & log' & Hrun).
  exists merged, fm, log'. split; [exact Hrun|].
  destruct (Hrows merged fm log' Hrun) as (Hmapped & _).
  intros m Hm. apply (Hmapped m Hm).
Defined.

(** C8 as stated fails on a key whose value is null: [fillna] puts the
    normalized name in place of the null. *)
Lemma process_dataset_null_value_replaced :
  ~ (forall (ratio : string -> string -> Q) (json_loads : string -> option dict)
            (ollama : nat -> prompt -> option string)
            (merge_refuses : dict -> list string -> list string -> option exn)
            (csv_df : list csv_row) (excel_df : list excel_row)
            (cached_mapping : option dict) (log : list prompt)
            (merged : list merged_row) (final_mapping : dict) (log' : list prompt)
            (m : merged_row) (v : pyval),
       process_dataset ratio json_loads ollama merge_refuses csv_df excel_df
                       cached_mapping log
         = (Ok (merged, final_mapping), log') ->
       m ∈ merged ->
       final_mapping !! csv_Normalized_School_Name (fst m) = Some v ->
       Mapped_Normalized_Name (fst m) = v).
Proof.
  intros H.
  destruct (process_dataset SequenceMatcher.ratio Json.loads null_ollama never_refuses
              unknown_csv scenario_excel None [])
    as [[[merged fm]|e] log'] eqn:Hrun; [|vm_compute in Hrun; discriminate Hrun].
  pose proof (H _ _ _ _ _ _ _ _ _ _ _
                (CsvRec (CsvRow (Some "zzz") []) (Some "zzz") "zzz" (PyStr "zzz"), None)
                PyNone Hrun) as Hclaim.
  vm_compute in Hrun. injection Hrun as <- <- _.
  assert (Hv : PyStr "zzz" = PyNone).
  { apply Hclaim.
    - apply elem_of_cons. left. reflexivity.
    - vm_compute. reflexivity. }
  discriminate Hv.
Qed.

(** C9. [process_dataset] removes, on the raw [School_Name] and before any
    name is normalized, exactly the rows whose name is a member of the
    placeholder list: whenever it returns, as it does on every regular
    input, no merged row comes from such a row, every merged row comes
    from a source row, and every other source row is the source of a
    merged row. *)
Theorem process_dataset_drops_test_schools
    (ratio : string -> string -> Q) (json_loads : string -> option dict)
    (ollama : nat -> prompt -> option string)
    (merge_refuses : dict -> list string -> list string -> option exn)
    (csv_df : list csv_row) (excel_df : list excel_row)
    (cached_mapping : option dict) (log : list prompt) :
  test_schools = [ "Test Site Elementary School"; "Test Site Elementary";
                   "test site elementary school" ]
  /\ (regular_inputs json_loads ollama csv_df excel_df cached_mapping ->
      exists merged final_mapping log',
        process_dataset ratio json_loads ollama merge_refuses csv_df excel_df
                        cached_mapping log
        = (Ok (merged, final_mapping), log'))
  /\ forall merged final_mapping log',
       process_dataset ratio json_loads ollama merge_refuses csv_df excel_df
                       cached_mapping log
         = (Ok (merged, final_mapping), log') ->
       (forall m, m ∈ merged ->
          csv_source (fst m) ∈ csv_df
          /\ forall name, csv_School_Name (csv_source (fst m)) = Some name ->
               ~ (name ∈ test_schools))
       /\ (forall r, r ∈ csv_df ->
             (forall name, csv_School_Name r = Some name -> ~ (name ∈ test_schools)) ->
             exists m, m ∈ merged /\ csv_source (fst m) = r).
Proof.
  split; [reflexivity|]. split.
  - intros Hregular.
    destruct (PipelineFacts.process_dataset_returns ratio json_loads ollama
                merge_refuses csv_df excel_df cached_mapping log Hregular)
      as (fm & log' & Hrun).
    eauto.
  - intros merged fm log' Hrun.
    apply PipelineFacts.process_dataset_Ok in Hrun as (_ & _ & _ & ->).
    assert (Hisin : forall r,
              isin (csv_School_Name r) test_schools = false <->
              forall name, csv_School_Name r = Some name -> ~ (name ∈ test_schools)).
    { intros r. unfold isin. destruct (csv_School_Name r) as [name|].
      - rewrite bool_decide_eq_false. split.
        + intros Hn name' [= <-]. exact Hn.
        + intros Hn. apply Hn. reflexivity.
      - split; [intros _ name; discriminate | reflexivity]. }
    split.
    + intros m Hm. apply MergeFacts.elem_of_merge_left in Hm as (l & Hl & Hm).
      apply MergeFacts.elem_of_join_row in Hm as [-> _].
      apply list_elem_of_fmap in Hl as (r & -> & Hr).
      apply PipelineFacts.elem_of_drop_test_schools in Hr as [Hr Hkeep].
      cbn [prepare_csv csv_source]. split; [exact Hr|]. apply Hisin. exact Hkeep.
    + intros r Hr Hkeep.
      destruct (MergeFacts.merge_left_keeps
                  (prepare_csv fm <$> drop_test_schools csv_df)
                  (prepare_excel <$> excel_df) (prepare_csv fm r)) as (m & Hm & Hfst).
      * apply list_elem_of_fmap_2. apply PipelineFacts.elem_of_drop_test_schools.
        split; [exact Hr|]. apply Hisin. exact Hkeep.
      * exists m. split; [exact Hm|]. rewrite Hfst. reflexivity.
Qed.

Lemma process_dataset_drops_test_schools_witness :
  exists merged final_mapping log',
    process_dataset SequenceMatcher.ratio Json.loads null_ollama never_refuses
                    scenario_csv scenario_excel None []
      = (Ok (merged, final_mapping), log')
    /\ forall m, m ∈ merged ->
         csv_School_Name (csv_source (fst m)) <> Some "Test Site Elementary School".
Proof.
  destruct (process_dataset_drops_test_schools SequenceMatcher.ratio Json.loads
              null_ollama never_refuses scenario_csv scenario_excel None [])
    as (_ & Hreturns & Hrows).
  destruct (Hreturns PipelineFacts.scenario_regular) as (merged & fm & log' & Hrun).
  exists merged, fm, log'. split; [exact Hrun|].
  destruct (Hrows merged fm log' Hrun) as [Hgone _].
  intros m Hm Hname. destruct (Hgone m Hm) as [_ Hnot].
  apply (Hnot _ Hname). apply elem_of_cons. left. reflexivity.
Defined.

(** The end-to-end scenario of the specification: the placeholder row is
    gone, "Aldrin Elementary School" is keyed "aldrin es", matched by the
    fuzzy tier and joined to the roster row "Aldrin ES"; no request is sent. *)
Example end_to_end_scenario :
  process_dataset SequenceMatcher.ratio Json.loads null_ollama never_refuses
                  scenario_csv scenario_excel None []
  = (Ok ([ (CsvRec (CsvRow (Some "Aldrin Elementary School") [("Meals", "120")])
                   (Some "Aldrin Elementary School") "aldrin es" (PyStr "aldrin es"),
            Some (ExcelRec (ExcelRow (Some "Aldrin ES") [("Region", "1")])
                           (Some "Aldrin ES") "aldrin es")) ],
         {[ "aldrin es" := PyStr "aldrin es" ]}), []).
Proof. vm_compute. reflexivity. Qed.

(** The ways in which [process_dataset] raises on tables that it has read.
    On a source table without a name pandas refuses the accessor before
    any request is sent. *)
Example nameless_table_is_refused :
  process_dataset SequenceMatcher.ratio Json.loads null_ollama never_refuses
                  nameless_csv scenario_excel None []
  = (Raise AttributeError, []).
Proof. vm_compute. reflexivity. Qed.

(** A reply that gives a number for a name makes the number the join key
    of its rows: pandas then refuses the merge, or carries it out and
    joins these rows to nothing. *)
Example number_reply_refused :
  process_dataset SequenceMatcher.ratio Json.loads number_ollama always_refuses
                  unknown_csv scenario_excel None []
  = (Raise (ValueError "You are trying to merge on int64 and object columns"),
     [Prompt ["aldrin es"] ["zzz"]]).
Proof. vm_compute. reflexivity. Qed.

Example number_reply_kept :
  process_dataset SequenceMatcher.ratio Json.loads number_ollama never_refuses
                  unknown_csv scenario_excel None []
  = (Ok ([ (CsvRec (CsvRow (Some "zzz") []) (Some "zzz") "zzz" (PyOther "5"), None) ],
         {[ "zzz" := PyOther "5" ]}),
     [Prompt ["aldrin es"] ["zzz"]]).
Proof. vm_compute. reflexivity. Qed.

(** On a source table with a column "School Name" the merged table is
    saved, and the report raises. *)
Example labelled_table_is_saved :
  merge_dataset SequenceMatcher.ratio Json.loads null_ollama never_refuses
                labelled_csv scenario_excel None []
  = (Ok ([ (CsvRec (CsvRow (Some "Aldrin Elementary School") [("School Name", "Aldrin")])
                   (Some "Aldrin Elementary School") "aldrin es" (PyStr "aldrin es"),
            Some (ExcelRec (ExcelRow (Some "Aldrin ES") [("Region", "1")])
                           (Some "Aldrin ES") "aldrin es")) ],
         {[ "aldrin es" := PyStr "aldrin es" ]}), [])
  /\ process_dataset SequenceMatcher.ratio Json.loads null_ollama never_refuses
                     labelled_csv scenario_excel None []
     = (Raise (KeyError "School Name"), []).
Proof. split; vm_compute; reflexivity. Qed.

(** * Further properties of the code *)

Module NormalizeMore.
Import Text TextFacts NormalizeFacts.

Lemma chars_app s t : chars (s +:+ t) = chars s ++ chars t.
Proof.
  induction s as [|c s IH]; [reflexivity|].
  change (String c s +:+ t) with (String c (s +:+ t)).
  cbn [list_ascii_of_string app]. rewrite IH. reflexivity.
Qed.

Lemma str_app s t : str (s ++ t) = str s +:+ str t.
Proof.
  induction s as [|c s IH]; [reflexivity|].
  cbn [app string_of_list_ascii]. rewrite IH. reflexivity.
Qed.

Lemma isspace_lower c : isspace (lower_char c) = isspace c.
Proof. destruct c as [[] [] [] [] [] [] [] []]; vm_compute; reflexivity. Qed.

Lemma lower_nonword c : isword c = false -> lower_char c = c.
Proof. destruct c as [[] [] [] [] [] [] [] []]; vm_compute; intros; congruence. Qed.

Lemma word_not_space c : isword c = true -> isspace c = false.
Proof. destruct c as [[] [] [] [] [] [] [] []]; vm_compute; intros; congruence. Qed.

Lemma letter_word c : is_letter c = true -> isword c = true.
Proof. destruct c as [[] [] [] [] [] [] [] []]; vm_compute; intros; congruence. Qed.

Lemma lower_letter c : is_letter c = true -> is_letter (lower_char c) = true.
Proof. destruct c as [[] [] [] [] [] [] [] []]; vm_compute; intros; congruence. Qed.

Lemma lstrip_lower s : lstrip (lower s) = lower (lstrip s).
Proof.
  induction s as [|c s IH]; [reflexivity|]. cbn [lower map lstrip].
  rewrite isspace_lower. destruct (isspace c); [exact IH | reflexivity].
Qed.

Lemma lower_rev s : lower (rev s) = rev (lower s).
Proof. unfold lower. apply map_rev. Qed.

Lemma strip_lower s : strip (lower s) = lower (strip s).
Proof.
  unfold strip, rstrip. rewrite lstrip_lower, <- lower_rev, lstrip_lower, lower_rev.
  reflexivity.
Qed.

Lemma lower_idem s : lower (lower s) = lower s.
Proof.
  unfold lower. rewrite map_map. apply map_ext. intros c. apply lower_char_fixed.
Qed.

Lemma normalize_chars_strip s : normalize_chars (strip s) = normalize_chars s.
Proof. unfold normalize_chars. rewrite <- strip_lower, strip_idem. reflexivity. Qed.

Lemma normalize_chars_lower s : normalize_chars (lower s) = normalize_chars s.
Proof. unfold normalize_chars. rewrite lower_idem. reflexivity. Qed.

(** *** Names without a word character *)

Lemma starts_with_elem old s c :
  starts_with old s = true -> c ∈ old -> c ∈ s.
Proof.
  revert s. induction old as [|a old IH]; intros s Hs Hc.
  - apply not_elem_of_nil in Hc. contradiction.
  - destruct s as [|b s]; [discriminate Hs|]. cbn [starts_with] in Hs.
    apply andb_true_iff in Hs as [Hab Hs]. apply bool_decide_eq_true in Hab. subst b.
    apply elem_of_cons in Hc as [->|Hc]; apply elem_of_cons; [left; reflexivity|].
    right. apply (IH s Hs Hc).
Qed.

Lemma contains_elem old s c : contains old s = true -> c ∈ old -> c ∈ s.
Proof.
  induction s as [|b s IH]; cbn [contains]; intros Hs Hc.
  - rewrite orb_false_r in Hs. apply (starts_with_elem old [] c Hs Hc).
  - apply orb_true_iff in Hs as [Hs|Hs]; [apply (starts_with_elem old _ c Hs Hc)|].
    apply elem_of_cons. right. apply (IH Hs Hc).
Qed.

Lemma replacements_have_letters :
  forallb (fun r : string * string => existsb isword (chars (fst r))) replacements = true.
Proof. vm_compute. reflexivity. Qed.

Lemma apply_replacements_nonword s :
  Forall (fun c => isword c = false) s -> apply_replacements replacements s = s.
Proof.
  intros Hs. apply apply_replacements_absent.
  pose proof replacements_have_letters as Hrep. rewrite forallb_forall in Hrep.
  apply forallb_forall. intros [old new] Hin. specialize (Hrep _ Hin). cbn [fst] in Hrep.
  apply negb_true_iff. destruct (contains (chars old) s) eqn:Hc; [|reflexivity].
  exfalso. apply existsb_exists in Hrep as (c & Hc1 & Hc2).
  apply list_elem_of_In in Hc1. pose proof (contains_elem _ _ c Hc Hc1) as Hcs.
  rewrite list.Forall_forall in Hs. specialize (Hs c Hcs). congruence.
Qed.

Lemma lstrip_spaces s : Forall (fun c => isspace c = true) s -> lstrip s = [].
Proof. induction 1 as [|c s Hc Hs IH]; [reflexivity|]. cbn [lstrip]. rewrite Hc. exact IH. Qed.

Lemma strip_spaces s : Forall (fun c => isspace c = true) s -> strip s = [].
Proof. intros Hs. unfold strip, rstrip. rewrite (lstrip_spaces s Hs). reflexivity. Qed.

Lemma remove_punctuation_nonword s :
  Forall (fun c => isword c = false) s ->
  Forall (fun c => isspace c = true) (remove_punctuation s).
Proof.
  intros Hs. unfold remove_punctuation. rewrite list.Forall_forall in *. intros c Hc.
  apply list_elem_of_filter in Hc as [Hkeep Hc]. specialize (Hs c Hc).
  apply Is_true_true in Hkeep. rewrite Hs in Hkeep. exact Hkeep.
Qed.

Lemma normalize_chars_nonword s :
  Forall (fun c => isword c = false) s -> normalize_chars s = [].
Proof.
  intros Hs. unfold normalize_chars.
  assert (Hlow : lower s = s).
  { apply lower_fixed_id. eapply Forall_impl; [exact Hs|]. intros c. apply lower_nonword. }
  rewrite Hlow, apply_replacements_nonword by (apply strip_Forall, Hs).
  apply strip_spaces. apply collapse_from_Forall; [reflexivity|].
  apply remove_punctuation_nonword, strip_Forall, Hs.
Qed.

(** *** A first word followed by a tail *)

Lemma lstrip_app_nonspace x y :
  (forall c, head y = Some c -> isspace c = false) -> lstrip (x ++ y) = lstrip x ++ y.
Proof.
  intros Hy. induction x as [|c x IH]; cbn [app lstrip].
  - apply lstrip_head. exact Hy.
  - destruct (isspace c); [exact IH | reflexivity].
Qed.

Lemma rstrip_app_nonspace x y :
  Forall (fun c => isspace c = false) x -> rstrip (x ++ y) = x ++ rstrip y.
Proof.
  intros Hx. unfold rstrip. rewrite rev_app_distr, lstrip_app_nonspace.
  - rewrite rev_app_distr, rev_involutive. reflexivity.
  - intros c Hc. apply head_Some_elem_of in Hc. apply list_elem_of_In, in_rev in Hc.
    rewrite List.Forall_forall in Hx. apply Hx, Hc.
Qed.

Lemma replace_from_word old new w t :
  head old = Some " "%char -> Forall (fun c => isspace c = false) w ->
  replace_from old new 0 (w ++ t) = w ++ replace_from old new 0 t.
Proof.
  intros Hold Hw. induction Hw as [|c w Hc Hw IH]; [reflexivity|].
  cbn [app replace_from].
  destruct old as [|o old]; [discriminate Hold|]. injection Hold as ->.
  cbn [starts_with]. rewrite bool_decide_eq_false_2.
  - cbn [andb]. rewrite IH. reflexivity.
  - intros <-. discriminate Hc.
Qed.

Lemma replacements_start_with_space :
  Forall (fun r : string * string => head (chars (fst r)) = Some " "%char) replacements.
Proof. repeat constructor. Qed.

Lemma apply_replacements_word reps w : forall t,
  Forall (fun r : string * string => head (chars (fst r)) = Some " "%char) reps ->
  Forall (fun c => isspace c = false) w ->
  apply_replacements reps (w ++ t) = w ++ apply_replacements reps t.
Proof.
  unfold apply_replacements. induction reps as [|[old new] reps IH]; intros t Hreps Hw;
    [reflexivity|].
  apply Forall_cons in Hreps as [Hold Hreps]. cbn [fst] in Hold. cbn [fold_left].
  unfold replace at 2 4. destruct (chars old) as [|o old'] eqn:Ho; [discriminate Hold|].
  rewrite (replace_from_word (o :: old') (chars new) w t Hold Hw).
  apply IH; assumption.
Qed.

Lemma remove_punctuation_word w t :
  Forall (fun c => isword c = true) w ->
  remove_punctuation (w ++ t) = w ++ remove_punctuation t.
Proof.
  intros Hw. unfold remove_punctuation. rewrite filter_app. f_equal.
  apply remove_punctuation_id. eapply Forall_impl; [exact Hw|].
  intros c Hc. cbn. rewrite Hc. reflexivity.
Qed.

Lemma collapse_word w t :
  Forall (fun c => isspace c = false) w ->
  w <> [] -> collapse_from false (w ++ t) = w ++ collapse_from false t.
Proof.
  intros Hw. assert (Hgen : forall r, w <> [] -> collapse_from r (w ++ t)
                                      = w ++ collapse_from false t).
  { induction Hw as [|c w Hc Hw IH]; intros r Hne; [congruence|].
    cbn [app collapse_from]. rewrite Hc. f_equal.
    destruct w as [|d w]; [reflexivity|]. apply IH. discriminate. }
  apply Hgen.
Qed.

(** A first word made of letters is only put in lower case; what follows
    it is normalized on its own. *)
Lemma normalize_chars_word w tail :
  w <> [] -> Forall (fun c => is_letter c = true) w ->
  normalize_chars (w ++ tail) = lower w ++ normalize_tail tail.
Proof.
  intros Hne Hw.
  assert (Hlw : Forall (fun c => is_letter c = true) (lower w)).
  { unfold lower. apply Forall_map. eapply Forall_impl; [exact Hw|].
    intros c. apply lower_letter. }
  assert (Hword : Forall (fun c => isword c = true) (lower w)).
  { eapply Forall_impl; [exact Hlw|]. intros c. apply letter_word. }
  assert (Hns : Forall (fun c => isspace c = false) (lower w)).
  { eapply Forall_impl; [exact Hword|]. intros c. apply word_not_space. }
  assert (Hne' : lower w <> []) by (destruct w; [congruence | discriminate]).
  unfold normalize_chars, normalize_tail, collapse_whitespace, strip.
  unfold lower at 1. rewrite map_app. fold (lower w) (lower tail).
  assert (Hl : forall t, lstrip (lower w ++ t) = lower w ++ t).
  { intros t. apply lstrip_head. intros c Hc. destruct (lower w) as [|d lw] eqn:Hd;
      [congruence|]. injection Hc as <-. apply Forall_cons in Hns as [Hd' _]. exact Hd'. }
  rewrite Hl, rstrip_app_nonspace by exact Hns.
  rewrite apply_replacements_word by (exact replacements_start_with_space || exact Hns).
  rewrite remove_punctuation_word by exact Hword.
  rewrite collapse_word by assumption.
  rewrite Hl, rstrip_app_nonspace by exact Hns. reflexivity.
Qed.

End NormalizeMore.

(** X1. [normalize_school_name] always returns a clean key: lower-casing
    the key, trimming it, removing punctuation from it and collapsing its
    whitespace each leave it as it is, for every name and for a missing
    one. *)
Theorem normalize_result_is_clean (x : option string) :
  let key := chars (normalize_school_name x) in
  Text.lower key = key /\ Text.strip key = key
  /\ Text.remove_punctuation key = key /\ Text.collapse_whitespace key = key.
Proof.
  destruct x as [s|]; [|repeat split].
  cbn [normalize_school_name]. rewrite list_ascii_of_string_of_list_ascii.
  destruct (NormalizeFacts.normalize_chars_shape (chars s)) as (Hlow & Hword & Hcol & Hstrip).
  repeat split.
  - apply NormalizeFacts.lower_fixed_id, Hlow.
  - exact Hstrip.
  - apply NormalizeFacts.remove_punctuation_id, Hword.
  - apply NormalizeFacts.collapse_from_id, Hcol.
Qed.

(** X2. The key of a name does not depend on the whitespace around it nor
    on the case of its letters: normalizing the trimmed name, or the
    lower-cased name, gives the key of the name itself.  So for a cell that
    holds a string, the [.str.strip()] that [process_dataset] applies first
    changes nothing: [Normalized_School_Name] is the key of the raw
    name. *)
Theorem normalize_ignores_case_and_padding :
  (forall s, normalize_school_name (Some (str (Text.strip (chars s))))
             = normalize_school_name (Some s))
  /\ (forall s, normalize_school_name (Some (str (Text.lower (chars s))))
                = normalize_school_name (Some s))
  /\ (forall r s, csv_School_Name r = Some s ->
                  csv_normalized r = normalize_school_name (Some s))
  /\ (forall r s, excel_School_Name r = Some s ->
                  excel_normalized r = normalize_school_name (Some s)).
Proof.
  assert (Hstrip : forall s,
            normalize_school_name (Some (str (Text.strip (chars s))))
            = normalize_school_name (Some s)).
  { intros s. cbn [normalize_school_name].
    rewrite list_ascii_of_string_of_list_ascii, NormalizeMore.normalize_chars_strip.
    reflexivity. }
  repeat split.
  - exact Hstrip.
  - intros s. cbn [normalize_school_name]. rewrite list_ascii_of_string_of_list_ascii,
      NormalizeMore.normalize_chars_lower. reflexivity.
  - intros r s Hcell. unfold csv_normalized, csv_original. rewrite Hcell. apply Hstrip.
  - intros r s Hcell. unfold excel_normalized, excel_original. rewrite Hcell.
    apply Hstrip.
Qed.

(** X3. A name without any word character (letter, digit or underscore)
    gets the key of a missing name, the empty string. *)
Theorem normalize_without_word_characters (s : string) :
  forallb (fun c => negb (Text.isword c)) (chars s) = true ->
  normalize_school_name (Some s) = normalize_school_name None.
Proof.
  intros Hs. cbn [normalize_school_name].
  rewrite NormalizeMore.normalize_chars_nonword; [reflexivity|].
  apply List.Forall_forall. rewrite forallb_forall in Hs. intros c Hc.
  apply negb_true_iff, Hs, Hc.
Qed.

Lemma normalize_without_word_characters_witness :
  normalize_school_name (Some " -- (?) ") = normalize_school_name None.
Proof. apply normalize_without_word_characters. vm_compute. reflexivity. Defined.

(** X4. The school-type suffixes, for a name that is one word [w] of
    ASCII letters followed by a suffix: "Elementary School", "Elementary"
    and "ES" all give the key [w] lower-cased followed by " es"; the
    "Middle" forms give " ms", the "High" forms " hs", "Center" and
    "Centre" give " ctr", and "School" alone is dropped. *)
Theorem normalize_school_type_suffixes (w : string) :
  w <> "" -> forallb is_letter (chars w) = true ->
  let key (suffix : string) := normalize_school_name (Some (w +:+ suffix)) in
  let lw := str (Text.lower (chars w)) in
  (key " Elementary School" = lw +:+ " es" /\ key " Elementary" = lw +:+ " es"
   /\ key " ES" = lw +:+ " es")
  /\ (key " Middle School" = lw +:+ " ms" /\ key " Middle" = lw +:+ " ms"
      /\ key " MS" = lw +:+ " ms")
  /\ (key " High School" = lw +:+ " hs" /\ key " High" = lw +:+ " hs"
      /\ key " HS" = lw +:+ " hs")
  /\ (key " Center" = lw +:+ " ctr" /\ key " Centre" = lw +:+ " ctr")
  /\ key " School" = lw.
Proof.
  intros Hne Hw key lw.
  assert (Hkey : forall suffix,
            key suffix = lw +:+ str (normalize_tail (chars suffix))).
  { intros suffix. subst key lw. cbn [normalize_school_name].
    rewrite NormalizeMore.chars_app, NormalizeMore.normalize_chars_word.
    - apply NormalizeMore.str_app.
    - destruct w; [congruence | discriminate].
    - apply List.Forall_forall. rewrite forallb_forall in Hw. exact Hw. }
  rewrite !Hkey. repeat split; try reflexivity.
  change (str (normalize_tail (chars " School"))) with "".
  clear. induction lw as [|c lw IH]; [reflexivity|].
  change (String c lw +:+ "") with (String c (lw +:+ "")). rewrite IH. reflexivity.
Qed.

Lemma normalize_school_type_suffixes_witness :
  normalize_school_name (Some ("Aldrin" +:+ " Elementary School"))
  = normalize_school_name (Some ("Aldrin" +:+ " ES")).
Proof.
  destruct (normalize_school_type_suffixes "Aldrin") as ((H1 & _ & H3) & _).
  - discriminate.
  - vm_compute. reflexivity.
  - rewrite H1, H3. reflexivity.
Defined.

Module ScanMore.

Lemma scan_step_Return st c : scan_step st c = Return -> c = "}"%char.
Proof.
  unfold scan_step.
  repeat match goal with
         | |- context [if ?b then _ else _] => destruct b eqn:?
         end; try discriminate.
  intros _. eapply bool_decide_eq_true_1; eassumption.
Qed.

Lemma scan_loop_closing rest : forall st i j,
  scan_loop st i rest = Some j ->
  exists k, j = (i + k)%nat /\ rest !! k = Some "}"%char.
Proof.
  induction rest as [|c rest IH]; intros st i j; cbn [scan_loop]; [discriminate|].
  destruct (scan_step st c) as [st'|] eqn:Hstep.
  - intros Hj. destruct (IH _ _ _ Hj) as (k & -> & Hk).
    exists (S k). split; [lia | exact Hk].
  - intros [= <-]. exists 0%nat. split; [lia|].
    apply scan_step_Return in Hstep. subst c. reflexivity.
Qed.

Lemma scan_loop_shift rest n : forall st i,
  scan_loop st (n + i) rest = (fun j => (n + j)%nat) <$> scan_loop st i rest.
Proof.
  induction rest as [|c rest IH]; intros st i; cbn [scan_loop]; [reflexivity|].
  destruct (scan_step st c) as [st'|]; [|reflexivity].
  rewrite <- IH. f_equal. lia.
Qed.

Lemma find_app_absent c p t :
  ~ (c ∈ p) -> Text.find c (p ++ t) = (fun j => (length p + j)%nat) <$> Text.find c t.
Proof.
  induction p as [|d p IH]; intros Hp; cbn [app Text.find length].
  - destruct (Text.find c t); reflexivity.
  - apply not_elem_of_cons in Hp as [Hd Hp].
    rewrite bool_decide_eq_false_2 by congruence.
    rewrite IH by exact Hp. destruct (Text.find c t); reflexivity.
Qed.

Lemma drop_app_add {A} (p t : list A) n : drop (length p + n) (p ++ t) = drop n t.
Proof. induction p as [|d p IH]; [reflexivity | exact IH]. Qed.

Lemma last_take_lookup {A} (l : list A) k x :
  l !! k = Some x -> last (take (S k) l) = Some x.
Proof.
  intros Hk. rewrite last_lookup, length_take.
  pose proof (lookup_lt_Some _ _ _ Hk) as Hlt.
  replace (Nat.pred (S k `min` length l)) with k by lia.
  rewrite lookup_take_lt by lia. exact Hk.
Qed.

Section WithLoads.
Variable json_loads : string -> option dict.

Lemma extract_ok_shape text s :
  extract_json_dict json_loads text = Ok s ->
  exists start k,
    Text.find "{"%char (chars text) = Some start
    /\ chars s = take (S (S k)) (drop start (chars text))
    /\ drop start (chars text) !! (S k) = Some "}"%char
    /\ is_Some (json_loads s).
Proof.
  unfold extract_json_dict.
  destruct (Text.find "{"%char (chars text)) as [start|] eqn:Hfind; [|discriminate].
  destruct (scan_loop scan_init start (drop start (chars text))) as [j|] eqn:Hloop;
    [|discriminate].
  destruct (json_loads _) as [d|] eqn:Hloads; [|discriminate].
  intros [= <-]. destruct (scan_loop_closing _ _ _ _ Hloop) as (k & -> & Hk).
  destruct k as [|k].
  { exfalso. apply ScanFacts.find_Some in Hfind as (pre & rest & Ht & _ & Hlen).
    rewrite Ht, <- Hlen, drop_app_length in Hk. discriminate Hk. }
  exists start, k. split; [reflexivity|]. split; [|split; [exact Hk|]].
  - rewrite list_ascii_of_string_of_list_ascii. unfold Text.slice.
    replace (start + S k + 1 - start)%nat with (S (S k)) by lia. reflexivity.
  - rewrite Hloads. eexists. reflexivity.
Qed.

End WithLoads.
End ScanMore.

(** X5. The text that [extract_json_dict] returns begins with an opening
    brace and ends with a closing brace, has at least two characters and is
    no longer than the text it was taken from. *)
Theorem extract_json_dict_result_shape
    (json_loads : string -> option dict) (text s : string) :
  extract_json_dict json_loads text = Ok s ->
  head (chars s) = Some "{"%char /\ last (chars s) = Some "}"%char
  /\ (2 <= String.length s)%nat /\ (String.length s <= String.length text)%nat.
Proof.
  intros Hok.
  destruct (ScanMore.extract_ok_shape json_loads text s Hok)
    as (start & k & Hfind & Hs & Hk & _).
  apply ScanFacts.find_Some in Hfind as (pre & rest & Ht & _ & Hlen).
  pose proof (lookup_lt_Some _ _ _ Hk) as Hlt.
  assert (Hlen_s : length (chars s) = S (S k)) by (rewrite Hs, length_take; lia).
  assert (Hslen : forall t : string, String.length t = length (chars t)).
  { intros t. induction t as [|c t IH]; [reflexivity|]. cbn. rewrite IH. reflexivity. }
  repeat split.
  - rewrite Hs, Ht, <- Hlen, drop_app_length. reflexivity.
  - rewrite Hs. apply ScanMore.last_take_lookup, Hk.
  - rewrite Hslen, Hlen_s. lia.
  - rewrite !Hslen, Hlen_s. rewrite length_drop in Hlt. lia.
Qed.

Lemma extract_json_dict_result_shape_witness :
  head (chars brace_object) = Some "{"%char /\ last (chars brace_object) = Some "}"%char
  /\ (2 <= String.length brace_object)%nat
  /\ (String.length brace_object <= String.length brace_reply)%nat.
Proof.
  apply (extract_json_dict_result_shape Json.loads brace_reply brace_object).
  vm_compute. reflexivity.
Defined.

(** X6. [extract_json_dict] ignores the text around the first object: a
    prose without an opening brace put in front of the text changes
    neither the result nor the error, and once an object has been
    returned, no text added after the reply changes it. *)
Theorem extract_json_dict_ignores_surrounding_text
    (json_loads : string -> option dict) :
  (forall prose text,
     ~ ("{"%char ∈ chars prose) ->
     extract_json_dict json_loads (prose +:+ text) = extract_json_dict json_loads text)
  /\ (forall text more s,
        extract_json_dict json_loads text = Ok s ->
        extract_json_dict json_loads (text +:+ more) = Ok s).
Proof.
  split.
  - intros prose text Hprose. unfold extract_json_dict.
    rewrite NormalizeMore.chars_app, ScanMore.find_app_absent by exact Hprose.
    destruct (Text.find "{"%char (chars text)) as [start|]; [|reflexivity].
    cbn [fmap option_fmap option_map].
    rewrite ScanMore.drop_app_add, ScanMore.scan_loop_shift.
    destruct (scan_loop scan_init start (drop start (chars text))) as [i|]; [|reflexivity].
    cbn [fmap option_fmap option_map]. unfold Text.slice.
    rewrite ScanMore.drop_app_add.
    replace (length (chars prose) + i + 1 - (length (chars prose) + start))%nat
      with (i + 1 - start)%nat by lia.
    reflexivity.
  - intros text more s Hok. apply ScanFacts.extract_ok_iff.
    apply ScanFacts.extract_ok_iff in Hok as (pre & post & Ht & Hrest).
    exists pre, (post ++ chars more). split; [|exact Hrest].
    rewrite NormalizeMore.chars_app, Ht, <- !app_assoc. reflexivity.
Qed.

(** X7. A text that has an opening brace and no closing brace at all
    makes [extract_json_dict] raise [ValueError("No valid JSON found.")]. *)
Theorem extract_json_dict_unclosed (json_loads : string -> option dict) (text : string) :
  "{"%char ∈ chars text -> ~ ("}"%char ∈ chars text) ->
  extract_json_dict json_loads text = Raise (ValueError "No valid JSON found.").
Proof.
  intros Hopen Hclose. unfold extract_json_dict.
  destruct (Text.find "{"%char (chars text)) as [start|] eqn:Hfind.
  - destruct (scan_loop scan_init start (drop start (chars text))) as [j|] eqn:Hloop;
      [|reflexivity].
    exfalso. destruct (ScanMore.scan_loop_closing _ _ _ _ Hloop) as (k & _ & Hk).
    apply Hclose. rewrite lookup_drop in Hk. apply list_elem_of_lookup_2 in Hk. exact Hk.
  - apply ScanFacts.find_None in Hfind. contradiction.
Qed.

Lemma extract_json_dict_unclosed_witness :
  extract_json_dict Json.loads "Here you go: {oops"
  = Raise (ValueError "No valid JSON found.").
Proof.
  apply extract_json_dict_unclosed.
  - apply (bool_decide_unpack _). vm_compute. exact I.
  - apply (bool_decide_unpack _). vm_compute. exact I.
Defined.

Module FuzzyMore.
Section WithRatio.
Variable ratio : string -> string -> Q.

Lemma choice_threshold t1 t2 excel_names s b :
  (t1 <= t2)%Q ->
  choice ratio t2 excel_names s = Some b -> choice ratio t1 excel_names s = Some b.
Proof.
  intros Ht. rewrite !FuzzyFacts.choice_Some. intros (Hb & Hmax & Hge & Hpos).
  repeat split; try assumption. lra.
Qed.

Lemma choice_elem threshold excel_names s b :
  choice ratio threshold excel_names s = Some b -> b ∈ excel_names.
Proof.
  rewrite FuzzyFacts.choice_Some. intros (_ & (i & Hi & _) & _).
  eapply list_elem_of_lookup_2, Hi.
Qed.

End WithRatio.
End FuzzyMore.

(** X8. The result of [fuzzy_match_schools] depends on the source names
    as a set only: two lists with the same members, in any order and with
    any repetitions, give the same matches. *)
Theorem fuzzy_match_schools_order_independent
    (ratio : string -> string -> Q) (csv_names csv_names' excel_names : list string)
    (threshold : Q) :
  (forall s, s ∈ csv_names <-> s ∈ csv_names') ->
  fuzzy_match_schools ratio csv_names excel_names threshold
  = fuzzy_match_schools ratio csv_names' excel_names threshold.
Proof.
  intros Hsame. apply map_eq. intros s. rewrite !FuzzyFacts.fuzzy_lookup.
  destruct (decide (s ∈ csv_names)) as [Hin|Hin], (decide (s ∈ csv_names')) as [Hin'|Hin'];
    try reflexivity; exfalso; apply Hsame in Hin || apply Hsame in Hin'; contradiction.
Qed.

Lemma fuzzy_match_schools_order_independent_witness :
  fuzzy_match_schools SequenceMatcher.ratio ["oakton hs"; "aldrin es"; "oakton hs"]
                      ["aldrin es"] default_threshold
  = fuzzy_match_schools SequenceMatcher.ratio ["aldrin es"; "oakton hs"]
                        ["aldrin es"] default_threshold.
Proof.
  apply fuzzy_match_schools_order_independent. intros s.
  rewrite !elem_of_cons, !elem_of_nil. tauto.
Defined.

(** X9. Raising the threshold of [fuzzy_match_schools] only removes
    matches: a match made at a threshold is made, with the same target
    name, at every lower threshold; its source name is one of the source
    names, its target name a non-empty one of the target names, and their
    ratio is at least the threshold. *)
Theorem fuzzy_match_schools_threshold_monotone
    (ratio : string -> string -> Q) (csv_names excel_names : list string)
    (low high : Q) (s b : string) :
  (low <= high)%Q ->
  fuzzy_match_schools ratio csv_names excel_names high !! s = Some b ->
  fuzzy_match_schools ratio csv_names excel_names low !! s = Some b
  /\ s ∈ csv_names /\ b ∈ excel_names /\ b <> ""
  /\ (high <= ratio s b)%Q.
Proof.
  intros Hle. rewrite !FuzzyFacts.fuzzy_lookup.
  destruct (decide (s ∈ csv_names)) as [Hin|Hin]; [|discriminate].
  intros Hchoice. split; [eapply FuzzyMore.choice_threshold; eassumption|].
  split; [exact Hin|]. split; [eapply FuzzyMore.choice_elem; eassumption|].
  apply FuzzyFacts.choice_Some in Hchoice as (Hb & _ & Hge & _). split; assumption.
Qed.

Lemma fuzzy_match_schools_threshold_monotone_witness :
  fuzzy_match_schools SequenceMatcher.ratio ["aldrin es"] ["aldrin es"] (5 # 10)%Q
    !! "aldrin es" = Some "aldrin es".
Proof.
  refine (proj1 (fuzzy_match_schools_threshold_monotone SequenceMatcher.ratio
            ["aldrin es"] ["aldrin es"] (5 # 10)%Q default_threshold
            "aldrin es" "aldrin es" _ _)).
  - vm_compute. discriminate.
  - vm_compute. reflexivity.
Defined.

Module ResolverMore.

Lemma first_failure_Some ollama prompts : forall n k,
  first_failure ollama n prompts = Some k <->
  (exists p, prompts !! k = Some p /\ ollama (n + k)%nat p = None)
  /\ (forall (j : nat) p, (j < k)%nat -> prompts !! j = Some p ->
        is_Some (ollama (n + j)%nat p)).
Proof.
  induction prompts as [|p prompts IH]; intros n k; cbn [first_failure].
  - split; [discriminate|]. intros [(p & Hp & _) _]. discriminate Hp.
  - destruct (ollama n p) as [r|] eqn:Hr.
    + destruct k as [|k].
      * split.
        -- destruct (first_failure ollama (S n) prompts); discriminate.
        -- intros [(p' & [= <-] & Hnone) _]. rewrite Nat.add_0_r in Hnone. congruence.
      * transitivity (first_failure ollama (S n) prompts = Some k).
        { destruct (first_failure ollama (S n) prompts); cbn; split; congruence. }
        rewrite IH. replace (S n + k)%nat with (n + S k)%nat by lia.
        split; intros [Hk Hbefore]; (split; [exact Hk|]).
        -- intros [|j] p' Hj Hp'.
           ++ injection Hp' as <-. rewrite Nat.add_0_r, Hr. eexists. reflexivity.
           ++ replace (n + S j)%nat with (S n + j)%nat by lia.
              apply Hbefore; [lia | exact Hp'].
        -- intros j p' Hj Hp'. replace (S n + j)%nat with (n + S j)%nat by lia.
           apply (Hbefore (S j)); [lia | exact Hp'].
    + split.
      * intros [= <-]. split.
        -- exists p. rewrite Nat.add_0_r. split; [reflexivity | exact Hr].
        -- intros j p' Hj. lia.
      * intros [_ Hbefore]. destruct k as [|k]; [reflexivity|].
        destruct (Hbefore 0%nat p) as [r Hr']; [lia | reflexivity |].
        rewrite Nat.add_0_r in Hr'. congruence.
Qed.

Lemma first_failure_None ollama prompts : forall n,
  first_failure ollama n prompts = None <->
  forall (k : nat) p, prompts !! k = Some p -> is_Some (ollama (n + k)%nat p).
Proof.
  induction prompts as [|p prompts IH]; intros n; cbn [first_failure].
  - split; [|reflexivity]. intros _ k p Hk. discriminate Hk.
  - destruct (ollama n p) as [r|] eqn:Hr.
    + transitivity (first_failure ollama (S n) prompts = None).
      { destruct (first_failure ollama (S n) prompts); cbn; split; congruence. }
      rewrite IH. split.
      * intros Hall [|k] p' Hk.
        -- injection Hk as <-. rewrite Nat.add_0_r, Hr. eexists. reflexivity.
        -- replace (n + S k)%nat with (S n + k)%nat by lia. apply Hall, Hk.
      * intros Hall k p' Hk. replace (S n + k)%nat with (n + S k)%nat by lia.
        apply (Hall (S k)), Hk.
    + split; [discriminate|]. intros Hall.
      destruct (Hall 0%nat p) as [r Hr']; [reflexivity|].
      rewrite Nat.add_0_r in Hr'. congruence.
Qed.

Section WithServices.

Variable json_loads : string -> option dict.
Variable ollama : nat -> prompt -> option string.

Lemma for_each_batch_any known_names csv_names bs offsets : forall mapping log,
  let prompts :=
    (fun i => Prompt known_names (Text.slice i (i + bs) csv_names)) <$> offsets in
  match first_failure ollama (length log) prompts with
  | Some k =>
      for_each offsets (batch json_loads ollama known_names csv_names bs) mapping log
      = (Raise RequestError, log ++ take (S k) prompts)
  | None =>
      exists mapping',
        for_each offsets (batch json_loads ollama known_names csv_names bs) mapping log
        = (Ok mapping', log ++ prompts)
  end.
Proof.
  induction offsets as [|i offsets IH]; intros mapping log; cbn zeta.
  - cbn. exists mapping. rewrite app_nil_r. reflexivity.
  - cbn [fmap list_fmap first_failure for_each].
    unfold mbind, M_bind, batch at 1 3, query_ollama. unfold mbind, M_bind.
    destruct (ollama (length log) _) as [r|] eqn:Hr.
    + cbn [mret M_ret].
      specialize (IH (absorb_response json_loads mapping r)
                     (log ++ [Prompt known_names (Text.slice i (i + bs) csv_names)])).
      cbn zeta in IH. rewrite length_app in IH. cbn [length] in IH.
      replace (length log + 1)%nat with (S (length log)) in IH by lia.
      destruct (first_failure ollama (S (length log)) _) as [k|];
        cbn [fmap option_fmap option_map].
      * rewrite IH, <- app_assoc. reflexivity.
      * destruct IH as [mapping' IH]. exists mapping'. rewrite IH, <- app_assoc.
        reflexivity.
    + reflexivity.
Qed.

Lemma get_name_mapping_any known_names csv_names batch_size log :
  (0 < batch_size)%Z ->
  let prompts := Prompt known_names <$> chunks_of (Z.to_nat batch_size) csv_names in
  match first_failure ollama (length log) prompts with
  | Some k =>
      get_name_mapping json_loads ollama known_names csv_names batch_size log
      = (Raise RequestError, log ++ take (S k) prompts)
  | None =>
      exists mapping,
        get_name_mapping json_loads ollama known_names csv_names batch_size log
        = (Ok mapping, log ++ prompts)
  end.
Proof.
  intros Hbs. cbn zeta. unfold get_name_mapping, chunks_of.
  destruct (Z.eqb_spec batch_size 0) as [?|_]; [lia|].
  destruct (Z.ltb_spec batch_size 0) as [?|_]; [lia|].
  rewrite <- list_fmap_compose.
  exact (for_each_batch_any known_names csv_names (Z.to_nat batch_size)
           (range_step (length csv_names) (Z.to_nat batch_size)) ∅ log).
Qed.

End WithServices.

Lemma chunks_of_nil {A} bs : chunks_of bs (@nil A) = [].
Proof.
  unfold chunks_of, range_step. cbn [length].
  destruct bs as [|bs]; [reflexivity|].
  replace ((0 + S bs - 1) / S bs)%nat with 0%nat; [reflexivity|].
  symmetry. apply Nat.div_small. lia.
Qed.

Lemma chunks_of_cons_head {A} bs (x : A) names :
  (0 < bs)%nat ->
  exists rest, chunks_of bs (x :: names) = take bs (x :: names) :: rest.
Proof.
  intros Hbs. unfold chunks_of, range_step.
  destruct ((length (x :: names) + bs - 1) / bs)%nat as [|q] eqn:Hq.
  - exfalso. apply Nat.div_small_iff in Hq; [|lia]. cbn [length] in Hq. lia.
  - cbn [seq fmap list_fmap]. eexists. f_equal.
    unfold Text.slice. cbn [Nat.mul Nat.add drop]. rewrite Nat.sub_0_r. reflexivity.
Qed.

End ResolverMore.

(** X10. A request that fails stops [get_name_mapping], whatever the
    earlier replies were: with a positive batch size, if the request for
    chunk number [k] is the first one that the service fails to answer, the
    call raises after exactly [k + 1] requests, and the mapping built so
    far is lost; if every request for a chunk is answered, the call
    returns after one request per chunk.  In both cases the requests sent
    are the first ones of the list of chunk requests. *)
Theorem get_name_mapping_request_failure
    (json_loads : string -> option dict) (ollama : nat -> prompt -> option string)
    (known_names csv_names : list string) (batch_size : Z) (log : list prompt) :
  (0 < batch_size)%Z ->
  let prompts := Prompt known_names <$> chunks_of (Z.to_nat batch_size) csv_names in
  let run := get_name_mapping json_loads ollama known_names csv_names batch_size log in
  (forall (k : nat) p,
     prompts !! k = Some p -> ollama (length log + k)%nat p = None ->
     (forall (j : nat) q, (j < k)%nat -> prompts !! j = Some q ->
        is_Some (ollama (length log + j)%nat q)) ->
     run = (Raise RequestError, log ++ take (S k) prompts))
  /\ ((forall (k : nat) p, prompts !! k = Some p ->
         is_Some (ollama (length log + k)%nat p)) ->
      exists mapping, run = (Ok mapping, log ++ prompts))
  /\ exists n, snd run = log ++ take n prompts.
Proof.
  intros Hbs prompts run.
  pose proof (ResolverMore.get_name_mapping_any json_loads ollama known_names csv_names
                batch_size log Hbs) as Hrun.
  cbn zeta in Hrun. fold prompts run in Hrun. repeat split.
  - intros k p Hk Hnone Hbefore.
    assert (Hfirst : first_failure ollama (length log) prompts = Some k).
    { apply ResolverMore.first_failure_Some. split; [eauto | exact Hbefore]. }
    rewrite Hfirst in Hrun. exact Hrun.
  - intros Hall. apply ResolverMore.first_failure_None in Hall.
    rewrite Hall in Hrun. exact Hrun.
  - destruct (first_failure ollama (length log) prompts) as [k|].
    + exists (S k). rewrite Hrun. reflexivity.
    + destruct Hrun as [mapping Hrun]. exists (length prompts).
      rewrite Hrun, firstn_all. reflexivity.
Qed.

Lemma get_name_mapping_request_failure_witness :
  exists n,
    snd (get_name_mapping Json.loads (fun _ _ => None) ["x"] ["a"; "b"] 1 [])
    = [] ++ take n (Prompt ["x"] <$> chunks_of (Z.to_nat 1) ["a"; "b"]).
Proof.
  refine (proj2 (proj2 (get_name_mapping_request_failure Json.loads (fun _ _ => None)
                          ["x"] ["a"; "b"] 1 [] _))).
  reflexivity.
Defined.

(** X11. The calls of [get_name_mapping] that send nothing: a batch size
    of zero raises [ValueError] before any request, a negative batch size
    and, for a positive one, an empty list of names return the empty
    mapping without a request; with a positive batch size and at least one
    name, the first request is sent, and it carries the known names and
    the first [batch_size] names. *)
Theorem get_name_mapping_without_request
    (json_loads : string -> option dict) (ollama : nat -> prompt -> option string)
    (known_names csv_names : list string) (batch_size : Z) (log : list prompt) :
  let run := get_name_mapping json_loads ollama known_names csv_names batch_size log in
  (batch_size = 0%Z -> exists msg, run = (Raise (ValueError msg), log))
  /\ ((batch_size < 0)%Z -> run = (Ok ∅, log))
  /\ ((0 < batch_size)%Z -> csv_names = [] -> run = (Ok ∅, log))
  /\ ((0 < batch_size)%Z -> csv_names <> [] ->
      exists sent,
        snd run
        = log ++ Prompt known_names (take (Z.to_nat batch_size) csv_names) :: sent).
Proof.
  cbn zeta. repeat split.
  - intros ->. eexists. reflexivity.
  - intros Hneg. unfold get_name_mapping.
    destruct (Z.eqb_spec batch_size 0) as [?|_]; [lia|].
    destruct (Z.ltb_spec batch_size 0) as [_|?]; [reflexivity | lia].
  - intros Hbs ->. unfold get_name_mapping.
    destruct (Z.eqb_spec batch_size 0) as [?|_]; [lia|].
    destruct (Z.ltb_spec batch_size 0) as [?|_]; [lia|].
    pose proof (ResolverMore.chunks_of_nil (A := string) (Z.to_nat batch_size)) as Hnil.
    unfold chunks_of in Hnil. apply fmap_nil_inv in Hnil. rewrite Hnil. reflexivity.
  - intros Hbs Hnames.
    destruct csv_names as [|name names]; [congruence|].
    destruct (ResolverMore.chunks_of_cons_head (Z.to_nat batch_size) name names)
      as [rest Hchunks]; [lia|].
    pose proof (ResolverMore.get_name_mapping_any json_loads ollama known_names
                  (name :: names) batch_size log Hbs) as Hrun.
    cbn zeta in Hrun. rewrite Hchunks in Hrun. cbn [fmap list_fmap] in Hrun.
    destruct (first_failure _ _ _) as [k|].
    + rewrite Hrun. eexists. reflexivity.
    + destruct Hrun as [mapping Hrun]. rewrite Hrun. eexists. reflexivity.
Qed.

Module PipelineMore.

Lemma elem_of_filter_None {V} (m : gmap string V) (names : list string) name :
  name ∈ filter (fun name => bool_decide (m !! name = None)) names
  <-> name ∈ names /\ m !! name = None.
Proof.
  rewrite list_elem_of_filter, bool_decide_spec. tauto.
Qed.

Lemma sorted_unique_ext names names' :
  (forall name, name ∈ names <-> name ∈ names') ->
  sorted_unique names = sorted_unique names'.
Proof.
  intros Hsame. unfold sorted_unique.
  apply (Sorted_unique String.le); try apply Sorted_merge_sort; try apply _.
  rewrite !merge_sort_Permutation.
  apply NoDup_Permutation; try apply NoDup_remove_dups.
  intros name. rewrite !elem_of_remove_dups. apply Hsame.
Qed.

Lemma accepted_true column : accepted column = true <-> str_accessor column = Ok tt.
Proof.
  unfold accepted. destruct (str_accessor column) as [[]|e]; split; congruence.
Qed.

Lemma accepted_false column :
  accepted column = false -> str_accessor column = Raise AttributeError.
Proof.
  unfold accepted.
  destruct (PipelineFacts.str_accessor_cases column) as [[-> _]|[-> _]];
    [discriminate | reflexivity].
Qed.

Lemma accepted_has_text column : has_text column -> accepted column = true.
Proof. intros H. apply accepted_true, PipelineFacts.str_accessor_has_text, H. Qed.

Section WithServices.

Variable ratio : string -> string -> Q.
Variable json_loads : string -> option dict.
Variable ollama : nat -> prompt -> option string.
Variable merge_refuses : dict -> list string -> list string -> option exn.

Lemma resolve_names_any csv_names excel_names cached_mapping log :
  let cached_matches := cached_matches_of cached_mapping csv_names in
  let unmatched_names :=
    filter (fun name => bool_decide (cached_matches !! name = None)) csv_names in
  let fuzzy_matches :=
    fuzzy_match_schools ratio unmatched_names excel_names default_threshold in
  let prompts :=
    Prompt excel_names
      <$> chunks_of (Z.to_nat default_batch_size)
                    (still_unmatched_of ratio csv_names excel_names cached_mapping) in
  match first_failure ollama (length log) prompts with
  | Some k =>
      resolve_names ratio json_loads ollama csv_names excel_names cached_mapping log
      = (Raise RequestError, log ++ take (S k) prompts)
  | None =>
      exists ollama_mapping,
        resolve_names ratio json_loads ollama csv_names excel_names cached_mapping log
        = (Ok (combine_mappings cached_matches fuzzy_matches ollama_mapping),
           log ++ prompts)
  end.
Proof.
  cbn zeta. unfold resolve_names, still_unmatched_of. cbn zeta.
  set (cached := cached_matches_of cached_mapping csv_names).
  set (unmatched := filter _ csv_names).
  set (fuzzy := fuzzy_match_schools ratio unmatched excel_names default_threshold).
  destruct (filter _ unmatched) as [|name still] eqn:Hstill.
  - rewrite ResolverMore.chunks_of_nil. cbn [fmap list_fmap first_failure].
    exists ∅. unfold mbind, M_bind. cbn [mret M_ret]. rewrite app_nil_r. reflexivity.
  - pose proof (ResolverMore.get_name_mapping_any json_loads ollama excel_names
                  (name :: still) default_batch_size log eq_refl) as Hrun.
    cbn zeta in Hrun. unfold mbind, M_bind.
    destruct (first_failure ollama (length log) _) as [k|].
    + rewrite Hrun. reflexivity.
    + destruct Hrun as [mapping Hrun]. exists mapping. rewrite Hrun. reflexivity.
Qed.

(** With no name left for the resolver, the mapping is the union of the
    first two tiers. *)
Lemma resolve_names_resolved csv_names excel_names cached_mapping log :
  still_unmatched_of ratio csv_names excel_names cached_mapping = [] ->
  resolve_names ratio json_loads ollama csv_names excel_names cached_mapping log
  = (Ok (combine_mappings
           (cached_matches_of cached_mapping csv_names)
           (fuzzy_match_schools ratio
              (filter (fun name => bool_decide
                         (cached_matches_of cached_mapping csv_names !! name = None))
                      csv_names)
              excel_names default_threshold) ∅), log).
Proof.
  unfold still_unmatched_of, resolve_names. cbn zeta. intros ->. reflexivity.
Qed.

(** The report sends nothing and turns no error into a result. *)
Lemma process_dataset_after_merge csv_df excel_df cached_mapping log :
  let merge :=
    merge_dataset ratio json_loads ollama merge_refuses csv_df excel_df
                  cached_mapping log in
  let run :=
    process_dataset ratio json_loads ollama merge_refuses csv_df excel_df
                    cached_mapping log in
  snd run = snd merge
  /\ (forall e, fst merge = Raise e -> fst run = Raise e)
  /\ (forall out, fst merge = Ok out ->
        fst run = if has_column "School Name" csv_df
                  then Raise (KeyError "School Name") else Ok out).
Proof.
  cbn zeta. unfold process_dataset, report, mbind, M_bind, lift.
  destruct (merge_dataset ratio json_loads ollama merge_refuses csv_df excel_df
              cached_mapping log) as [[out|e] log1]; cbn [fst snd].
  - destruct (has_column "School Name" csv_df); cbn [fst snd mret M_ret];
      (split; [reflexivity|]); (split; [discriminate|]); intros ? [= <-]; reflexivity.
  - split; [reflexivity|]. split; [intros ? [= <-]; reflexivity | discriminate].
Qed.

Lemma merge_dataset_any csv_df excel_df cached_mapping log :
  let csv_names := csv_names_of (drop_test_schools csv_df) in
  let excel_names := excel_names_of excel_df in
  let cached_matches := cached_matches_of cached_mapping csv_names in
  let unmatched_names :=
    filter (fun name => bool_decide (cached_matches !! name = None)) csv_names in
  let fuzzy_matches :=
    fuzzy_match_schools ratio unmatched_names excel_names default_threshold in
  let prompts :=
    Prompt excel_names
      <$> chunks_of (Z.to_nat default_batch_size)
                    (still_unmatched_of ratio csv_names excel_names cached_mapping) in
  let run :=
    merge_dataset ratio json_loads ollama merge_refuses csv_df excel_df
                  cached_mapping log in
  if accepted (csv_School_Name <$> csv_df) && accepted (excel_School_Name <$> excel_df)
  then
    match first_failure ollama (length log) prompts with
    | Some k => run = (Raise RequestError, log ++ take (S k) prompts)
    | None =>
        exists ollama_mapping,
          let final_mapping :=
            combine_mappings cached_matches fuzzy_matches ollama_mapping in
          run = (match merge_check merge_refuses final_mapping csv_names excel_names with
                 | Ok _ =>
                     Ok (merge_left
                           (prepare_csv final_mapping <$> drop_test_schools csv_df)
                           (prepare_excel <$> excel_df), final_mapping)
                 | Raise e => Raise e
                 end, log ++ prompts)
    end
  else run = (Raise AttributeError, log).
Proof.
  cbn zeta.
  pose proof (resolve_names_any (csv_names_of (drop_test_schools csv_df))
                (excel_names_of excel_df) cached_mapping log) as Hrun.
  cbn zeta in Hrun. unfold merge_dataset, mbind, M_bind, lift.
  destruct (accepted (csv_School_Name <$> csv_df)) eqn:Hcsv; cbn [andb].
  2: { rewrite (accepted_false _ Hcsv). reflexivity. }
  apply accepted_true in Hcsv. rewrite Hcsv.
  destruct (accepted (excel_School_Name <$> excel_df)) eqn:Hexcel.
  2: { rewrite (accepted_false _ Hexcel). reflexivity. }
  apply accepted_true in Hexcel. rewrite Hexcel.
  destruct (first_failure ollama (length log) _) as [k|].
  - rewrite Hrun. reflexivity.
  - destruct Hrun as [mapping Hrun]. exists mapping. rewrite Hrun.
    destruct (merge_check merge_refuses _ _ _) as [[]|e]; reflexivity.
Qed.

(** The names that are sent are names of retained rows, and no keys of the
    cached mapping. *)
Lemma still_unmatched_names csv_df excel_df cached_mapping p name :
  p ∈ Prompt (excel_names_of excel_df)
        <$> chunks_of (Z.to_nat default_batch_size)
              (still_unmatched_of ratio (csv_names_of (drop_test_schools csv_df))
                 (excel_names_of excel_df) cached_mapping) ->
  name ∈ prompt_chunk p ->
  (exists r, r ∈ csv_df /\ isin (csv_School_Name r) test_schools = false
             /\ csv_normalized r = name)
  /\ (forall cm, cached_mapping = Some cm -> cm !! name = None).
Proof.
  intros Hp Hname.
  apply list_elem_of_fmap in Hp as (chunk & -> & Hchunk). cbn [prompt_chunk] in Hname.
  assert (Hstill : name ∈ still_unmatched_of ratio
                     (csv_names_of (drop_test_schools csv_df))
                     (excel_names_of excel_df) cached_mapping).
  { apply list_elem_of_lookup_1 in Hchunk as [k Hk].
    apply ResolverFacts.chunks_of_lookup in Hk as [-> _].
    unfold Text.slice in Hname.
    eapply subseteq_drop, subseteq_take, Hname. }
  unfold still_unmatched_of in Hstill. cbn zeta in Hstill.
  apply elem_of_filter_None in Hstill as [Hstill _].
  apply elem_of_filter_None in Hstill as [Hnames Hcached].
  unfold csv_names_of in Hnames.
  apply PipelineFacts.sorted_unique_elem, list_elem_of_fmap in Hnames
    as (r & -> & Hr).
  apply PipelineFacts.elem_of_drop_test_schools in Hr as [Hr Htest]. split.
  - exists r. auto.
  - intros cm ->. rewrite PipelineFacts.cached_matches_lookup in Hcached.
    rewrite decide_True in Hcached; [exact Hcached|].
    apply PipelineFacts.sorted_unique_elem, list_elem_of_fmap.
    exists r. split; [reflexivity|].
    apply PipelineFacts.elem_of_drop_test_schools. auto.
Qed.

End WithServices.
End PipelineMore.

(** X12. What [process_dataset] asks the service, whatever the service and
    pandas do.  When pandas refuses one of the two name columns, the call
    raises [AttributeError] before any request.  Otherwise the requests
    are the chunks of at most 15 of the names that neither the cache nor
    the fuzzy matcher resolved, each with the sorted distinct roster keys
    as known names: if one of them is not answered, the call raises at the
    first such request, and if all are answered, all have been sent when
    the call ends.  Every name in a request is the key of a retained
    source row, and no key of the cached mapping. *)
Theorem process_dataset_requests
    (ratio : string -> string -> Q) (json_loads : string -> option dict)
    (ollama : nat -> prompt -> option string)
    (merge_refuses : dict -> list string -> list string -> option exn)
    (csv_df : list csv_row) (excel_df : list excel_row)
    (cached_mapping : option dict) (log : list prompt) :
  let csv_names := csv_names_of (drop_test_schools csv_df) in
  let excel_names := excel_names_of excel_df in
  let still_unmatched := still_unmatched_of ratio csv_names excel_names cached_mapping in
  let prompts :=
    Prompt excel_names <$> chunks_of (Z.to_nat default_batch_size) still_unmatched in
  let run :=
    process_dataset ratio json_loads ollama merge_refuses csv_df excel_df
                    cached_mapping log in
  (if accepted (csv_School_Name <$> csv_df) && accepted (excel_School_Name <$> excel_df)
   then
     match first_failure ollama (length log) prompts with
     | Some k => run = (Raise RequestError, log ++ take (S k) prompts)
     | None => snd run = log ++ prompts
     end
   else run = (Raise AttributeError, log))
  /\ (forall p name, p ∈ prompts -> name ∈ prompt_chunk p ->
        (exists r, r ∈ csv_df /\ isin (csv_School_Name r) test_schools = false
                   /\ csv_normalized r = name)
        /\ (forall cm, cached_mapping = Some cm -> cm !! name = None)).
Proof.
  cbn zeta. split.
  - pose proof (PipelineMore.merge_dataset_any ratio json_loads ollama merge_refuses
                  csv_df excel_df cached_mapping log) as Hmerge.
    destruct (PipelineMore.process_dataset_after_merge ratio json_loads ollama
                merge_refuses csv_df excel_df cached_mapping log)
      as (Hlog & Herror & _).
    cbn zeta in Hmerge.
    assert (Hraise : forall e log1,
              merge_dataset ratio json_loads ollama merge_refuses csv_df excel_df
                            cached_mapping log = (Raise e, log1) ->
              process_dataset ratio json_loads ollama merge_refuses csv_df excel_df
                              cached_mapping log = (Raise e, log1)).
    { intros e log1 Heq. rewrite Heq in Hlog, Herror. cbn [fst snd] in Hlog, Herror.
      specialize (Herror e eq_refl).
      destruct (process_dataset ratio json_loads ollama merge_refuses csv_df excel_df
                  cached_mapping log) as [r log2].
      cbn [fst snd] in Hlog, Herror. subst. reflexivity. }
    destruct (accepted (csv_School_Name <$> csv_df)
              && accepted (excel_School_Name <$> excel_df)); [|apply Hraise, Hmerge].
    destruct (first_failure ollama (length log) _) as [k|]; [apply Hraise, Hmerge|].
    destruct Hmerge as [mapping Hmerge]. rewrite Hlog, Hmerge. reflexivity.
  - intros p name. apply PipelineMore.still_unmatched_names.
Qed.

(** X13. Without the service, [process_dataset] succeeds exactly when it
    needs no request.  On tables in which a retained row and a roster row
    hold a name, with no column "School Name" in the CSV table and a
    cached mapping of strings and nulls: if the cache and the fuzzy
    matcher resolve every name, the call returns and sends nothing;
    otherwise it raises after its first request, the one for the first 15
    unresolved names. *)
Theorem process_dataset_without_service
    (ratio : string -> string -> Q) (json_loads : string -> option dict)
    (ollama : nat -> prompt -> option string)
    (merge_refuses : dict -> list string -> list string -> option exn)
    (csv_df : list csv_row) (excel_df : list excel_row)
    (cached_mapping : option dict) (log : list prompt) :
  (forall n p, ollama n p = None) ->
  has_text (csv_School_Name <$> drop_test_schools csv_df) ->
  has_text (excel_School_Name <$> excel_df) ->
  has_column "School Name" csv_df = false ->
  (forall cm, cached_mapping = Some cm -> textual cm) ->
  let csv_names := csv_names_of (drop_test_schools csv_df) in
  let excel_names := excel_names_of excel_df in
  let still_unmatched := still_unmatched_of ratio csv_names excel_names cached_mapping in
  let run :=
    process_dataset ratio json_loads ollama merge_refuses csv_df excel_df
                    cached_mapping log in
  match still_unmatched with
  | [] => exists merged final_mapping, run = (Ok (merged, final_mapping), log)
  | _ :: _ =>
      run = (Raise RequestError,
             log ++ [Prompt excel_names
                       (take (Z.to_nat default_batch_size) still_unmatched)])
  end.
Proof.
  intros Hdown Hcsv Hexcel Hcolumn Hcache. cbn zeta.
  destruct (still_unmatched_of ratio _ _ cached_mapping) as [|name still] eqn:Hstill.
  - unfold process_dataset, merge_dataset, report, merge_check, mbind, M_bind, lift.
    rewrite (PipelineFacts.str_accessor_has_text _
               (PipelineFacts.has_text_retained _ Hcsv)),
      (PipelineFacts.str_accessor_has_text _ Hexcel),
      (PipelineMore.resolve_names_resolved ratio json_loads ollama _ _ _ log Hstill).
    rewrite PipelineFacts.plain_keys_textual.
    + rewrite Hcolumn. cbn [mret M_ret]. eauto.
    + apply PipelineFacts.textual_combine;
        [apply PipelineFacts.textual_cached_matches, Hcache
        | apply PipelineFacts.textual_empty].
    + eapply PipelineFacts.names_nonempty, Hcsv.
    + eapply PipelineFacts.names_nonempty, Hexcel.
  - pose proof (PipelineMore.merge_dataset_any ratio json_loads ollama merge_refuses
                  csv_df excel_df cached_mapping log) as Hmerge.
    destruct (PipelineMore.process_dataset_after_merge ratio json_loads ollama
                merge_refuses csv_df excel_df cached_mapping log)
      as (Hlog & Herror & _).
    cbn zeta in Hmerge.
    rewrite (PipelineMore.accepted_has_text _ (PipelineFacts.has_text_retained _ Hcsv)),
      (PipelineMore.accepted_has_text _ Hexcel), Hstill in Hmerge.
    cbn [andb] in Hmerge.
    destruct (ResolverMore.chunks_of_cons_head (Z.to_nat default_batch_size) name still)
      as [rest Hchunks]; [vm_compute; lia|].
    rewrite Hchunks in Hmerge. cbn [fmap list_fmap first_failure] in Hmerge.
    rewrite Hdown in Hmerge. cbn [take] in Hmerge. rewrite take_0 in Hmerge.
    rewrite Hmerge in Hlog, Herror.
    cbn [fst snd] in Hlog, Herror. specialize (Herror _ eq_refl).
    destruct (process_dataset ratio json_loads ollama merge_refuses csv_df excel_df
                cached_mapping log) as [r log1].
    cbn [fst snd] in Hlog, Herror. subst. reflexivity.
Qed.

Lemma process_dataset_without_service_witness :
  exists merged final_mapping,
    process_dataset SequenceMatcher.ratio Json.loads (fun _ _ => None) never_refuses
                    scenario_csv scenario_excel None []
    = (Ok (merged, final_mapping), []).
Proof.
  exact (process_dataset_without_service SequenceMatcher.ratio Json.loads
           (fun _ _ => None) never_refuses scenario_csv scenario_excel None []
           (fun _ _ => eq_refl)
           (source_names_are_text _ _ _ _ _ PipelineFacts.scenario_regular)
           (roster_names_are_text _ _ _ _ _ PipelineFacts.scenario_regular)
           eq_refl
           (cache_is_textual _ _ _ _ _ PipelineFacts.scenario_regular)).
Defined.

(** X14. A source name that is a key of the cached mapping keeps its
    cached value through the first two tiers: it is a cached match, the
    fuzzy matcher is not run on it, it is not sent to the resolver, and the
    final mapping gives the cached value unless the reply of the resolver
    names it too. *)
Theorem cached_names_are_not_rematched
    (ratio : string -> string -> Q) (csv_names excel_names : list string)
    (cm : dict) (name : string) (v : pyval) :
  name ∈ csv_names -> cm !! name = Some v ->
  let cached_matches := cached_matches_of (Some cm) csv_names in
  let unmatched_names :=
    filter (fun name => bool_decide (cached_matches !! name = None)) csv_names in
  let fuzzy_matches :=
    fuzzy_match_schools ratio unmatched_names excel_names default_threshold in
  cached_matches !! name = Some v
  /\ fuzzy_matches !! name = None
  /\ ~ (name ∈ still_unmatched_of ratio csv_names excel_names (Some cm))
  /\ forall ollama_mapping,
       ollama_mapping !! name = None ->
       combine_mappings cached_matches fuzzy_matches ollama_mapping !! name = Some v.
Proof.
  intros Hin Hcm. cbn zeta.
  assert (Hcached : cached_matches_of (Some cm) csv_names !! name = Some v).
  { rewrite PipelineFacts.cached_matches_lookup, decide_True by exact Hin. exact Hcm. }
  assert (Hunmatched :
            ~ (name ∈ filter (fun name => bool_decide
                               (cached_matches_of (Some cm) csv_names !! name = None))
                             csv_names)).
  { rewrite PipelineMore.elem_of_filter_None. intros [_ Hnone]. congruence. }
  assert (Hfuzzy :
            fuzzy_match_schools ratio
              (filter (fun name => bool_decide
                         (cached_matches_of (Some cm) csv_names !! name = None))
                      csv_names) excel_names default_threshold !! name = None).
  { rewrite FuzzyFacts.fuzzy_lookup, decide_False by exact Hunmatched. reflexivity. }
  repeat split.
  - exact Hcached.
  - exact Hfuzzy.
  - unfold still_unmatched_of. cbn zeta. rewrite PipelineMore.elem_of_filter_None.
    intros [Hin' _]. contradiction.
  - intros ollama_mapping Hnone. unfold combine_mappings.
    rewrite !lookup_dict_update, Hnone, lookup_fmap, Hfuzzy.
    cbn [fmap option_fmap option_map]. rewrite Hcached. reflexivity.
Qed.

Lemma cached_names_are_not_rematched_witness :
  cached_matches_of (Some {[ "aldrin es" := PyStr "aldrin es" ]}) ["aldrin es"; "zzz"]
    !! "aldrin es" = Some (PyStr "aldrin es").
Proof.
  refine (proj1 (cached_names_are_not_rematched SequenceMatcher.ratio
                   ["aldrin es"; "zzz"] ["aldrin es"]
                   {[ "aldrin es" := PyStr "aldrin es" ]} "aldrin es"
                   (PyStr "aldrin es") _ _)).
  - apply elem_of_cons. left. reflexivity.
  - reflexivity.
Defined.

Module JoinMore.

Lemma elem_of_hits right l x :
  x ∈ hits right l <->
  x ∈ right /\ Mapped_Normalized_Name l = PyStr (excel_Normalized_School_Name x).
Proof. unfold hits. rewrite list_elem_of_filter, bool_decide_spec. tauto. Qed.

Lemma elem_of_merge_left_Some left right l x :
  (l, Some x) ∈ merge_left left right <->
  l ∈ left /\ x ∈ right
  /\ Mapped_Normalized_Name l = PyStr (excel_Normalized_School_Name x).
Proof.
  rewrite MergeFacts.elem_of_merge_left. split.
  - intros (l' & Hl' & Hm). apply MergeFacts.elem_of_join_row in Hm as [Hfst Hsnd].
    cbn [fst snd] in Hfst, Hsnd. subst l'. apply elem_of_hits in Hsnd. tauto.
  - intros (Hl & Hx & Hkey). exists l. split; [exact Hl|].
    apply MergeFacts.elem_of_join_row. cbn [fst snd]. split; [reflexivity|].
    apply elem_of_hits. auto.
Qed.

Lemma merge_left_ext left left' right right' :
  (forall l, l ∈ left <-> l ∈ left') -> (forall x, x ∈ right <-> x ∈ right') ->
  forall m, m ∈ merge_left left right <-> m ∈ merge_left left' right'.
Proof.
  intros Hleft Hright [l [x|]].
  - rewrite !elem_of_merge_left_Some, Hleft, Hright. reflexivity.
  - rewrite !MergeFacts.elem_of_merge_left.
    assert (Hnil : hits right l = [] <-> hits right' l = []).
    { rewrite !MergeFacts.hits_nil. split; intros H r Hr; apply H, Hright, Hr. }
    split; intros (l' & Hl' & Hm); exists l'; (split; [apply Hleft, Hl'|]);
      apply MergeFacts.elem_of_join_row in Hm as [Hfst Hsnd];
      apply MergeFacts.elem_of_join_row; cbn [fst snd] in *; subst l';
      (split; [reflexivity | apply Hnil, Hsnd]).
Qed.

Lemma elem_of_fmap_ext {A B} (f : A -> B) (l l' : list A) :
  (forall a, a ∈ l <-> a ∈ l') -> forall b, b ∈ f <$> l <-> b ∈ f <$> l'.
Proof.
  intros Hsame b. rewrite !list_elem_of_fmap.
  split; intros (a & -> & Ha); exists a; (split; [reflexivity | apply Hsame, Ha]).
Qed.

Lemma drop_test_schools_ext csv_df csv_df' :
  (forall r, r ∈ csv_df <-> r ∈ csv_df') ->
  forall r, r ∈ drop_test_schools csv_df <-> r ∈ drop_test_schools csv_df'.
Proof.
  intros Hsame r. rewrite !PipelineFacts.elem_of_drop_test_schools, Hsame. reflexivity.
Qed.

Lemma existsb_ext_elem {A} (f : A -> bool) (l l' : list A) :
  (forall a, a ∈ l <-> a ∈ l') -> existsb f l = existsb f l'.
Proof.
  intros Hsame. apply eq_true_iff_eq. rewrite !existsb_exists.
  split; intros (a & Ha & Hf); exists a; (split; [|exact Hf]);
    apply list_elem_of_In, Hsame, list_elem_of_In, Ha.
Qed.

Lemma str_accessor_ext (column column' : list (option string)) :
  (forall cell, cell ∈ column <-> cell ∈ column') ->
  str_accessor column = str_accessor column'.
Proof.
  intros Hsame. unfold str_accessor.
  rewrite (existsb_ext_elem _ column column' Hsame).
  destruct column as [|c column], column' as [|c' column']; try reflexivity; exfalso.
  - eapply not_elem_of_nil, Hsame, elem_of_cons. left. reflexivity.
  - eapply not_elem_of_nil, Hsame, elem_of_cons. left. reflexivity.
Qed.

End JoinMore.

(** X15. The joined rows of the merged table, whenever [process_dataset]
    returns, as it does on every regular input: a source row and a roster
    row appear together exactly when the source row is retained, and the
    [Mapped_Normalized_Name] of the one is the [Normalized_School_Name] of
    the other. *)
Theorem process_dataset_joined_rows
    (ratio : string -> string -> Q) (json_loads : string -> option dict)
    (ollama : nat -> prompt -> option string)
    (merge_refuses : dict -> list string -> list string -> option exn)
    (csv_df : list csv_row) (excel_df : list excel_row)
    (cached_mapping : option dict) (log : list prompt) :
  (regular_inputs json_loads ollama csv_df excel_df cached_mapping ->
   exists merged final_mapping log',
     process_dataset ratio json_loads ollama merge_refuses csv_df excel_df
                     cached_mapping log
     = (Ok (merged, final_mapping), log'))
  /\ forall merged final_mapping log',
       process_dataset ratio json_loads ollama merge_refuses csv_df excel_df
                       cached_mapping log
         = (Ok (merged, final_mapping), log') ->
       forall l x,
         (l, Some x) ∈ merged <->
         (exists r, r ∈ csv_df /\ isin (csv_School_Name r) test_schools = false
                    /\ l = prepare_csv final_mapping r)
         /\ (exists e, e ∈ excel_df /\ x = prepare_excel e)
         /\ Mapped_Normalized_Name l = PyStr (excel_Normalized_School_Name x).
Proof.
  split.
  - intros Hregular.
    destruct (PipelineFacts.process_dataset_returns ratio json_loads ollama
                merge_refuses csv_df excel_df cached_mapping log Hregular)
      as (fm & log' & Hrun).
    eauto.
  - intros merged final_mapping log' Hrun.
    apply PipelineFacts.process_dataset_Ok in Hrun as (_ & _ & _ & ->).
    intros l x. rewrite JoinMore.elem_of_merge_left_Some, !list_elem_of_fmap.
    split.
    + intros ((r & -> & Hr) & (e & -> & He) & Hkey).
      apply PipelineFacts.elem_of_drop_test_schools in Hr as [Hr Htest]. eauto 10.
    + intros ((r & Hr & Htest & ->) & (e & He & ->) & Hkey).
      split; [|split; [eauto | exact Hkey]].
      exists r. split; [reflexivity|].
      apply PipelineFacts.elem_of_drop_test_schools. auto.
Qed.

Lemma process_dataset_joined_rows_witness :
  exists merged final_mapping log',
    process_dataset SequenceMatcher.ratio Json.loads null_ollama never_refuses
                    scenario_csv scenario_excel None []
      = (Ok (merged, final_mapping), log')
    /\ forall l x,
         (l, Some x) ∈ merged <->
         (exists r, r ∈ scenario_csv /\ isin (csv_School_Name r) test_schools = false
                    /\ l = prepare_csv final_mapping r)
         /\ (exists e, e ∈ scenario_excel /\ x = prepare_excel e)
         /\ Mapped_Normalized_Name l = PyStr (excel_Normalized_School_Name x).
Proof.
  destruct (process_dataset_joined_rows SequenceMatcher.ratio Json.loads null_ollama
              never_refuses scenario_csv scenario_excel None [])
    as [Hreturns Hrows].
  destruct (Hreturns PipelineFacts.scenario_regular) as (merged & fm & log' & Hrun).
  exists merged, fm, log'. split; [exact Hrun|]. exact (Hrows merged fm log' Hrun).
Defined.

(** X16. [process_dataset] does not depend on the order of the rows nor
    on repeated rows as far as the mapping goes: two source tables with
    the same rows, and two rosters with the same rows, give the same
    outcome, the same final mapping and the same requests, and merged
    tables with the same rows. *)
Theorem process_dataset_row_order
    (ratio : string -> string -> Q) (json_loads : string -> option dict)
    (ollama : nat -> prompt -> option string)
    (merge_refuses : dict -> list string -> list string -> option exn)
    (csv_df csv_df' : list csv_row) (excel_df excel_df' : list excel_row)
    (cached_mapping : option dict) (log : list prompt) :
  (forall r, r ∈ csv_df <-> r ∈ csv_df') ->
  (forall e, e ∈ excel_df <-> e ∈ excel_df') ->
  match process_dataset ratio json_loads ollama merge_refuses csv_df excel_df
                        cached_mapping log,
        process_dataset ratio json_loads ollama merge_refuses csv_df' excel_df'
                        cached_mapping log with
  | (Ok (merged, final_mapping), log1), (Ok (merged', final_mapping'), log2) =>
      final_mapping = final_mapping' /\ log1 = log2
      /\ forall m, m ∈ merged <-> m ∈ merged'
  | (Raise e, log1), (Raise e', log2) => e = e' /\ log1 = log2
  | _, _ => False
  end.
Proof.
  intros Hcsv Hexcel.
  unfold process_dataset, merge_dataset, report, has_column, mbind, M_bind, lift.
  assert (Hnames : csv_names_of (drop_test_schools csv_df)
                   = csv_names_of (drop_test_schools csv_df')).
  { apply PipelineMore.sorted_unique_ext, JoinMore.elem_of_fmap_ext,
      JoinMore.drop_test_schools_ext, Hcsv. }
  assert (Hroster : excel_names_of excel_df = excel_names_of excel_df').
  { apply PipelineMore.sorted_unique_ext, JoinMore.elem_of_fmap_ext, Hexcel. }
  rewrite Hnames, Hroster.
  rewrite (JoinMore.str_accessor_ext (csv_School_Name <$> csv_df)
             (csv_School_Name <$> csv_df'))
    by (apply JoinMore.elem_of_fmap_ext, Hcsv).
  rewrite (JoinMore.str_accessor_ext (excel_School_Name <$> excel_df)
             (excel_School_Name <$> excel_df'))
    by (apply JoinMore.elem_of_fmap_ext, Hexcel).
  rewrite (JoinMore.existsb_ext_elem _ csv_df csv_df' Hcsv).
  destruct (str_accessor (csv_School_Name <$> csv_df')) as [[]|e];
    [|split; reflexivity].
  destruct (str_accessor (excel_School_Name <$> excel_df')) as [[]|e];
    [|split; reflexivity].
  destruct (resolve_names ratio json_loads ollama _ _ cached_mapping log)
    as [[final_mapping|e] log1]; [|split; reflexivity].
  destruct (merge_check merge_refuses final_mapping _ _) as [[]|e];
    [|split; reflexivity].
  cbn [mret M_ret].
  destruct (existsb _ csv_df'); [split; reflexivity|].
  split; [reflexivity|]. split; [reflexivity|].
  apply JoinMore.merge_left_ext;
    auto using JoinMore.elem_of_fmap_ext, JoinMore.drop_test_schools_ext.
Qed.

Lemma process_dataset_row_order_witness :
  match process_dataset SequenceMatcher.ratio Json.loads null_ollama never_refuses
          scenario_csv scenario_excel None [],
        process_dataset SequenceMatcher.ratio Json.loads null_ollama never_refuses
          (reverse scenario_csv ++ scenario_csv) scenario_excel None [] with
  | (Ok (merged, final_mapping), log1), (Ok (merged', final_mapping'), log2) =>
      final_mapping = final_mapping' /\ log1 = log2
      /\ forall m, m ∈ merged <-> m ∈ merged'
  | (Raise e, log1), (Raise e', log2) => e = e' /\ log1 = log2
  | _, _ => False
  end.
Proof.
  apply (process_dataset_row_order SequenceMatcher.ratio Json.loads null_ollama
           never_refuses scenario_csv (reverse scenario_csv ++ scenario_csv)
           scenario_excel scenario_excel None []).
  - intros r. rewrite elem_of_app, elem_of_reverse. tauto.
  - reflexivity.
Defined.

Module DriverFacts.
Section WithServices.

Variable ratio : string -> string -> Q.
Variable json_loads : string -> option dict.
Variable ollama : nat -> prompt -> option string.
Variable merge_refuses : dict -> list string -> list string -> option exn.
Variable read_csv : string -> option (list csv_row).
Variable read_excel : string -> option (list excel_row).

Lemma process_dataset_sent csv_df excel_df cached_mapping log :
  exists sent,
    snd (process_dataset ratio json_loads ollama merge_refuses csv_df excel_df
                         cached_mapping log)
    = log ++ sent
    /\ forall p name cm,
         p ∈ sent -> name ∈ prompt_chunk p -> cached_mapping = Some cm ->
         cm !! name = None.
Proof.
  pose proof (PipelineMore.merge_dataset_any ratio json_loads ollama merge_refuses
                csv_df excel_df cached_mapping log) as Hmerge.
  destruct (PipelineMore.process_dataset_after_merge ratio json_loads ollama
              merge_refuses csv_df excel_df cached_mapping log) as (Hlog & _).
  cbn zeta in Hmerge. rewrite Hlog.
  assert (Hnames : forall p name cm,
            p ∈ Prompt (excel_names_of excel_df)
                  <$> chunks_of (Z.to_nat default_batch_size)
                        (still_unmatched_of ratio
                           (csv_names_of (drop_test_schools csv_df))
                           (excel_names_of excel_df) cached_mapping) ->
            name ∈ prompt_chunk p -> cached_mapping = Some cm -> cm !! name = None).
  { intros p name cm Hp Hname.
    apply (PipelineMore.still_unmatched_names ratio csv_df excel_df cached_mapping
             p name Hp Hname). }
  destruct (accepted (csv_School_Name <$> csv_df)
            && accepted (excel_School_Name <$> excel_df)).
  2: { exists []. rewrite Hmerge, app_nil_r. split; [reflexivity|].
       intros p name cm Hp. apply elem_of_nil in Hp. contradiction. }
  destruct (first_failure ollama (length log) _) as [k|].
  - eexists. rewrite Hmerge. split; [reflexivity|].
    intros p name cm Hp. apply Hnames. eapply subseteq_take, Hp.
  - destruct Hmerge as [mapping Hmerge]. eexists. rewrite Hmerge.
    split; [reflexivity | exact Hnames].
Qed.

(** One pass of the loop leaves the variables as they are, or saves the
    merged table of a data set whose tables were read; it records the
    mapping too unless the report raises. *)
Lemma dataset_step_cases st entry log :
  let run :=
    dataset_step ratio json_loads ollama merge_refuses read_csv read_excel
                 st entry log in
  (exists sent,
     snd run = log ++ sent
     /\ forall p name cm,
          p ∈ sent -> name ∈ prompt_chunk p -> cache st = Some cm -> cm !! name = None)
  /\ (fst run = st
      \/ exists csv_df excel_df merged mapping,
           read_csv (csv_path (snd entry)) = Some csv_df
           /\ read_excel excel_path = Some excel_df
           /\ merged = merge_left (prepare_csv mapping <$> drop_test_schools csv_df)
                                  (prepare_excel <$> excel_df)
           /\ ((has_column "School Name" csv_df = true
                /\ fst run = Driver (all_mappings st) (cache st)
                                    (saved st ++ [(output_path (snd entry), merged)]))
               \/ (has_column "School Name" csv_df = false
                   /\ fst run = Driver (<[fst entry := mapping]> (all_mappings st))
                                       (Some mapping)
                                       (saved st ++ [(output_path (snd entry), merged)])))).
Proof.
  cbn zeta. unfold dataset_step.
  destruct (read_csv (csv_path (snd entry))) as [csv_df|].
  2: { split; [exists []; rewrite app_nil_r; split; [reflexivity|] | left; reflexivity].
       intros p name cm Hp. apply elem_of_nil in Hp. contradiction. }
  destruct (read_excel excel_path) as [excel_df|].
  2: { split; [exists []; rewrite app_nil_r; split; [reflexivity|] | left; reflexivity].
       intros p name cm Hp. apply elem_of_nil in Hp. contradiction. }
  pose proof (process_dataset_sent csv_df excel_df (cache st) log) as Hsent.
  destruct (PipelineMore.process_dataset_after_merge ratio json_loads ollama
              merge_refuses csv_df excel_df (cache st) log) as (_ & Herror & Hout).
  unfold written.
  destruct (merge_dataset ratio json_loads ollama merge_refuses csv_df excel_df
              (cache st) log) as [[[merged mapping]|e] log1] eqn:Hmerge;
    cbn [fst snd] in *.
  - specialize (Hout _ eq_refl).
    apply PipelineFacts.merge_dataset_Ok in Hmerge as (_ & _ & _ & Hmerged).
    destruct (process_dataset ratio json_loads ollama merge_refuses csv_df excel_df
                (cache st) log) as [r log2]. cbn [fst snd] in *.
    destruct (has_column "School Name" csv_df) eqn:Hcolumn; subst r; cbn [fst snd];
      (split; [exact Hsent|]); right; exists csv_df, excel_df, merged, mapping;
      (split; [reflexivity|]); (split; [reflexivity|]); (split; [exact Hmerged|]).
    + left. auto.
    + right. auto.
  - specialize (Herror _ eq_refl).
    destruct (process_dataset ratio json_loads ollama merge_refuses csv_df excel_df
                (cache st) log) as [r log2]. cbn [fst snd] in *. subst r.
    cbn [fst snd]. split; [exact Hsent|]. left. rewrite app_nil_r.
    destruct st; reflexivity.
Qed.

End WithServices.

Lemma elem_of_datasets name config :
  (name, config) ∈ datasets <->
  (name = "breakfast" /\ config = breakfast) \/ (name = "lunch" /\ config = lunch).
Proof.
  unfold datasets. rewrite !elem_of_cons, elem_of_nil. split.
  - intros [[= -> ->]|[[= -> ->]|[]]]; tauto.
  - intros [[-> ->]|[-> ->]]; tauto.
Qed.

End DriverFacts.

(** X17. When the roster cannot be read, or neither source file is
    there, [main] returns the empty dict without raising: no request is
    sent, no merged file and no [combined_name_mapping.json] is written.
    The failure to read the roster is caught, with everything else, by the
    [try] around [process_dataset]. *)
Theorem main_nothing_processed
    (ratio : string -> string -> Q) (json_loads : string -> option dict)
    (ollama : nat -> prompt -> option string)
    (merge_refuses : dict -> list string -> list string -> option exn)
    (read_csv : string -> option (list csv_row))
    (read_excel : string -> option (list excel_row)) (log : list prompt) :
  read_excel excel_path = None
  \/ (forall name config, (name, config) ∈ datasets -> read_csv (csv_path config) = None) ->
  main ratio json_loads ollama merge_refuses read_csv read_excel log
  = (Outcome ∅ [] None, log).
Proof.
  intros [Hexcel|Hcsv]; unfold main, run_datasets, dataset_step.
  - rewrite Hexcel. unfold datasets.
    destruct (read_csv _), (read_csv _); reflexivity.
  - assert (Hall : Forall (fun entry => read_csv (csv_path (snd entry)) = None) datasets).
    { apply list.Forall_forall. intros [name config] Hentry. exact (Hcsv _ _ Hentry). }
    unfold datasets in *.
    inversion Hall as [|? ? Hbreakfast Hall']. inversion Hall' as [|? ? Hlunch _].
    cbn [fst snd] in *. rewrite Hbreakfast, Hlunch. reflexivity.
Qed.

Lemma main_nothing_processed_witness :
  main SequenceMatcher.ratio Json.loads null_ollama never_refuses
       example_read_csv (fun _ => None) []
  = (Outcome ∅ [] None, []).
Proof. apply main_nothing_processed. left. reflexivity. Defined.

(** X18. What [main] leaves on disk agrees with what it returns: the
    returned dict has no key but "breakfast" and "lunch"; a data set that
    has a mapping in it had both its tables read, and its output file holds
    exactly the table merged with that mapping; a data set without a
    mapping has an output file only when its CSV table has a column
    "School Name", on which the report raises after the file is saved; no
    other merged file is written; and the combined mapping is written
    exactly when the returned dict is not empty, with that dict as
    content. *)
Theorem main_saved_files_match_mappings
    (ratio : string -> string -> Q) (json_loads : string -> option dict)
    (ollama : nat -> prompt -> option string)
    (merge_refuses : dict -> list string -> list string -> option exn)
    (read_csv : string -> option (list csv_row))
    (read_excel : string -> option (list excel_row)) (log : list prompt) :
  let out := fst (main ratio json_loads ollama merge_refuses read_csv read_excel log) in
  (forall name, is_Some (returned out !! name) -> name = "breakfast" \/ name = "lunch")
  /\ (forall name config, (name, config) ∈ datasets ->
        match returned out !! name with
        | Some mapping =>
            exists csv_df excel_df,
              read_csv (csv_path config) = Some csv_df
              /\ read_excel excel_path = Some excel_df
              /\ has_column "School Name" csv_df = false
              /\ forall table,
                   (output_path config, table) ∈ merged_files out <->
                   table = merge_left (prepare_csv mapping <$> drop_test_schools csv_df)
                                      (prepare_excel <$> excel_df)
        | None =>
            forall table,
              (output_path config, table) ∈ merged_files out ->
              exists csv_df,
                read_csv (csv_path config) = Some csv_df
                /\ has_column "School Name" csv_df = true
        end)
  /\ (forall path table, (path, table) ∈ merged_files out ->
        exists name config, (name, config) ∈ datasets /\ path = output_path config)
  /\ combined_mapping out
     = if bool_decide (returned out = ∅) then None else Some (returned out).
Proof.
  cbn zeta. unfold main. cbn [run_datasets datasets].
  destruct (dataset_step ratio json_loads ollama merge_refuses read_csv read_excel
              (Driver ∅ None []) ("breakfast", breakfast) log) as [st1 log1] eqn:Hfirst.
  destruct (dataset_step ratio json_loads ollama merge_refuses read_csv read_excel st1
              ("lunch", lunch) log1) as [st2 log2] eqn:Hsecond.
  destruct (DriverFacts.dataset_step_cases ratio json_loads ollama merge_refuses
              read_csv read_excel (Driver ∅ None []) ("breakfast", breakfast) log)
    as [_ Hb].
  destruct (DriverFacts.dataset_step_cases ratio json_loads ollama merge_refuses
              read_csv read_excel st1 ("lunch", lunch) log1) as [_ Hl].
  rewrite Hfirst in Hb. rewrite Hsecond in Hl. cbn [fst snd] in Hb, Hl.
  assert (Hpaths : output_path breakfast <> output_path lunch) by discriminate.
  destruct Hb as [->|(csv_b & excel_b & merged_b & mapping_b & Hcsv_b & Hexcel_b
                      & Hmerged_b & [[Hcol_b ->]|[Hcol_b ->]])];
    destruct Hl as [->|(csv_l & excel_l & merged_l & mapping_l & Hcsv_l & Hexcel_l
                        & Hmerged_l & [[Hcol_l ->]|[Hcol_l ->]])];
    cbn [fst all_mappings saved cache returned merged_files combined_mapping app] in *;
    (split; [|split; [|split; [|reflexivity]]]).
  all: try (intros name [mapping Hname];
            repeat (apply lookup_insert_Some in Hname as [[<- _]|[_ Hname]]; [tauto|]);
            rewrite lookup_empty in Hname; discriminate Hname).
  all: try (intros path table Hfile;
            repeat (apply elem_of_cons in Hfile as [[= -> _]|Hfile];
                    [first [ exists "breakfast", breakfast;
                             split; [apply DriverFacts.elem_of_datasets; tauto
                                    | reflexivity]
                           | exists "lunch", lunch;
                             split; [apply DriverFacts.elem_of_datasets; tauto
                                    | reflexivity] ]|]);
            apply elem_of_nil in Hfile; contradiction).
  all: intros name config [[-> ->]|[-> ->]]%DriverFacts.elem_of_datasets.
  all: repeat (rewrite lookup_insert_ne by discriminate);
    try rewrite lookup_insert_eq; try rewrite lookup_empty.
  all: try (intros table Hfile;
            repeat (apply elem_of_cons in Hfile as [Hpath|Hfile];
                    [first [congruence | eauto]|]);
            apply elem_of_nil in Hfile; contradiction).
  all: try match goal with
           | H1 : ?read excel_path = Some ?a, H2 : ?read excel_path = Some ?b |- _ =>
               assert (a = b) by congruence; subst a
           end.
  all: eexists _, _; (split; [eassumption|]); (split; [eassumption|]);
    (split; [eassumption|]);
    intros table; rewrite ?elem_of_cons, elem_of_nil; subst;
    (split; [intros Hfile; repeat destruct Hfile as [Hfile|Hfile];
             try contradiction; congruence
            | intros ->; first [left; reflexivity | right; left; reflexivity]]).
Qed.

(** X19. The cache that [main] threads from breakfast to lunch: when the
    breakfast data set is processed, its mapping is returned under
    "breakfast", and no request sent afterwards, for lunch, asks for a name
    that is a key of that mapping. *)
Theorem main_cache_spares_requests
    (ratio : string -> string -> Q) (json_loads : string -> option dict)
    (ollama : nat -> prompt -> option string)
    (merge_refuses : dict -> list string -> list string -> option exn)
    (read_csv : string -> option (list csv_row))
    (read_excel : string -> option (list excel_row)) (log : list prompt)
    (csv_df : list csv_row) (excel_df : list excel_row)
    (merged : list merged_row) (mapping : dict) (log' : list prompt) :
  read_csv (csv_path breakfast) = Some csv_df ->
  read_excel excel_path = Some excel_df ->
  process_dataset ratio json_loads ollama merge_refuses csv_df excel_df None log
    = (Ok (merged, mapping), log') ->
  let run := main ratio json_loads ollama merge_refuses read_csv read_excel log in
  returned (fst run) !! "breakfast" = Some mapping
  /\ exists sent,
       snd run = log' ++ sent
       /\ forall p name, p ∈ sent -> name ∈ prompt_chunk p -> mapping !! name = None.
Proof.
  intros Hcsv Hexcel Hrun. cbn zeta.
  set (st := Driver (<["breakfast" := mapping]> ∅) (Some mapping)
                    [(output_path breakfast, merged)]).
  assert (Hfirst : dataset_step ratio json_loads ollama merge_refuses read_csv read_excel
                     (Driver ∅ None []) ("breakfast", breakfast) log = (st, log')).
  { unfold dataset_step, written. cbn [fst snd cache]. rewrite Hcsv, Hexcel, Hrun.
    apply PipelineFacts.process_dataset_Ok in Hrun as (-> & _). reflexivity. }
  unfold main. cbn [run_datasets datasets]. rewrite Hfirst.
  destruct (DriverFacts.dataset_step_cases ratio json_loads ollama merge_refuses
              read_csv read_excel st ("lunch", lunch) log')
    as [(sent & Hsent & Hnames) Hcases].
  destruct (dataset_step ratio json_loads ollama merge_refuses read_csv read_excel st
              ("lunch", lunch) log') as [st' log''].
  cbn [fst snd returned] in *. split.
  - destruct Hcases as [->|(? & ? & ? & ? & _ & _ & _ & [[_ ->]|[_ ->]])];
      cbn [all_mappings st].
    + apply lookup_insert_eq.
    + apply lookup_insert_eq.
    + rewrite lookup_insert_ne by discriminate. apply lookup_insert_eq.
  - exists sent. split; [exact Hsent|].
    intros p name Hp Hname. exact (Hnames p name mapping Hp Hname eq_refl).
Qed.

Lemma main_cache_spares_requests_witness :
  returned (fst (main SequenceMatcher.ratio Json.loads null_ollama never_refuses
                      example_read_csv example_read_excel []))
    !! "breakfast" = Some {[ "aldrin es" := PyStr "aldrin es" ]}.
Proof.
  refine (proj1 (main_cache_spares_requests SequenceMatcher.ratio Json.loads null_ollama
                   never_refuses example_read_csv example_read_excel []
                   scenario_csv scenario_excel _ _ [] eq_refl eq_refl _)).
  vm_compute. reflexivity.
Defined.

(** X20. A failed request costs [main] one data set only.  If the breakfast
    tables are read, each of their name columns holds a string, breakfast
    needs the resolver and its first request is not answered, then
    breakfast gets no mapping and no file, and lunch is processed after
    that one request as if it came first, from an empty cache: [main]
    returns the lunch mapping alone when lunch is processed, and the empty
    dict when lunch is missing or fails too; the lunch file is there
    whenever the lunch run got as far as saving it. *)
Theorem main_survives_request_failure
    (ratio : string -> string -> Q) (json_loads : string -> option dict)
    (ollama : nat -> prompt -> option string)
    (merge_refuses : dict -> list string -> list string -> option exn)
    (read_csv : string -> option (list csv_row))
    (read_excel : string -> option (list excel_row)) (log : list prompt)
    (csv_df : list csv_row) (excel_df : list excel_row) (name : string)
    (names : list string) :
  read_csv (csv_path breakfast) = Some csv_df ->
  read_excel excel_path = Some excel_df ->
  has_text (csv_School_Name <$> csv_df) ->
  has_text (excel_School_Name <$> excel_df) ->
  still_unmatched_of ratio (csv_names_of (drop_test_schools csv_df))
                     (excel_names_of excel_df) None = name :: names ->
  (forall p, ollama (length log) p = None) ->
  let log' :=
    log ++ [Prompt (excel_names_of excel_df)
                   (take (Z.to_nat default_batch_size) (name :: names))] in
  let run := main ratio json_loads ollama merge_refuses read_csv read_excel log in
  match read_csv (csv_path lunch) with
  | Some lunch_df =>
      match process_dataset ratio json_loads ollama merge_refuses
                            lunch_df excel_df None log' with
      | (Ok (merged, mapping), log'') =>
          run = (Outcome {[ "lunch" := mapping ]} [(output_path lunch, merged)]
                         (Some {[ "lunch" := mapping ]}), log'')
      | (Raise _, log'') =>
          run = (Outcome ∅
                   (written (output_path lunch)
                      (merge_dataset ratio json_loads ollama merge_refuses
                                     lunch_df excel_df None log'))
                   None, log'')
      end
  | None => run = (Outcome ∅ [] None, log')
  end.
Proof.
  intros Hcsv Hexcel Hsource Hroster Hstill Hdown. cbn zeta.
  pose proof (PipelineMore.merge_dataset_any ratio json_loads ollama merge_refuses
                csv_df excel_df None log) as Hmerge.
  destruct (PipelineMore.process_dataset_after_merge ratio json_loads ollama
              merge_refuses csv_df excel_df None log) as (Hlog & Herror & _).
  cbn zeta in Hmerge.
  rewrite (PipelineMore.accepted_has_text _ Hsource),
    (PipelineMore.accepted_has_text _ Hroster), Hstill in Hmerge.
  cbn [andb] in Hmerge.
  destruct (ResolverMore.chunks_of_cons_head (Z.to_nat default_batch_size) name names)
    as [rest Hchunks]; [vm_compute; lia|].
  rewrite Hchunks in Hmerge. cbn [fmap list_fmap first_failure take] in Hmerge.
  rewrite Hdown, take_0 in Hmerge.
  rewrite Hmerge in Hlog, Herror. cbn [fst snd] in Hlog, Herror.
  specialize (Herror _ eq_refl).
  assert (Hfirst : dataset_step ratio json_loads ollama merge_refuses read_csv read_excel
                     (Driver ∅ None []) ("breakfast", breakfast) log
                   = (Driver ∅ None [],
                      log ++ [Prompt (excel_names_of excel_df)
                                (take (Z.to_nat default_batch_size) (name :: names))])).
  { unfold dataset_step, written. cbn [fst snd cache].
    rewrite Hcsv, Hexcel, Hmerge.
    destruct (process_dataset ratio json_loads ollama merge_refuses csv_df excel_df
                None log) as [r log1].
    cbn [fst snd] in Hlog, Herror. subst. reflexivity. }
  unfold main. cbn [run_datasets datasets]. rewrite Hfirst.
  unfold dataset_step. cbn [fst snd cache all_mappings saved app]. rewrite Hexcel.
  destruct (read_csv (csv_path lunch)) as [lunch_df|]; [|reflexivity].
  destruct (process_dataset ratio json_loads ollama merge_refuses lunch_df excel_df
              None _) as [[[merged mapping]|e] log''] eqn:Hlunch; [|reflexivity].
  apply PipelineFacts.process_dataset_Ok in Hlunch as (-> & _).
  unfold written. cbn [fst all_mappings saved app].
  rewrite bool_decide_eq_false_2; [reflexivity|].
  intros Hempty. apply (f_equal (fun m => m !! "lunch")) in Hempty.
  cbn beta in Hempty.
  rewrite lookup_insert_eq, lookup_empty in Hempty. discriminate Hempty.
Qed.

Lemma main_survives_request_failure_witness :
  main SequenceMatcher.ratio Json.loads waking_ollama never_refuses
       swapped_read_csv example_read_excel []
  = (Outcome {[ "lunch" := {[ "aldrin es" := PyStr "aldrin es" ]} ]}
       [(output_path lunch,
         [ (CsvRec (CsvRow (Some "Aldrin Elementary School") [("Meals", "120")])
                   (Some "Aldrin Elementary School") "aldrin es" (PyStr "aldrin es"),
            Some (ExcelRec (ExcelRow (Some "Aldrin ES") [("Region", "1")])
                           (Some "Aldrin ES") "aldrin es")) ])]
       (Some {[ "lunch" := {[ "aldrin es" := PyStr "aldrin es" ]} ]}),
     [Prompt ["aldrin es"] ["zzz"]]).
Proof.
  refine (main_survives_request_failure SequenceMatcher.ratio Json.loads waking_ollama
            never_refuses swapped_read_csv example_read_excel [] unknown_csv
            scenario_excel "zzz" [] eq_refl eq_refl _ _ eq_refl (fun _ => eq_refl)).
  - exists "zzz". apply elem_of_cons. left. reflexivity.
  - exists "Aldrin ES". apply elem_of_cons. left. reflexivity.
Defined.

(** X24. The report of [process_dataset] comes after the merged table is
    saved, and raises on a source table that has a column "School Name":
    such a call never returns; when its merge completes, the table is
    saved and the call raises [KeyError]; in [main] the file of such a data
    set is kept while no mapping is recorded for it, and the cache is left
    as it was. *)
Theorem process_dataset_report_raises
    (ratio : string -> string -> Q) (json_loads : string -> option dict)
    (ollama : nat -> prompt -> option string)
    (merge_refuses : dict -> list string -> list string -> option exn)
    (read_csv : string -> option (list csv_row))
    (read_excel : string -> option (list excel_row))
    (csv_df : list csv_row) (excel_df : list excel_row)
    (st : driver) (entry : string * dataset) (log : list prompt) :
  has_column "School Name" csv_df = true ->
  let merge :=
    merge_dataset ratio json_loads ollama merge_refuses csv_df excel_df (cache st) log in
  let run :=
    process_dataset ratio json_loads ollama merge_refuses csv_df excel_df
                    (cache st) log in
  snd run = snd merge
  /\ (exists e, fst run = Raise e)
  /\ (forall merged mapping,
        fst merge = Ok (merged, mapping) ->
        fst run = Raise (KeyError "School Name")
        /\ (read_csv (csv_path (snd entry)) = Some csv_df ->
            read_excel excel_path = Some excel_df ->
            dataset_step ratio json_loads ollama merge_refuses read_csv read_excel
                         st entry log
            = (Driver (all_mappings st) (cache st)
                      (saved st ++ [(output_path (snd entry), merged)]), snd merge))).
Proof.
  intros Hcolumn. cbn zeta.
  destruct (PipelineMore.process_dataset_after_merge ratio json_loads ollama
              merge_refuses csv_df excel_df (cache st) log) as (Hlog & Herror & Hout).
  rewrite Hcolumn in Hout. split; [exact Hlog|]. split.
  - destruct (fst (merge_dataset ratio json_loads ollama merge_refuses csv_df excel_df
                     (cache st) log)) as [out|e] eqn:Hmerge.
    + rewrite (Hout out eq_refl). eauto.
    + rewrite (Herror e eq_refl). eauto.
  - intros merged mapping Hmerge. split; [exact (Hout _ Hmerge)|].
    intros Hcsv Hexcel. unfold dataset_step, written. rewrite Hcsv, Hexcel, Hmerge.
    specialize (Hout _ Hmerge).
    destruct (process_dataset ratio json_loads ollama merge_refuses csv_df excel_df
                (cache st) log) as [r log1].
    cbn [fst snd] in Hlog, Hout. subst. reflexivity.
Qed.

Lemma process_dataset_report_raises_witness :
  process_dataset SequenceMatcher.ratio Json.loads null_ollama never_refuses
                  labelled_csv scenario_excel None []
  = (Raise (KeyError "School Name"), []).
Proof.
  destruct (process_dataset_report_raises SequenceMatcher.ratio Json.loads null_ollama
              never_refuses example_read_csv example_read_excel
              labelled_csv scenario_excel (Driver ∅ None []) ("breakfast", breakfast)
              [] eq_refl) as (Hlog & _ & Hraises).
  destruct (Hraises
              [ (CsvRec (CsvRow (Some "Aldrin Elementary School")
                                [("School Name", "Aldrin")])
                        (Some "Aldrin Elementary School") "aldrin es"
                        (PyStr "aldrin es"),
                 Some (ExcelRec (ExcelRow (Some "Aldrin ES") [("Region", "1")])
                                (Some "Aldrin ES") "aldrin es")) ]
              {[ "aldrin es" := PyStr "aldrin es" ]}) as [Hresult _].
  - vm_compute. reflexivity.
  - cbn [cache] in Hlog, Hresult.
    destruct (process_dataset SequenceMatcher.ratio Json.loads null_ollama never_refuses
                labelled_csv scenario_excel None []) as [r log'].
    cbn [fst snd] in Hlog, Hresult. subst r log'. reflexivity.
Defined.

Module GeocoderFacts.
Import Geocoder.
Section WithService.

Variable value : Type.
Variable JStr : string -> value.
Variable opencage : nat -> value -> option (list (place value)).

Lemma enrich_address_fields address log enriched log' :
  enrich_address value JStr opencage address log = (inr enriched, log') ->
  log' = log ++ [address]
  /\ forall k, is_Some (enriched !! k) <-> k ∈ geocoded_fields.
Proof.
  unfold enrich_address. intros [= Hres <-]. split; [reflexivity|].
  intros k. unfold geocoded_fields. rewrite !elem_of_cons, elem_of_nil.
  destruct (opencage (length log) address) as [[|result results]|];
    [| |discriminate]; injection Hres as <-.
  all: rewrite !lookup_insert_is_Some, lookup_singleton_is_Some.
  all: split;
    [ intuition congruence
    | intros [->|[->|[->|[]]]];
      [ left
      | right; split; [discriminate | left]
      | right; split; [discriminate | right; split; [discriminate|]] ];
      reflexivity ].
Qed.

Lemma update_lookup (d other : gmap string value) k :
  update value d other !! k = match other !! k with Some v => Some v | None => d !! k end.
Proof.
  unfold update. rewrite lookup_union. destruct (other !! k), (d !! k); reflexivity.
Qed.

Lemma update_idem (d other : gmap string value) :
  update value (update value d other) other = update value d other.
Proof.
  apply map_eq. intros k. rewrite !update_lookup. destruct (other !! k); reflexivity.
Qed.

Lemma enrich_address_stateless address log log2 :
  (forall n m q, opencage n q = opencage m q) ->
  fst (enrich_address value JStr opencage address log2)
  = fst (enrich_address value JStr opencage address log).
Proof.
  intros Hstateless. unfold enrich_address. cbn [fst].
  rewrite (Hstateless (length log2) (length log)). reflexivity.
Qed.

End WithService.
End GeocoderFacts.

Section GeocoderProperties.
Import Geocoder.

Variable value : Type.
Variable JStr : string -> value.
Variable opencage : nat -> value -> option (list (place value)).

(** X21. When the geocoding loop of add_adress_to_schools.py completes,
    the schools are the same, in the same order; one request was sent per
    school, in that order, each with the ["address"] of its school; and
    every record has the three fields "zipcode", "latitude" and
    "longitude" and is otherwise unchanged. *)
Theorem enrich_schools_result
    (schools out : list (string * gmap string value)) (log log' : list value) :
  enrich_schools value JStr opencage schools log = (inr out, log') ->
  out.*1 = schools.*1
  /\ (exists addresses,
        Forall2 (fun item address => item.2 !! "address" = Some address)
                schools addresses
        /\ log' = log ++ addresses)
  /\ Forall2 (fun item item' =>
                forall k,
                  if bool_decide (k ∈ geocoded_fields)
                  then is_Some (item'.2 !! k)
                  else item'.2 !! k = item.2 !! k) schools out.
Proof.
  revert out log log'.
  induction schools as [|[school info] schools IH]; intros out log log';
    cbn [enrich_schools].
  - intros [= <- <-]. split; [reflexivity|]. split; [|constructor].
    exists []. split; [constructor | rewrite app_nil_r; reflexivity].
  - destruct (info !! "address") as [address|] eqn:Haddress; [|discriminate].
    destruct (enrich_address value JStr opencage address log)
      as [[e|enriched] log1] eqn:Hone; [discriminate|].
    destruct (enrich_schools value JStr opencage schools log1)
      as [[e|rest] log2] eqn:Hrest; [discriminate|].
    intros [= <- <-].
    apply GeocoderFacts.enrich_address_fields in Hone as [-> Hfields].
    destruct (IH _ _ _ Hrest) as (Hkeys & (addresses & Haddresses & ->) & Hitems).
    split; [cbn; rewrite Hkeys; reflexivity|]. split.
    + exists (address :: addresses). split; [constructor; assumption|].
      rewrite <- app_assoc. reflexivity.
    + constructor; [|exact Hitems]. intros k. cbn [snd].
      rewrite GeocoderFacts.update_lookup.
      destruct (bool_decide (k ∈ geocoded_fields)) eqn:Hk.
      * apply bool_decide_eq_true, Hfields in Hk as [v ->]. eexists. reflexivity.
      * apply bool_decide_eq_false in Hk.
        destruct (enriched !! k) as [v|] eqn:Hv; [|reflexivity].
        exfalso. apply Hk, Hfields. eexists. exact Hv.
Qed.

(** X22. The geocoding loop completes exactly when every school has an
    ["address"] and every request, numbered in the order of the schools,
    is answered; otherwise it raises, and nothing is saved. *)
Theorem enrich_schools_returns_iff
    (schools : list (string * gmap string value)) (log : list value) :
  (exists out log', enrich_schools value JStr opencage schools log = (inr out, log'))
  <->
  (forall (k : nat) item,
     schools !! k = Some item ->
     exists address,
       item.2 !! "address" = Some address
       /\ is_Some (opencage (length log + k)%nat address)).
Proof.
  revert log. induction schools as [|[school info] schools IH]; intros log;
    cbn [enrich_schools].
  - split; [intros _ k item Hk; discriminate Hk | eauto].
  - destruct (info !! "address") as [address|] eqn:Haddress.
    2: { split.
         - intros (out & log' & Hrun). discriminate Hrun.
         - intros Hall. destruct (Hall 0%nat (school, info) eq_refl) as (a & Ha & _).
           cbn [snd] in Ha. congruence. }
    unfold enrich_address at 1.
    destruct (opencage (length log) address) as [results|] eqn:Hrequest.
    2: { split.
         - intros (out & log' & Hrun). discriminate Hrun.
         - intros Hall. destruct (Hall 0%nat (school, info) eq_refl) as (a & Ha & Hsome).
           cbn [snd] in Ha. rewrite Nat.add_0_r in Hsome.
           assert (a = address) as -> by congruence.
           rewrite Hrequest in Hsome. destruct Hsome as [? [=]]. }
    specialize (IH (log ++ [address])).
    assert (Hshift : forall k, (length (log ++ [address]) + k = length log + S k)%nat).
    { intros k. rewrite length_app. cbn [length]. lia. }
    set (enriched := match results with [] => _ | _ :: _ => _ end).
    assert (Henriched : exists d, enriched = inr d).
    { subst enriched. destruct results; eauto. }
    destruct Henriched as [d ->].
    destruct (enrich_schools value JStr opencage schools (log ++ [address]))
      as [[e|rest] log2] eqn:Hrest.
    + split; [intros (out & log' & Hrun); discriminate Hrun|].
      intros Hall. exfalso.
      destruct (proj2 IH) as (? & ? & [=]).
      intros k item Hk. rewrite Hshift. apply (Hall (S k)), Hk.
    + split; [|eauto]. intros _ [|k] item Hk.
      * injection Hk as <-. exists address. rewrite Nat.add_0_r, Hrequest. eauto.
      * rewrite <- Hshift. apply (proj1 IH); [eauto | exact Hk].
Qed.

(** X23. Geocoding the result again changes nothing, given a service that
    answers a query the same way each time: the loop run on its own output
    completes and returns that output. *)
Theorem enrich_schools_again
    (schools out : list (string * gmap string value)) (log log' log2 : list value) :
  (forall n m q, opencage n q = opencage m q) ->
  enrich_schools value JStr opencage schools log = (inr out, log') ->
  exists log3, enrich_schools value JStr opencage out log2 = (inr out, log3).
Proof.
  intros Hstateless. revert out log log' log2.
  induction schools as [|[school info] schools IH]; intros out log log' log2;
    cbn [enrich_schools].
  - intros [= <- <-]. eexists. reflexivity.
  - destruct (info !! "address") as [address|] eqn:Haddress; [|discriminate].
    destruct (enrich_address value JStr opencage address log)
      as [[e|enriched] log1] eqn:Hone; [discriminate|].
    destruct (enrich_schools value JStr opencage schools log1)
      as [[e|rest] log1'] eqn:Hrest; [discriminate|].
    intros [= <- <-]. cbn [enrich_schools].
    pose proof Hone as Hfields.
    apply GeocoderFacts.enrich_address_fields in Hfields as [_ Hfields].
    assert (Hkept : update value info enriched !! "address" = Some address).
    { rewrite GeocoderFacts.update_lookup.
      destruct (enriched !! "address") as [v|] eqn:Hv; [|exact Haddress].
      exfalso. assert (Hin : "address" ∈ geocoded_fields) by (apply Hfields; eauto).
      unfold geocoded_fields in Hin. rewrite !elem_of_cons, elem_of_nil in Hin.
      destruct Hin as [[=]|[[=]|[[=]|[]]]]. }
    rewrite Hkept.
    pose proof (GeocoderFacts.enrich_address_stateless value JStr opencage address
                  log log2 Hstateless) as Hsame.
    rewrite Hone in Hsame. cbn [fst] in Hsame.
    destruct (enrich_address value JStr opencage address log2) as [r log3] eqn:Hagain.
    cbn [fst] in Hsame. subst r.
    destruct (IH _ _ _ log3 Hrest) as [log4 Hrun]. rewrite Hrun.
    rewrite GeocoderFacts.update_idem. eexists. reflexivity.
Qed.

End GeocoderProperties.

Lemma enrich_schools_result_witness : example_enriched.*1 = example_schools.*1.
Proof.
  refine (proj1 (enrich_schools_result string id silent_opencage
                   example_schools example_enriched []
                   (snd (Geocoder.enrich_schools string id silent_opencage
                           example_schools [])) _)).
  reflexivity.
Defined.

Lemma enrich_schools_again_witness :
  exists log,
    Geocoder.enrich_schools string id silent_opencage example_enriched []
    = (inr example_enriched, log).
Proof.
  apply (enrich_schools_again string id silent_opencage example_schools example_enriched
           [] (snd (Geocoder.enrich_schools string id silent_opencage example_schools []))
           []).
  - intros n m q. reflexivity.
  - reflexivity.
Defined.
